(** * Pdf_chat: the retrieval-augmented question-answering pipeline

    A shallow embedding of [pdf_chat_app.py], of the part of
    [langchain_text_splitters] that [get_text_chunks] instantiates, of
    the request loop of the [openai] client behind [ChatOpenAI] and of
    the validation script [test_setup.py], followed by the properties of
    chunking, index bootstrap, question handling, document processing
    and setup validation.

    Python values are modelled as follows:
    - a [str] is the list of its Unicode code points, [len] is its length;
    - an [int] is a [Z];
    - a raised exception is the [Raise] outcome of [result]; it carries
      the name of its class and of the classes that class derives from,
      which is what an [except] clause tests;
    - Streamlit's [st.session_state], the Pinecone control plane, the
      call log of the conversation chain and the rendered page are fields
      of an explicit state threaded through a state-and-exception monad. *)

From Stdlib Require Import String Ascii DecimalString.
From Stdlib Require Import List ZArith NArith Lia Bool.
Import ListNotations.
Open Scope Z_scope.

(* ================================================================= *)
(** ** Python strings and exceptions *)

Definition char := N.
Definition str := list char.

Definition len {A} (s : list A) : Z := Z.of_nat (length s).

(** A literal of the program: the code points of a Latin-1 string. *)
Definition py (s : string) : str := map N_of_ascii (list_ascii_of_string s).

Definition NL : char := 10%N.
Definition SP : char := 32%N.

Fixpoint str_eqb (a b : str) : bool :=
  match a, b with
  | [], [] => true
  | x :: a', y :: b' => N.eqb x y && str_eqb a' b'
  | _, _ => false
  end.

(** [bool(s)] for a string or a list: non-empty. *)
Definition truthy {A} (l : list A) : bool :=
  match l with [] => false | _ :: _ => true end.

(** [str.isspace] on one code point (the code points Python's
    [str.strip()] removes). *)
Definition isspace (c : char) : bool :=
  ((9 <=? c) && (c <=? 13) || (28 <=? c) && (c <=? 32) ||
   (c =? 133) || (c =? 160) || (c =? 5760) ||
   (8192 <=? c) && (c <=? 8202) || (c =? 8232) || (c =? 8233) ||
   (c =? 8239) || (c =? 8287) || (c =? 12288))%N.

Fixpoint lstrip (s : str) : str :=
  match s with
  | c :: s' => if isspace c then lstrip s' else s
  | [] => []
  end.

Definition rstrip (s : str) : str := rev (lstrip (rev s)).

(** [s.strip()] *)
Definition strip (s : str) : str := rstrip (lstrip s).

(** [separator.join(docs)] *)
Fixpoint join (separator : str) (docs : list str) : str :=
  match docs with
  | [] => []
  | [d] => d
  | d :: ds => d ++ separator ++ join separator ds
  end.

(** [text.startswith(p)] *)
Fixpoint startswith (p text : str) : bool :=
  match p, text with
  | [], _ => true
  | x :: p', y :: text' => N.eqb x y && startswith p' text'
  | _ :: _, [] => false
  end.

(** [list(text)]: the one-character strings of a text. *)
Definition chars (text : str) : list str := map (fun c => [c]) text.

(** [str(n)] for an [int]. *)
Definition str_of_int (n : Z) : str := py (NilZero.string_of_int (Z.to_int n)).

(** An exception: the name of its class, the names of the classes that
    class derives from, and its message. *)
Record exn := Exn { exn_type : string; exn_bases : list string; exn_msg : str }.

(** An exception of a class that derives from [Exception]; its other
    base classes play no role in the program. *)
Definition mkExn (type : string) (msg : str) : exn := Exn type ["Exception"%string] msg.

(** [isinstance(e, cls)] *)
Definition isinstance (e : exn) (cls : string) : bool :=
  String.eqb (exn_type e) cls || existsb (String.eqb cls) (exn_bases e).

Definition IndexError : exn :=
  Exn "IndexError" ["LookupError"; "Exception"]%string (py "list index out of range").
Definition ValueError (msg : str) : exn := mkExn "ValueError" msg.

(** [str(e)] *)
Definition str_of_exn (e : exn) : str := exn_msg e.

Inductive result (A : Type) : Type :=
| Ok (a : A)
| Raise (e : exn).
Arguments Ok {A} a.
Arguments Raise {A} e.

Definition rbind {A B} (r : result A) (k : A -> result B) : result B :=
  match r with
  | Ok a => k a
  | Raise e => Raise e
  end.

Declare Scope result_scope.
Delimit Scope result_scope with result.
Notation "x <- c ;; k" := (rbind c (fun x => k))
  (at level 61, c at next level, right associativity) : result_scope.
Notation "' p <- c ;; k" := (rbind c (fun x => let p := x in k))
  (at level 61, p pattern, c at next level, right associativity) : result_scope.

(** A [for] loop whose body may raise. *)
Fixpoint foldM {S A} (body : S -> A -> result S) (l : list A) (s : S) : result S :=
  match l with
  | [] => Ok s
  | a :: l' => rbind (body s a) (foldM body l')
  end.

(* ================================================================= *)
(** ** langchain_text_splitters: RecursiveCharacterTextSplitter

    [get_text_chunks] delegates to this class of the
    [langchain_text_splitters] package.  The definitions below follow
    [TextSplitter._join_docs], [TextSplitter._merge_splits],
    [_split_text_with_regex] and
    [RecursiveCharacterTextSplitter._split_text] / [split_text] with
    [length_function = len] and literal (escaped) separators
    ([is_separator_regex = False]). *)

Module TextSplitter.

Record t := mk {
  _chunk_size : Z;
  _chunk_overlap : Z;
  _keep_separator : bool;
  _strip_whitespace : bool;
  _separators : list str
}.

(** [RecursiveCharacterTextSplitter(chunk_size=..., chunk_overlap=...,
    length_function=len, separators=...)]: [keep_separator] and
    [strip_whitespace] keep their defaults ([True]); [TextSplitter.__init__]
    rejects a chunk size that is not positive, a negative overlap and an
    overlap larger than the chunk size. *)
Definition RecursiveCharacterTextSplitter
    (chunk_size chunk_overlap : Z) (separators : list str) : result t :=
  if chunk_size <=? 0 then
    Raise (ValueError (py "chunk_size must be > 0, got " ++ str_of_int chunk_size))
  else if chunk_overlap <? 0 then
    Raise (ValueError
             (py "chunk_overlap must be >= 0, got " ++ str_of_int chunk_overlap))
  else if chunk_overlap >? chunk_size then
    Raise (ValueError
             (py "Got a larger chunk overlap (" ++ str_of_int chunk_overlap ++
              py ") than chunk size (" ++ str_of_int chunk_size ++
              py "), should be smaller."))
  else
    Ok (mk chunk_size chunk_overlap true true
           (if truthy separators then separators
            else [[NL; NL]; [NL]; [SP]; []])).

(** [re.search(re.escape(p), text)] for a non-empty literal [p]. *)
Fixpoint re_search (p text : str) : bool :=
  startswith p text ||
  match text with
  | [] => false
  | _ :: text' => re_search p text'
  end.

(** [re.split] on a non-empty literal [sep], scanning left to right for
    non-overlapping matches.  [skip] counts the characters of a match
    still to be consumed.  With [group = true] the pattern is the
    capturing [(sep)] and the matched separators are part of the result:
    [t0; sep; t1; sep; ...; tk]; otherwise [t0; t1; ...; tk]. *)
Fixpoint re_split (group : bool) (sep text : str) (skip : nat) : list str :=
  match text with
  | [] => [[]]
  | c :: text' =>
      match skip with
      | S k => re_split group sep text' k
      | O =>
          if startswith sep text then
            [] :: (if group then [sep] else []) ++
            re_split group sep text' (Nat.pred (length sep))
          else
            match re_split group sep text' O with
            | piece :: pieces => (c :: piece) :: pieces
            | [] => [[c]]
            end
      end
  end.

(** [[_splits[i] + _splits[i + 1] for i in range(1, len(_splits), 2)]]
    given [_splits[1:]]; [re.split] with one group returns an odd number
    of items, so every [i + 1] is in range. *)
Fixpoint separator_first (l : list str) : list str :=
  match l with
  | s :: piece :: l' => (s ++ piece) :: separator_first l'
  | _ => []
  end.

Definition _split_text_with_regex
    (text separator : str) (keep_separator : bool) : list str :=
  let splits :=
    if truthy separator then
      if keep_separator then
        let _splits := re_split true separator text O in
        firstn 1 _splits ++ separator_first (tl _splits)
      else re_split false separator text O
    else chars text in
  filter truthy splits.

Section Methods.
Variable self : t.

Definition _join_docs (docs : list str) (separator : str) : option str :=
  let text := join separator docs in
  let text := if _strip_whitespace self then strip text else text in
  if truthy text then Some text else None.

Definition sep_if (b : bool) (separator_len : Z) : Z :=
  if b then separator_len else 0.

(** The inner [while] loop of [_merge_splits]: drop pieces from the
    front of [current_doc] while more than the overlap is retained, or
    while the next piece would not fit. *)
Fixpoint pop_front (separator_len _len : Z) (current_doc : list str) (total : Z)
  : result (list str * Z) :=
  if (total >? _chunk_overlap self) ||
     ((total + _len + sep_if (0 <? len current_doc) separator_len
         >? _chunk_size self) && (total >? 0))
  then
    match current_doc with
    | [] => Raise IndexError
    | d0 :: rest =>
        pop_front separator_len _len rest
          (total - (len d0 + sep_if (1 <? len current_doc) separator_len))
    end
  else Ok (current_doc, total).

(** One iteration of [for d in splits] in [_merge_splits]; the state is
    [(docs, current_doc, total)].  The warning logged when [total]
    exceeds the chunk size has no effect on the result and is left out. *)
Definition merge_step (separator : str)
    (st : list str * list str * Z) (d : str) : result (list str * list str * Z) :=
  let separator_len := len separator in
  let '(docs, current_doc, total) := st in
  let _len := len d in
  (st' <-
     (if total + _len + sep_if (0 <? len current_doc) separator_len
           >? _chunk_size self then
        if 0 <? len current_doc then
          let docs :=
            match _join_docs current_doc separator with
            | Some doc => docs ++ [doc]
            | None => docs
            end in
          '(current_doc, total) <- pop_front separator_len _len current_doc total ;;
          Ok (docs, current_doc, total)
        else Ok st
      else Ok st) ;;
   let '(docs, current_doc, total) := st' in
   let current_doc := current_doc ++ [d] in
   Ok (docs, current_doc,
       total + (_len + sep_if (1 <? len current_doc) separator_len)))%result.

Definition _merge_splits (splits : list str) (separator : str) : result (list str) :=
  ('(docs, current_doc, _) <- foldM (merge_step separator) splits ([], [], 0) ;;
   match _join_docs current_doc separator with
   | Some doc => Ok (docs ++ [doc])
   | None => Ok docs
   end)%result.

(** [for s in splits] in [_split_text]; the state is
    [(final_chunks, _good_splits)], [recurse] is
    [self._split_text(_, new_separators)]. *)
Definition split_step (recurse : str -> result (list str))
    (new_separators : list str) (_separator : str)
    (st : list str * list str) (s : str) : result (list str * list str) :=
  let '(final_chunks, _good_splits) := st in
  if len s <? _chunk_size self then Ok (final_chunks, _good_splits ++ [s])
  else
    ('(final_chunks, _good_splits) <-
       (if truthy _good_splits then
          merged_text <- _merge_splits _good_splits _separator ;;
          Ok (final_chunks ++ merged_text, [])
        else Ok (final_chunks, _good_splits)) ;;
     if negb (truthy new_separators) then Ok (final_chunks ++ [s], _good_splits)
     else
       other_info <- recurse s ;;
       Ok (final_chunks ++ other_info, _good_splits))%result.

(** The rest of [_split_text] once the pieces are known: the loop
    over [splits] and the final flush of [_good_splits]. *)
Definition split_pieces (recurse : str -> result (list str))
    (new_separators : list str) (_separator : str) (splits : list str)
  : result (list str) :=
  ('(final_chunks, _good_splits) <-
     foldM (split_step recurse new_separators _separator) splits ([], []) ;;
   if truthy _good_splits then
     merged_text <- _merge_splits _good_splits _separator ;;
     Ok (final_chunks ++ merged_text)
   else Ok final_chunks)%result.

(** The body of [_split_text] once [separator] and [new_separators]
    are chosen. *)
Definition split_with (recurse : str -> result (list str))
    (separator : str) (new_separators : list str) (text : str)
  : result (list str) :=
  let splits := _split_text_with_regex text separator (_keep_separator self) in
  let _separator := if _keep_separator self then [] else separator in
  split_pieces recurse new_separators _separator splits.

(** The separator search of [_split_text]: the first separator that is
    empty or occurs in [text], with the separators after it; without a
    hit, the last separator and no further ones.  [l] is the part of
    [separators] still to be tried. *)
Fixpoint find_separator (separators l : list str) (text : str)
  : result (str * list str) :=
  match l with
  | [] =>
      match rev separators with
      | [] => Raise IndexError
      | last :: _ => Ok (last, [])
      end
  | _s :: rest =>
      if negb (truthy _s) then Ok (_s, [])
      else if re_search _s text then Ok (_s, rest)
      else find_separator separators rest text
  end.

(** [_split_text] from the separator search on: the search as in
    [find_separator], each hit followed by the body.  [recurse] is
    [self._split_text], called on the separators after the hit; where
    there are none the body never calls it. *)
Fixpoint split_from (recurse : list str -> str -> result (list str))
    (separators l : list str) (text : str) : result (list str) :=
  match l with
  | [] =>
      match rev separators with
      | [] => Raise IndexError
      | last :: _ => split_with (fun _ => Ok []) last [] text
      end
  | _s :: rest =>
      if negb (truthy _s) then split_with (fun _ => Ok []) _s [] text
      else if re_search _s text then split_with (recurse rest) _s rest text
      else split_from recurse separators rest text
  end.

(** [_split_text(text, separators)].  The recursion is on the list of
    separators: [new_separators] is a strict suffix of [separators]. *)
Fixpoint _split_text (separators : list str) (text : str) {struct separators}
  : result (list str) :=
  split_from _split_text separators separators text.

Definition split_text (text : str) : result (list str) :=
  _split_text (_separators self) text.

End Methods.

End TextSplitter.

(* ================================================================= *)
(** ** pdf_chat_app.py: get_text_chunks *)

Definition get_text_chunks (text : str) : result (list str) :=
  (text_splitter <-
     TextSplitter.RecursiveCharacterTextSplitter 1000 200
       [[NL; NL]; [NL]; [SP]; []] ;;
   chunks <- TextSplitter.split_text text_splitter text ;;
   Ok chunks)%result.

(** The splitter [get_text_chunks] builds. *)
Definition text_splitter : TextSplitter.t :=
  TextSplitter.mk 1000 200 true true [[NL; NL]; [NL]; [SP]; []].

(** [text[i:j]] for [0 <= i <= j]. *)
Definition slice (text : str) (i j : nat) : str := firstn (j - i) (skipn i text).

(** Two consecutive chunks overlap: a non-empty end of the first is the
    beginning of the second. *)
Definition overlapping (c1 c2 : str) : Prop :=
  exists w, w <> [] /\ (exists p, c1 = p ++ w) /\ (exists q, c2 = w ++ q).

(** A chunk within the size limit of a splitter: non-empty and at most
    [chunk_size] long. *)
Definition chunk_ok (self : TextSplitter.t) (c : str) : Prop :=
  1 <= len c <= TextSplitter._chunk_size self.

(** A piece that may enter [_merge_splits]. *)
Definition piece_ok (self : TextSplitter.t) (d : str) : Prop :=
  1 <= len d <= TextSplitter._chunk_size self.

(** The invariant of the loop of [_merge_splits] without a joining
    separator. *)
Definition merge_inv (self : TextSplitter.t) (st : list str * list str * Z) : Prop :=
  let '(docs, current_doc, total) := st in
  total = len (concat current_doc) /\
  Forall (fun d => 1 <= len d) current_doc /\
  total <= TextSplitter._chunk_size self /\
  Forall (chunk_ok self) docs.

(** What a call of [_split_text] is expected to deliver. *)
Definition returns_chunks (self : TextSplitter.t) (r : result (list str)) : Prop :=
  exists l, r = Ok l /\ Forall (chunk_ok self) l.

(** The characters kept for the next chunk when the chunk of
    characters [w] is emitted. *)
Definition carried (self : TextSplitter.t) (w : str) : str :=
  skipn (length w - Z.to_nat (TextSplitter._chunk_overlap self)) w.

(** Chunks of which each one after the first begins with the
    characters carried over from the full chunk before it. *)
Inductive linked (self : TextSplitter.t) : list str -> Prop :=
| linked_nil : linked self []
| linked_one c : linked self [c]
| linked_cons c1 c2 rest :
    len c1 = TextSplitter._chunk_size self ->
    (exists q, q <> [] /\ c2 = carried self c1 ++ q) ->
    linked self (c2 :: rest) ->
    linked self (c1 :: c2 :: rest).

(** What [_split_text] does with a piece that is not below the chunk
    size: the separators after the chosen one split it, and without
    such separators it becomes a chunk as it is. *)
Definition oversize (recurse : str -> result (list str)) (new_separators : list str)
    (big : str) : result (list str) :=
  if truthy new_separators then recurse big else Ok [big].

(* ================================================================= *)
(** ** The session, the external services and the page *)

(** One entry of [st.session_state.chat_history]: the dict
    [{'question': ..., 'answer': ...}]. *)
Record turn := mkTurn { question : str; answer : str }.

(** [PineconeVectorStore]: a handle on a named index, with the key of
    the embedding model used to fill and to query it. *)
Record VectorStore := mkVectorStore {
  vs_index_name : str;
  vs_embedding_key : str
}.

(** [ConversationalRetrievalChain.from_llm(llm, retriever, memory,
    return_source_documents=True)].  The [ConversationBufferMemory] is
    the list of the turns it has saved, oldest first.  The sampling
    temperature of the model (0.7) is not recorded. *)
Record Chain := mkChain {
  llm_api_key : str;
  llm_model_name : str;
  retriever_store : VectorStore;
  retriever_k : Z;
  memory_key : str;
  output_key : str;
  memory : list turn;
  return_source_documents : bool
}.

Definition set_memory (c : Chain) (m : list turn) : Chain :=
  mkChain (llm_api_key c) (llm_model_name c) (retriever_store c) (retriever_k c)
          (memory_key c) (output_key c) m (return_source_documents c).

(** The value a chain call returns: [response['answer']] and
    [response['source_documents']]. *)
Record response := mkResponse { r_answer : str; r_source_documents : list str }.

Record SessionState := mkSession {
  conversation : option Chain;
  chat_history : list turn;
  processed : bool
}.

(** Lines 20-25: the keys a fresh session is given. *)
Definition initial_session : SessionState := mkSession None [] false.

(** An index of the Pinecone project. *)
Record IndexModel := mkIndex {
  name : str;
  dimension : Z;
  metric : str;
  cloud : str;
  region : str
}.

(** The calls the program makes into its libraries and through them to
    the services behind them. *)
Inductive call :=
| Pinecone_init (api_key : str)
| list_indexes
| create_index (ix : IndexModel)
| time_sleep (seconds : Z)
| OpenAIEmbeddings_init (api_key : str)
| from_texts (texts : list str) (index_name : str)
| ChatOpenAI_init (api_key model_name : str)
| from_llm
| chain_call (user_question : str).

(** What [streamlit] has put on the page (input widgets and spinners
    are not recorded). *)
Inductive element :=
| st_title (body : str)
| st_markdown (body : str)
| st_header (body : str)
| st_warning (body : str)
| st_error (body : str)
| st_info (body : str)
| st_success (body : str)
| st_chat_message (role body : str).

Record State := mkState {
  session_state : SessionState;
  pinecone : list IndexModel;
  calls : list call;
  page : list element
}.

Definition M (A : Type) : Type := State -> result A * State.

Definition ret {A} (a : A) : M A := fun s => (Ok a, s).

Definition raise {A} (e : exn) : M A := fun s => (Raise e, s).

Definition bind {A B} (m : M A) (k : A -> M B) : M B :=
  fun s =>
    match m s with
    | (Ok a, s') => k a s'
    | (Raise e, s') => (Raise e, s')
    end.

Declare Scope monad_scope.
Delimit Scope monad_scope with monad.
Notation "x <- c ;; k" := (bind c (fun x => k))
  (at level 61, c at next level, right associativity) : monad_scope.
Notation "c ;;; k" := (bind c (fun _ => k))
  (at level 61, right associativity) : monad_scope.

(** [try: body except Exception as e: handler(e)]: an exception of a
    class that does not derive from [Exception] is not caught. *)
Definition try_except {A} (body : M A) (handler : exn -> M A) : M A :=
  fun s =>
    match body s with
    | (Ok a, s') => (Ok a, s')
    | (Raise e, s') =>
        if isinstance e "Exception" then handler e s' else (Raise e, s')
    end.

Definition lift {A} (r : result A) : M A := fun s => (r, s).

Definition get_session : M SessionState := fun s => (Ok (session_state s), s).

Definition put_session (ss : SessionState) : M unit :=
  fun s => (Ok tt, mkState ss (pinecone s) (calls s) (page s)).

Definition st (e : element) : M unit :=
  fun s => (Ok tt, mkState (session_state s) (pinecone s) (calls s) (page s ++ [e])).

Definition log (c : call) (s : State) : State :=
  mkState (session_state s) (pinecone s) (calls s ++ [c]) (page s).

Definition set_pinecone (p : list IndexModel) : M unit :=
  fun s => (Ok tt, mkState (session_state s) p (calls s) (page s)).

Definition get_pinecone : M (list IndexModel) := fun s => (Ok (pinecone s), s).

Fixpoint forM {A} (l : list A) (body : A -> M unit) : M unit :=
  match l with
  | [] => ret tt
  | a :: l' => bind (body a) (fun _ => forM l' body)
  end.

Fixpoint str_in (x : str) (l : list str) : bool :=
  match l with
  | [] => false
  | y :: l' => str_eqb x y || str_in x l'
  end.

Definition index_name_const : str := py "pdf-chat-index".

Module App.
Section Capabilities.

(** Uploaded files and their pages. *)
Variables pdf page_t : Type.

(** [PdfReader(pdf).pages] and [page.extract_text()]. *)
Variable PdfReader : pdf -> result (list page_t).
Variable extract_text : page_t -> result str.

(** Whether a call fails, and with which exception, in a given state
    of the world. *)
Variable fault : call -> State -> option exn.

(** The response the chain computes for a question when nothing fails. *)
Variable run_chain : State -> Chain -> str -> response.

(** A call is logged, then raises or returns. *)
Definition external (c : call) : M unit :=
  fun s =>
    match fault c s with
    | Some e => (Raise e, log c s)
    | None => (Ok tt, log c s)
    end.

(** Lines 27-34. *)
Definition get_pdf_text (pdf_docs : list pdf) : result str :=
  foldM (fun text pdf =>
           rbind (PdfReader pdf) (fun pages =>
           foldM (fun text page =>
                    rbind (extract_text page) (fun t => Ok (text ++ t)))
                 pages text))
        pdf_docs [].

(** [pc.list_indexes()] *)
Definition pc_list_indexes : M (list IndexModel) :=
  (external list_indexes ;;; get_pinecone)%monad.

(** [pc.create_index(name=..., dimension=..., metric=..., spec=...)]:
    the control plane refuses a name that is taken. *)
Definition pc_create_index (ix : IndexModel) : M unit :=
  (external (create_index ix) ;;;
   existing <- get_pinecone ;;
   if str_in (name ix) (map name existing) then
     raise (mkExn "PineconeApiException" (py "Resource already exists"))
   else set_pinecone (existing ++ [ix]))%monad.

(** Lines 60-74 of [get_vectorstore]: create the index unless one of
    that name exists. *)
Definition ensure_index (index_name : str) : M unit :=
  (indexes <- pc_list_indexes ;;
   let existing_indexes := map name indexes in
   if negb (str_in index_name existing_indexes) then
     pc_create_index
       (mkIndex index_name 1536 (py "cosine") (py "aws") (py "us-east-1")) ;;;
     external (time_sleep 1)
   else ret tt)%monad.

(** Lines 50-86. *)
Definition get_vectorstore (text_chunks : list str) (api_key pinecone_api_key : str)
  : M VectorStore :=
  (external (Pinecone_init pinecone_api_key) ;;;
   let index_name := index_name_const in
   ensure_index index_name ;;;
   external (OpenAIEmbeddings_init api_key) ;;;
   external (from_texts text_chunks index_name) ;;;
   ret (mkVectorStore index_name api_key))%monad.

(** Lines 88-112: the chain starts with a fresh, empty memory. *)
Definition get_conversation_chain (vectorstore : VectorStore) (api_key : str)
  : M Chain :=
  (external (ChatOpenAI_init api_key (py "gpt-3.5-turbo")) ;;;
   let memory := [] in
   external from_llm ;;;
   ret (mkChain api_key (py "gpt-3.5-turbo") vectorstore 3
                (py "chat_history") (py "answer") memory true))%monad.

(** [st.session_state.conversation({'question': user_question})]:
    [Chain.__call__] runs the chain and saves the turn to its memory
    only when the run returned. *)
Definition conversation_call (chain : Chain) (user_question : str) : M response :=
  fun s =>
    match external (chain_call user_question) s with
    | (Raise e, s') => (Raise e, s')
    | (Ok _, s') =>
        let r := run_chain s chain user_question in
        let chain' :=
          set_memory chain (memory chain ++ [mkTurn user_question (r_answer r)]) in
        let ss := session_state s' in
        (Ok r, mkState (mkSession (Some chain') (chat_history ss) (processed ss))
                       (pinecone s') (calls s') (page s'))
    end.

(** Lines 114-131. *)
Definition handle_userinput (user_question : str) : M unit :=
  (ss <- get_session ;;
   match conversation ss with
   | None => st (st_warning (py "Please upload and process PDFs first!"))
   | Some chain =>
       response <- conversation_call chain user_question ;;
       ss <- get_session ;;
       put_session
         (mkSession (conversation ss)
                    (chat_history ss ++ [mkTurn user_question (r_answer response)])
                    (processed ss)) ;;;
       ss <- get_session ;;
       forM (chat_history ss) (fun message =>
         st (st_chat_message (py "user") (question message)) ;;;
         st (st_chat_message (py "assistant") (answer message)))
   end)%monad.

(** Lines 153-177: the body of [if st.button("Process Documents")]. *)
Definition process_documents (openai_api_key pinecone_api_key : str)
    (pdf_docs : list pdf) : M unit :=
  (if negb (truthy openai_api_key) || negb (truthy pinecone_api_key) then
     st (st_error (py "Please provide both API keys!"))
   else if negb (truthy pdf_docs) then
     st (st_error (py "Please upload at least one PDF!"))
   else
     try_except
       (raw_text <- lift (get_pdf_text pdf_docs) ;;
        text_chunks <- lift (get_text_chunks raw_text) ;;
        st (st_info (py "Created " ++ str_of_int (len text_chunks)
                       ++ py " text chunks")) ;;;
        vectorstore <- get_vectorstore text_chunks openai_api_key pinecone_api_key ;;
        chain <- get_conversation_chain vectorstore openai_api_key ;;
        ss <- get_session ;;
        put_session (mkSession (Some chain) (chat_history ss) (processed ss)) ;;;
        ss <- get_session ;;
        put_session (mkSession (conversation ss) (chat_history ss) true) ;;;
        st (st_success
              (py "Documents processed successfully! You can now ask questions.")))
       (fun e => st (st_error (py "Error processing documents: " ++ str_of_exn e))))%monad.

(** Lines 133-203: one run of the script, given the values of the
    input widgets. *)
Definition main (openai_api_key pinecone_api_key : str) (pdf_docs : list pdf)
    (button : bool) (user_question : option str) : M unit :=
  (st (st_title ([128218%N] ++ py " Chat with PDFs using RAG")) ;;;
   st (st_markdown (py "Upload PDF documents and ask questions about their content!")) ;;;
   st (st_header (py "Configuration")) ;;;
   st (st_header (py "Upload Documents")) ;;;
   (if button then process_documents openai_api_key pinecone_api_key pdf_docs
    else ret tt) ;;;
   ss <- get_session ;;
   (if processed ss then
      st (st_success ([9989%N] ++ py " Documents are ready for chat!"))
    else ret tt) ;;;
   st (st_markdown (py "---")) ;;;
   st (st_markdown (py "### About This App")) ;;;
   st (st_markdown
         ([NL] ++ py "        This app uses:" ++
          [NL] ++ py "        - **OpenAI GPT-3.5** for responses" ++
          [NL] ++ py "        - **Pinecone** for vector storage" ++
          [NL] ++ py "        - **RAG** for context-aware answers" ++
          [NL] ++ py "        - **LangChain** for orchestration" ++
          [NL] ++ py "        ")) ;;;
   st (st_markdown (py "### Ask questions about your documents")) ;;;
   (match user_question with
    | Some q => if truthy q then handle_userinput q else ret tt
    | None => ret tt
    end) ;;;
   ss <- get_session ;;
   if negb (processed ss) then
     st (st_info ([128072%N] ++
                  py " Upload your PDFs and provide API keys in the sidebar to get started!"))
   else ret tt)%monad.

(** *** Outcomes of document processing *)

(** The state in which the vector store is built: the number of
    chunks has been reported on the page. *)
Definition chunks_reported (text_chunks : list str) (s : State) : State :=
  snd (st (st_info (py "Created " ++ str_of_int (len text_chunks)
                      ++ py " text chunks")) s).

(** One of the four stages of the [try] block raises [e]. *)
Inductive stage_raises (openai_api_key pinecone_api_key : str)
    (pdf_docs : list pdf) (s : State) (e : exn) : Prop :=
| extraction_raises :
    get_pdf_text pdf_docs = Raise e ->
    stage_raises openai_api_key pinecone_api_key pdf_docs s e
| chunking_raises raw_text :
    get_pdf_text pdf_docs = Ok raw_text ->
    get_text_chunks raw_text = Raise e ->
    stage_raises openai_api_key pinecone_api_key pdf_docs s e
| vectorstore_raises raw_text text_chunks :
    get_pdf_text pdf_docs = Ok raw_text ->
    get_text_chunks raw_text = Ok text_chunks ->
    fst (get_vectorstore text_chunks openai_api_key pinecone_api_key
           (chunks_reported text_chunks s)) = Raise e ->
    stage_raises openai_api_key pinecone_api_key pdf_docs s e
| chain_raises raw_text text_chunks vectorstore s2 :
    get_pdf_text pdf_docs = Ok raw_text ->
    get_text_chunks raw_text = Ok text_chunks ->
    get_vectorstore text_chunks openai_api_key pinecone_api_key
      (chunks_reported text_chunks s) = (Ok vectorstore, s2) ->
    fst (get_conversation_chain vectorstore openai_api_key s2) = Raise e ->
    stage_raises openai_api_key pinecone_api_key pdf_docs s e.

(** All four stages return, the last one with [chain]. *)
Inductive stages_return (openai_api_key pinecone_api_key : str)
    (pdf_docs : list pdf) (s : State) (chain : Chain) : Prop :=
| all_stages_return raw_text text_chunks vectorstore s2 s3 :
    get_pdf_text pdf_docs = Ok raw_text ->
    get_text_chunks raw_text = Ok text_chunks ->
    get_vectorstore text_chunks openai_api_key pinecone_api_key
      (chunks_reported text_chunks s) = (Ok vectorstore, s2) ->
    get_conversation_chain vectorstore openai_api_key s2 = (Ok chain, s3) ->
    stages_return openai_api_key pinecone_api_key pdf_docs s chain.

End Capabilities.
End App.

(* ================================================================= *)
(** ** test_setup.py: the validation script *)

Module TestSetup.

(** [sys.version_info] *)
Record version_info := mkVersion { major : Z; minor : Z; micro : Z }.

(** A computation that prints and may raise: the lines printed so far
    are threaded through. *)
Definition P (A : Type) : Type := list str -> result A * list str.

Definition pret {A} (a : A) : P A := fun out => (Ok a, out).

Definition praise {A} (e : exn) : P A := fun out => (Raise e, out).

Definition pbind {A B} (m : P A) (k : A -> P B) : P B :=
  fun out =>
    match m out with
    | (Ok a, out') => k a out'
    | (Raise e, out') => (Raise e, out')
    end.

(** [print(line)] *)
Definition print (line : str) : P unit := fun out => (Ok tt, out ++ [line]).

Declare Scope print_scope.
Delimit Scope print_scope with print.
Notation "x <- c ;; k" := (pbind c (fun x => k))
  (at level 61, c at next level, right associativity) : print_scope.
Notation "c ;;; k" := (pbind c (fun _ => k))
  (at level 61, right associativity) : print_scope.

(** [s * n] *)
Definition str_mul (s : str) (n : Z) : str := concat (repeat s (Z.to_nat n)).

(** [isinstance(e, ImportError)]: what [except ImportError] catches,
    the class and every class derived from it. *)
Definition is_ImportError (e : exn) : bool := isinstance e "ImportError".

(** [bool(os.getenv(key))] *)
Definition key_found (value : option str) : bool :=
  match value with
  | Some v => truthy v
  | None => false
  end.

Definition required_packages : list (str * str) :=
  [(py "streamlit", py "Streamlit");
   (py "PyPDF2", py "PyPDF2");
   (py "langchain", py "LangChain");
   (py "langchain_openai", py "LangChain OpenAI");
   (py "langchain_pinecone", py "LangChain Pinecone");
   (py "pinecone", py "Pinecone");
   (py "openai", py "OpenAI");
   (py "tiktoken", py "TikToken");
   (py "dotenv", py "python-dotenv")].

Section Interpreter.

(** The interpreter the script runs in: its version, what importing a
    module does ([None] when the module is imported, the exception
    raised otherwise), what looking a name up in an imported module does
    for [from m import n], and [os.getenv] once [load_dotenv()] has
    run. *)
Variable version : version_info.
Variable __import__ : str -> option exn.
Variable import_name : str -> str -> option exn.
Variable getenv : str -> option str.

Definition check_python_version : P bool :=
  (print ([10003%N] ++ py " Python version: " ++ str_of_int (major version) ++
          py "." ++ str_of_int (minor version) ++
          py "." ++ str_of_int (micro version)) ;;;
   if (major version <? 3) || ((major version =? 3) && (minor version <? 8))
   then print ([10060%N] ++ py " Python 3.8 or higher required") ;;; pret false
   else pret true)%print.

(** One turn of the loop of [check_dependencies]: [except ImportError]
    lets every other exception through. *)
Definition check_package (all_installed : bool) (entry : str * str) : P bool :=
  let '(package, name) := entry in
  match __import__ package with
  | None =>
      (print ([10003%N] ++ py " " ++ name ++ py " installed") ;;;
       pret all_installed)%print
  | Some e =>
      if is_ImportError e
      then (print ([10060%N] ++ py " " ++ name ++ py " NOT installed") ;;;
            pret false)%print
      else praise e
  end.

Fixpoint for_packages (l : list (str * str)) (all_installed : bool) : P bool :=
  match l with
  | [] => pret all_installed
  | entry :: l' =>
      (all_installed <- check_package all_installed entry ;;
       for_packages l' all_installed)%print
  end.

Definition check_dependencies : P bool := for_packages required_packages true.

(** [from module import name] *)
Definition from_import (module name : str) : P unit :=
  match __import__ module with
  | Some e => praise e
  | None =>
      match import_name module name with
      | Some e => praise e
      | None => pret tt
      end
  end.

Definition check_environment : P unit :=
  (from_import (py "dotenv") (py "load_dotenv") ;;;
   let openai_key := getenv (py "OPENAI_API_KEY") in
   let pinecone_key := getenv (py "PINECONE_API_KEY") in
   (if key_found openai_key
    then print ([10003%N] ++ py " OpenAI API key found in environment")
    else print ([9888%N] ++ py " OpenAI API key not found (can be entered in UI)")) ;;;
   (if key_found pinecone_key
    then print ([10003%N] ++ py " Pinecone API key found in environment")
    else print ([9888%N] ++ py " Pinecone API key not found (can be entered in UI)")))%print.

Definition PASSED : str := [9989%N] ++ py " Setup validation PASSED!".
Definition FAILED : str := [10060%N] ++ py " Setup validation FAILED".

Definition main : P unit :=
  (print (str_mul (py "=") 50) ;;;
   print (py "PDF Chat RAG - Setup Validation") ;;;
   print (str_mul (py "=") 50) ;;;
   print [] ;;;
   print (py "Checking Python version...") ;;;
   python_ok <- check_python_version ;;
   print [] ;;;
   print (py "Checking dependencies...") ;;;
   deps_ok <- check_dependencies ;;
   print [] ;;;
   print (py "Checking environment variables...") ;;;
   check_environment ;;;
   print [] ;;;
   print (str_mul (py "=") 50) ;;;
   (if python_ok && deps_ok
    then print PASSED ;;;
         print (py "You're ready to run: streamlit run pdf_chat_app.py")
    else print FAILED ;;;
         print (py "Please install missing dependencies:") ;;;
         print (py "pip install -r requirements.txt")) ;;;
   print (str_mul (py "=") 50))%print.

(** The package is imported. *)
Definition installed (package : str) : bool :=
  match __import__ package with
  | None => true
  | Some _ => false
  end.

(** The line [check_dependencies] prints for a package. *)
Definition report (entry : str * str) : str :=
  if installed (fst entry)
  then [10003%N] ++ py " " ++ snd entry ++ py " installed"
  else [10060%N] ++ py " " ++ snd entry ++ py " NOT installed".

(** No import of a required package raises anything but an
    [ImportError]. *)
Definition imports_fail_cleanly (l : list (str * str)) : Prop :=
  forall entry e,
    In entry l -> __import__ (fst entry) = Some e -> is_ImportError e = true.

(** The interpreter is Python 3.8 or later. *)
Definition python_3_8 : Prop :=
  3 < major version \/ (major version = 3 /\ 8 <= minor version).

(** Every required package is imported. *)
Definition all_installed : Prop :=
  forall entry, In entry required_packages -> __import__ (fst entry) = None.

End Interpreter.

(** A line that is not the verdict of [main]. *)
Definition no_verdict (line : str) : Prop := line <> PASSED /\ line <> FAILED.

(** A sample interpreter: Python 3.11.4 with every package but
    [python-dotenv] and no key in the environment. *)
Definition a_version : version_info := mkVersion 3 11 4.

Definition no_dotenv (package : str) : option exn :=
  if str_eqb package (py "dotenv")
  then Some (Exn "ModuleNotFoundError" ["ImportError"; "Exception"]%string
                 (py "No module named 'dotenv'"))
  else None.

Definition all_imported (package : str) : option exn := None.

Definition broken_import (package : str) : option exn :=
  if str_eqb package (py "langchain")
  then Some (mkExn "SyntaxError" (py "invalid syntax"))
  else None.

Definition every_name (module name : str) : option exn := None.

Definition no_keys (key : str) : option str := None.

End TestSetup.

(* ================================================================= *)
(** ** openai: the request loop of the client behind [ChatOpenAI]

    [ChatOpenAI(openai_api_key=..., model_name=..., temperature=...)] on
    line 93 passes no [max_retries], so the client that sends the model
    requests of the chain keeps the default of the [openai] package.
    The definitions below follow [SyncAPIClient.request],
    [BaseClient._should_retry] and
    [BaseClient._make_status_error_from_response]; the pause between
    two attempts is left out. *)

Module OpenAI.












End OpenAI.



(* ================================================================= *)
(** ** Observations on the call log *)

(** The indexes whose creation was requested, in order. *)
Fixpoint creations (l : list call) : list IndexModel :=
  match l with
  | [] => []
  | create_index ix :: l' => ix :: creations l'
  | _ :: l' => creations l'
  end.

(** The questions for which the chain was run, in order. *)
Fixpoint chain_runs (l : list call) : list str :=
  match l with
  | [] => []
  | chain_call q :: l' => q :: chain_runs l'
  | _ :: l' => chain_runs l'
  end.

(** A computation that leaves [st.session_state] alone. *)
Definition keeps_session {A} (m : M A) : Prop :=
  forall s, session_state (snd (m s)) = session_state s.

(** A computation that, started in a session without a chain, returns
    and leaves the session state and the call log alone. *)
Definition idle_when_not_ready {A} (m : M A) : Prop :=
  forall s,
    conversation (session_state s) = None ->
    (exists a, fst (m s) = Ok a) /\
    session_state (snd (m s)) = session_state s /\
    calls (snd (m s)) = calls s.

(** The Pinecone control plane answers. *)
Definition pinecone_up (fault : call -> State -> option exn) : Prop :=
  forall s,
    fault list_indexes s = None /\
    (forall ix, fault (create_index ix) s = None) /\
    (forall n, fault (time_sleep n) s = None).

(* ================================================================= *)
(** ** Sample sessions *)

Module Sample.

(** A one-page document is a [pdf] that is its own text. *)
Definition PdfReader (pdf : str) : result (list str) := Ok [pdf].
Definition extract_text (page : str) : result str := Ok page.

(** Every call goes through. *)
Definition no_fault : call -> State -> option exn := fun _ _ => None.

Definition timeout : exn := mkExn "APITimeoutError" (py "Request timed out.").

(** The first run of the chain times out, later runs go through. *)
Definition flaky : call -> State -> option exn :=
  fun c s =>
    match c with
    | chain_call _ =>
        match chain_runs (calls s) with
        | [] => Some timeout
        | _ :: _ => None
        end
    | _ => None
    end.

(** The index service is unreachable when texts are uploaded. *)
Definition upload_fails : call -> State -> option exn :=
  fun c _ =>
    match c with
    | from_texts _ _ => Some (mkExn "PineconeException" (py "Service unavailable"))
    | _ => None
    end.

(** The upload of the texts is interrupted from the keyboard. *)
Definition interrupt : exn := Exn "KeyboardInterrupt" ["BaseException"%string] [].

Definition interrupted : call -> State -> option exn :=
  fun c _ =>
    match c with
    | from_texts _ _ => Some interrupt
    | _ => None
    end.

(** The chain answers every question with the same text. *)
Definition run_chain : State -> Chain -> str -> response :=
  fun _ _ _ => mkResponse (py "X is defined on page 1.") [].

Definition a_chain (m : list turn) : Chain :=
  mkChain (py "sk-test") (py "gpt-3.5-turbo")
          (mkVectorStore index_name_const (py "sk-test")) 3
          (py "chat_history") (py "answer") m true.

Definition fresh : State := mkState initial_session [] [] [].

Definition a_turn : turn := mkTurn (py "What is X?") (py "X is defined on page 1.").

(** A session that has ingested documents and answered one question. *)
Definition ready : State :=
  mkState (mkSession (Some (a_chain [a_turn])) [a_turn] true)
          [mkIndex index_name_const 1536 (py "cosine") (py "aws") (py "us-east-1")]
          [] [].

Definition docs : list str := [py "X is a letter. It is defined on page 1."].

(** The chain document processing builds in these sessions. *)
Definition new_chain : Chain :=
  mkChain (py "sk-test") (py "gpt-3.5-turbo")
          (mkVectorStore index_name_const (py "sk-test")) 3
          (py "chat_history") (py "answer") [] true.

End Sample.

(* ================================================================= *)
(** ** Properties of chunks *)

(** [c in text]: [c] is a run of consecutive characters of [text]. *)
Definition infix (c text : str) : Prop := exists p q, text = p ++ c ++ q.

(** [c] neither begins nor ends with a white-space character. *)
Definition no_edge_space (c : str) : Prop :=
  (forall x rest, c = x :: rest -> isspace x = false) /\
  (forall front x, c = front ++ [x] -> isspace x = false).

(** A chunk of [text] as [_join_docs] makes it. *)
Definition chunk_of (text c : str) : Prop := infix c text /\ no_edge_space c.

(** The text the chunks come from when each chunk after the first
    begins with [overlap] characters of the one before it. *)
Definition reassemble (overlap : nat) (chunks : list str) : str :=
  match chunks with
  | [] => []
  | c :: later => c ++ concat (map (skipn overlap) later)
  end.







(** The loop of [_merge_splits] after the pieces [done]: the pieces held
    are the last ones seen and every chunk made is a chunk of the text
    seen. *)
Definition merge_prov (done : list str) (st : list str * list str * Z) : Prop :=
  let '(docs, current_doc, _) := st in
  (exists p, done = p ++ current_doc) /\
  Forall (chunk_of (concat done)) docs.

(** The loop of [_split_text] after the pieces [done] of [text]: the
    small pieces held are the last ones seen and every chunk made is a
    chunk of [text]. *)
Definition split_prov (text : str) (done : list str) (st : list str * list str) : Prop :=
  (exists p, done = p ++ snd st) /\ Forall (chunk_of text) (fst st).

(* ================================================================= *)
(** ** Script runs and what they keep *)

(** The values of the input widgets in one run of the script. *)
Record widgets (pdf : Type) := mkWidgets {
  w_openai_api_key : str;
  w_pinecone_api_key : str;
  w_pdf_docs : list pdf;
  w_button : bool;
  w_chat_input : option str
}.
Arguments mkWidgets {pdf}.
Arguments w_openai_api_key {pdf}.
Arguments w_pinecone_api_key {pdf}.
Arguments w_pdf_docs {pdf}.
Arguments w_button {pdf}.
Arguments w_chat_input {pdf}.

(** Streamlit runs the script once per interaction; the state is kept
    from run to run, also when a run ends in an exception. *)
Fixpoint script_runs {pdf : Type} (run : widgets pdf -> M unit)
    (inputs : list (widgets pdf)) (s : State) : State :=
  match inputs with
  | [] => s
  | w :: inputs' => script_runs run inputs' (snd (run w s))
  end.

(** A computation that keeps a property of the session state. *)
Definition preserves {A} (I : SessionState -> Prop) (m : M A) : Prop :=
  forall s, I (session_state s) -> I (session_state (snd (m s))).

(** A computation whose exceptions all satisfy [P]. *)
Definition raises_only {A} (P : exn -> Prop) (m : M A) : Prop :=
  forall s e, fst (m s) = Raise e -> P e.

(** The ready flag is set exactly when a chain is installed. *)
Definition ready_flag_ok (ss : SessionState) : Prop :=
  processed ss = match conversation ss with Some _ => true | None => false end.

(** The turns the chain remembers are the latest turns shown. *)
Definition memory_is_recent (ss : SessionState) : Prop :=
  forall chain, conversation ss = Some chain ->
                exists older, chat_history ss = older ++ memory chain.

(** The page elements that render the turns of a chat history. *)
Definition rendered (history : list turn) : list element :=
  flat_map (fun message =>
              [st_chat_message (py "user") (question message);
               st_chat_message (py "assistant") (answer message)]) history.

(* ================================================================= *)
(** ** Basic facts *)

Lemma str_eqb_refl (a : str) : str_eqb a a = true.
Proof.
  induction a as [|x a IH]; simpl; [reflexivity|].
  now rewrite N.eqb_refl, IH.
Qed.

Lemma str_eqb_eq (a b : str) : str_eqb a b = true <-> a = b.
Proof.
  split.
  - revert b; induction a as [|x a IH]; intros [|y b]; simpl; try discriminate; auto.
    intros H. apply andb_true_iff in H as [Hx Hab].
    apply N.eqb_eq in Hx. apply IH in Hab. congruence.
  - intros ->. apply str_eqb_refl.
Qed.

Lemma str_in_app (x : str) (l1 l2 : list str) :
  str_in x (l1 ++ l2) = str_in x l1 || str_in x l2.
Proof.
  induction l1 as [|y l1 IH]; simpl; [reflexivity|].
  now rewrite IH, orb_assoc.
Qed.

Lemma creations_app (l1 l2 : list call) :
  creations (l1 ++ l2) = creations l1 ++ creations l2.
Proof.
  induction l1 as [|c l1 IH]; simpl; [reflexivity|].
  destruct c; simpl; now rewrite ?IH.
Qed.


(* ================================================================= *)
(** ** Facts about strings *)

Lemma gtb_false_iff (a b : Z) : (a >? b) = false <-> a <= b.
Proof. rewrite Z.gtb_ltb. apply Z.ltb_ge. Qed.

Lemma gtb_true_iff (a b : Z) : (a >? b) = true <-> b < a.
Proof. rewrite Z.gtb_ltb. apply Z.ltb_lt. Qed.

Lemma len_nonneg {A} (l : list A) : 0 <= len l.
Proof. unfold len. lia. Qed.

Lemma len_app {A} (l1 l2 : list A) : len (l1 ++ l2) = len l1 + len l2.
Proof. unfold len. rewrite length_app. lia. Qed.

Lemma len_cons {A} (x : A) (l : list A) : len (x :: l) = 1 + len l.
Proof. unfold len. simpl length. lia. Qed.

Lemma len_nil {A} : len (@nil A) = 0.
Proof. reflexivity. Qed.

Lemma truthy_len {A} (l : list A) : truthy l = true <-> 1 <= len l.
Proof.
  destruct l; simpl; [rewrite len_nil | rewrite len_cons; pose proof (len_nonneg l)];
    split; intros; try lia; try discriminate; reflexivity.
Qed.

Lemma truthy_false {A} (l : list A) : truthy l = false <-> l = [].
Proof. destruct l; simpl; split; intros; congruence. Qed.

Lemma lstrip_length (s : str) : (length (lstrip s) <= length s)%nat.
Proof.
  induction s as [|c s IH]; simpl; [lia|].
  destruct (isspace c); simpl; lia.
Qed.

Lemma len_strip (s : str) : len (strip s) <= len s.
Proof.
  unfold strip, rstrip, len. rewrite length_rev.
  pose proof (lstrip_length (rev (lstrip s))) as H1.
  rewrite length_rev in H1.
  pose proof (lstrip_length s). lia.
Qed.

Lemma lstrip_id (s : str) :
  Forall (fun c => isspace c = false) s -> lstrip s = s.
Proof. intros H. destruct H as [|c s Hc _]; simpl; [reflexivity|now rewrite Hc]. Qed.

Lemma strip_id (s : str) :
  Forall (fun c => isspace c = false) s -> strip s = s.
Proof.
  intros H. unfold strip, rstrip. rewrite (lstrip_id s H).
  rewrite lstrip_id; [apply rev_involutive|].
  apply Forall_forall. intros c Hc. apply in_rev in Hc.
  revert c Hc. now apply Forall_forall.
Qed.

Lemma Forall_skipn {A} (P : A -> Prop) (n : nat) (l : list A) :
  Forall P l -> Forall P (skipn n l).
Proof.
  intros H. rewrite <- (firstn_skipn n l) in H. now apply Forall_app in H.
Qed.

Lemma join_nil (docs : list str) : join [] docs = concat docs.
Proof.
  induction docs as [|d docs IH]; [reflexivity|].
  destruct docs as [|d' docs]; [simpl; now rewrite app_nil_r|].
  change (join [] (d :: d' :: docs)) with (d ++ [] ++ join [] (d' :: docs)).
  rewrite IH. reflexivity.
Qed.

(** [re.split] with one capturing group returns an odd number of items:
    texts and separators alternate, beginning and ending with a text. *)
Lemma re_split_group_odd (sep text : str) (skip : nat) :
  Nat.odd (length (TextSplitter.re_split true sep text skip)) = true.
Proof.
  revert skip. induction text as [|c text IH]; intros skip; [reflexivity|].
  cbn [TextSplitter.re_split]. destruct skip as [|k]; [|apply IH].
  destruct (startswith sep (c :: text)).
  - cbn [app length]. rewrite Nat.odd_succ_succ. apply IH.
  - specialize (IH 0%nat).
    destruct (TextSplitter.re_split true sep text 0) as [|piece pieces];
      [discriminate IH|exact IH].
Qed.

Lemma foldM_app {S A} (body : S -> A -> result S) (l1 l2 : list A) (s : S) :
  foldM body (l1 ++ l2) s = rbind (foldM body l1 s) (foldM body l2).
Proof.
  revert s. induction l1 as [|a l1 IH]; intros s; simpl; [reflexivity|].
  destruct (body s a); simpl; [apply IH|reflexivity].
Qed.

(* ================================================================= *)
(** ** Facts about the splitter *)

Section SplitterFacts.

Variable self : TextSplitter.t.
Hypothesis overlap_nonneg : 0 <= TextSplitter._chunk_overlap self.

Local Abbreviation chunk_size := (TextSplitter._chunk_size self).
Local Abbreviation chunk_overlap := (TextSplitter._chunk_overlap self).

Lemma sep_if_0 (b : bool) : TextSplitter.sep_if b 0 = 0.
Proof. now destruct b. Qed.

Lemma pop_front_eq (separator_len _len : Z) (current_doc : list str) (total : Z) :
  TextSplitter.pop_front self separator_len _len current_doc total =
  if (total >? chunk_overlap) ||
     ((total + _len + TextSplitter.sep_if (0 <? len current_doc) separator_len
         >? chunk_size) && (total >? 0))
  then
    match current_doc with
    | [] => Raise IndexError
    | d0 :: rest =>
        TextSplitter.pop_front self separator_len _len rest
          (total - (len d0 + TextSplitter.sep_if (1 <? len current_doc) separator_len))
    end
  else Ok (current_doc, total).
Proof. destruct current_doc; reflexivity. Qed.

(** Without a joining separator, [total] is the length of the pieces
    held, and popping stops with a suffix of them that is within the
    overlap and leaves room for the next piece. *)
Lemma pop_front_spec (_len : Z) (current_doc : list str) :
  Forall (fun d => 1 <= len d) current_doc ->
  exists dropped kept,
    current_doc = dropped ++ kept /\
    TextSplitter.pop_front self 0 _len current_doc (len (concat current_doc)) =
      Ok (kept, len (concat kept)) /\
    len (concat kept) <= chunk_overlap /\
    (len (concat kept) + _len <= chunk_size \/ kept = []).
Proof.
  induction current_doc as [|d0 rest IH]; intros Hne.
  - exists [], []. rewrite pop_front_eq. simpl concat. rewrite len_nil.
    replace (0 >? chunk_overlap) with false by (symmetry; apply gtb_false_iff; lia).
    rewrite andb_false_r. simpl. repeat split; auto; lia.
  - inversion Hne as [|? ? Hd0 Hrest]; subst.
    rewrite pop_front_eq. rewrite !sep_if_0.
    simpl concat. rewrite len_app.
    pose proof (len_nonneg (concat rest)) as Hnn.
    destruct ((len d0 + len (concat rest) >? chunk_overlap) ||
              ((len d0 + len (concat rest) + _len + 0 >? chunk_size) &&
               (len d0 + len (concat rest) >? 0))) eqn:Hcond.
    + destruct (IH Hrest) as (dropped & kept & -> & Hpop & Hov & Hroom).
      exists (d0 :: dropped), kept.
      replace (len d0 + len (concat (dropped ++ kept)) - (len d0 + 0))
        with (len (concat (dropped ++ kept))) by lia.
      repeat split; auto.
    + exists [], (d0 :: rest). simpl concat. rewrite len_app.
      apply orb_false_iff in Hcond as [Hov Hfit].
      apply gtb_false_iff in Hov.
      apply andb_false_iff in Hfit as [Hfit|Hpos].
      * apply gtb_false_iff in Hfit. repeat split; auto; lia.
      * apply gtb_false_iff in Hpos. lia.
Qed.

Lemma join_docs_ok (current_doc : list str) (doc : str) :
  len (concat current_doc) <= chunk_size ->
  TextSplitter._join_docs self current_doc [] = Some doc -> (chunk_ok self) doc.
Proof.
  unfold TextSplitter._join_docs. rewrite join_nil. intros Hle.
  destruct (truthy _) eqn:Ht; [|discriminate]. intros [= <-].
  apply truthy_len in Ht. split; [exact Ht|].
  destruct (TextSplitter._strip_whitespace self); [|exact Hle].
  pose proof (len_strip (concat current_doc)). lia.
Qed.

Lemma emit_ok (docs current_doc : list str) :
  Forall (chunk_ok self) docs -> len (concat current_doc) <= chunk_size ->
  Forall (chunk_ok self)
    match TextSplitter._join_docs self current_doc [] with
    | Some doc => docs ++ [doc]
    | None => docs
    end.
Proof.
  intros Hdocs Hle.
  destruct (TextSplitter._join_docs self current_doc []) as [doc|] eqn:Hj; [|exact Hdocs].
  apply Forall_app. split; [exact Hdocs|].
  constructor; [|constructor]. eapply join_docs_ok; eauto.
Qed.

Lemma concat_snoc (l : list str) (d : str) : concat (l ++ [d]) = concat l ++ d.
Proof. rewrite concat_app. simpl. now rewrite app_nil_r. Qed.

Lemma merge_step_inv (st : list str * list str * Z) (d : str) :
  (merge_inv self) st -> (piece_ok self) d ->
  exists st', TextSplitter.merge_step self [] st d = Ok st' /\ (merge_inv self) st'.
Proof.
  destruct st as [[docs current_doc] total]. intros (Htot & Hne & Hle & Hdocs) [Hd1 Hd2].
  unfold TextSplitter.merge_step. cbv zeta. change (len (@nil char)) with 0.
  rewrite !sep_if_0. subst total.
  destruct (len (concat current_doc) + len d + 0 >? chunk_size) eqn:Hfull.
  - apply gtb_true_iff in Hfull.
    destruct (0 <? len current_doc) eqn:Hcur.
    + destruct (pop_front_spec (len d) current_doc Hne)
        as (dropped & kept & Hsplit & Hpop & Hov & Hroom).
      rewrite Hpop. cbn [rbind]. eexists. split; [reflexivity|].
      assert (Hkept : Forall (fun d => 1 <= len d) kept).
      { rewrite Hsplit in Hne. now apply Forall_app in Hne. }
      unfold merge_inv. rewrite concat_snoc, !sep_if_0, (len_app (concat kept) d).
      repeat split.
      * lia.
      * apply Forall_app. split; [exact Hkept|]. now repeat constructor.
      * destruct Hroom as [Hroom| ->]; [lia|]. simpl concat. rewrite len_nil. lia.
      * now apply emit_ok.
    + apply Z.ltb_ge in Hcur.
      assert (current_doc = []) as ->.
      { destruct current_doc; [reflexivity|]. rewrite len_cons in Hcur.
        pose proof (len_nonneg current_doc). lia. }
      simpl concat in *. rewrite len_nil in *. lia.
  - apply gtb_false_iff in Hfull.
    cbn [rbind]. eexists. split; [reflexivity|].
    unfold merge_inv. rewrite concat_snoc, !sep_if_0, (len_app (concat current_doc) d).
    repeat split; auto; try lia.
    apply Forall_app. split; [exact Hne|]. now repeat constructor.
Qed.

Lemma merge_loop_inv (splits : list str) (st : list str * list str * Z) :
  (merge_inv self) st -> Forall (piece_ok self) splits ->
  exists st', foldM (TextSplitter.merge_step self []) splits st = Ok st' /\ (merge_inv self) st'.
Proof.
  revert st. induction splits as [|d splits IH]; intros st Hinv Hall.
  - exists st. now split.
  - inversion Hall as [|? ? Hd Hrest]; subst.
    destruct (merge_step_inv st d Hinv Hd) as (st1 & Hstep & Hinv1).
    simpl. rewrite Hstep. cbn [rbind]. now apply IH.
Qed.

(** [_merge_splits] returns, and every chunk it makes is non-empty and
    within the chunk size. *)
Lemma merge_splits_ok (splits : list str) :
  0 <= chunk_size -> Forall (piece_ok self) splits ->
  exists docs,
    TextSplitter._merge_splits self splits [] = Ok docs /\ Forall (chunk_ok self) docs.
Proof.
  intros Hsize Hall.
  destruct (merge_loop_inv splits ([], [], 0)) as ([[docs cur] total] & Hrun & Hinv).
  { unfold merge_inv. repeat split; auto. }
  { exact Hall. }
  unfold TextSplitter._merge_splits. rewrite Hrun. cbn [rbind].
  destruct Hinv as (Htot & Hne & Hle & Hdocs). subst total.
  pose proof (emit_ok docs cur Hdocs Hle) as Hemit.
  destruct (TextSplitter._join_docs self cur []); eexists; split; eauto.
Qed.

(** *** The recursive splitter returns chunks within the size limit *)

Lemma split_text_with_regex_nonempty (text separator : str) (keep : bool) :
  Forall (fun p => 1 <= len p)
         (TextSplitter._split_text_with_regex text separator keep).
Proof.
  unfold TextSplitter._split_text_with_regex.
  apply Forall_forall. intros p Hp. apply filter_In in Hp as [_ Hp].
  now apply truthy_len.
Qed.

Lemma split_loop_ok (recurse : str -> result (list str))
    (new_separators splits : list str) (st : list str * list str) :
  0 <= chunk_size ->
  Forall (fun p => 1 <= len p) splits ->
  (truthy new_separators = true -> forall s, (returns_chunks self) (recurse s)) ->
  (truthy new_separators = false -> Forall (fun p => len p < chunk_size) splits) ->
  Forall (chunk_ok self) (fst st) -> Forall (piece_ok self) (snd st) ->
  exists st',
    foldM (TextSplitter.split_step self recurse new_separators []) splits st = Ok st' /\
    Forall (chunk_ok self) (fst st') /\ Forall (piece_ok self) (snd st').
Proof.
  intros Hsize Hne Hrec Hleaf. revert st Hne Hleaf.
  induction splits as [|p splits IH]; intros [final good] Hne Hleaf Hfinal Hgood.
  - eexists. split; [reflexivity|]. now split.
  - inversion Hne as [|? ? Hp Hne']; subst.
    assert (Hleaf' : truthy new_separators = false ->
                     Forall (fun p => len p < chunk_size) splits).
    { intros Hns. specialize (Hleaf Hns). now inversion Hleaf. }
    cbn [foldM]. unfold TextSplitter.split_step at 1.
    destruct (len p <? chunk_size) eqn:Hsmall.
    + cbn [rbind]. apply IH; auto. cbn [snd].
      apply Forall_app. split; [exact Hgood|].
      apply Z.ltb_lt in Hsmall. repeat constructor; [exact Hp|lia].
    + apply Z.ltb_ge in Hsmall.
      assert (Hflush : exists final',
                 (if truthy good then
                    rbind (TextSplitter._merge_splits self good [])
                          (fun merged_text => Ok (final ++ merged_text, []))
                  else Ok (final, good)) = Ok (final', []) /\
                 Forall (chunk_ok self) final').
      { destruct good as [|g good]; [exists final; now split|]. cbn [truthy].
        destruct (merge_splits_ok (g :: good) Hsize Hgood) as (docs & -> & Hdocs).
        cbn [rbind]. eexists. split; [reflexivity|]. now apply Forall_app. }
      destruct Hflush as (final' & -> & Hfinal'). cbn [rbind].
      destruct (truthy new_separators) eqn:Hns; cbn [negb].
      * destruct (Hrec eq_refl p) as (other & -> & Hother). cbn [rbind].
        apply IH; auto. cbn [fst]. now apply Forall_app.
      * specialize (Hleaf eq_refl). inversion Hleaf; subst. lia.
Qed.

Lemma split_pieces_ok (recurse : str -> result (list str))
    (new_separators splits : list str) :
  0 <= chunk_size ->
  Forall (fun p => 1 <= len p) splits ->
  (truthy new_separators = true -> forall s, (returns_chunks self) (recurse s)) ->
  (truthy new_separators = false -> Forall (fun p => len p < chunk_size) splits) ->
  (returns_chunks self) (TextSplitter.split_pieces self recurse new_separators [] splits).
Proof.
  intros Hsize Hne Hrec Hleaf.
  destruct (split_loop_ok recurse new_separators splits ([], []) Hsize Hne Hrec Hleaf)
    as ([final good] & Hrun & Hfinal & Hgood); [constructor|constructor|].
  unfold TextSplitter.split_pieces. rewrite Hrun. cbn [rbind fst snd] in *.
  destruct good as [|g good]; cbn [truthy]; [now exists final|].
  destruct (merge_splits_ok (g :: good) Hsize Hgood) as (docs & -> & Hdocs).
  cbn [rbind]. eexists. split; [reflexivity|]. now apply Forall_app.
Qed.

Hypothesis keeps_separator : TextSplitter._keep_separator self = true.
Hypothesis room_for_a_character : 1 < chunk_size.

Lemma split_with_leaf_ok (recurse : str -> result (list str)) (text : str) :
  (returns_chunks self) (TextSplitter.split_with self recurse [] [] text).
Proof.
  unfold TextSplitter.split_with. rewrite keeps_separator.
  apply split_pieces_ok; try lia.
  - apply split_text_with_regex_nonempty.
  - discriminate.
  - intros _. unfold TextSplitter._split_text_with_regex. cbn [truthy].
    apply Forall_forall. intros p Hp. apply filter_In in Hp as [Hp _].
    unfold chars in Hp. apply in_map_iff in Hp as (c & <- & _).
    rewrite len_cons, len_nil. lia.
Qed.

Lemma split_with_ok (recurse : str -> result (list str))
    (separator : str) (new_separators : list str) (text : str) :
  truthy new_separators = true ->
  (forall s, (returns_chunks self) (recurse s)) ->
  (returns_chunks self) (TextSplitter.split_with self recurse separator new_separators text).
Proof.
  intros Hns Hrec. unfold TextSplitter.split_with. rewrite keeps_separator.
  apply split_pieces_ok; try lia.
  - apply split_text_with_regex_nonempty.
  - intros _. exact Hrec.
  - rewrite Hns. discriminate.
Qed.

Lemma split_from_ok (recurse : list str -> str -> result (list str))
    (separators l : list str) (text : str) :
  In [] l ->
  (forall rest s, (length rest < length l)%nat -> In [] rest ->
                  (returns_chunks self) (recurse rest s)) ->
  (returns_chunks self) (TextSplitter.split_from self recurse separators l text).
Proof.
  induction l as [|_s rest IH]; intros Hin Hrec; [destruct Hin|].
  cbn [TextSplitter.split_from].
  destruct _s as [|c _s]; cbn [truthy negb]; [apply split_with_leaf_ok|].
  destruct Hin as [Habs|Hin]; [discriminate|].
  destruct (TextSplitter.re_search (c :: _s) text).
  - apply split_with_ok.
    + destruct rest; [destruct Hin|reflexivity].
    + intros s. apply Hrec; [cbn [length]; apply Nat.lt_succ_diag_r|exact Hin].
  - apply IH; [exact Hin|].
    intros rest' s Hlt Hin'. apply Hrec; [cbn [length]; now apply Nat.lt_lt_succ_r|exact Hin'].
Qed.

Lemma _split_text_eq (separators : list str) (text : str) :
  TextSplitter._split_text self separators text =
  TextSplitter.split_from self (TextSplitter._split_text self) separators separators text.
Proof. destruct separators; reflexivity. Qed.

(** With the empty separator among the separators, [_split_text]
    returns for every text, and every chunk is non-empty and within the
    chunk size. *)
Lemma _split_text_ok (separators : list str) (text : str) :
  In [] separators ->
  (returns_chunks self) (TextSplitter._split_text self separators text).
Proof.
  remember (length separators) as n eqn:Hn.
  revert separators text Hn.
  induction n as [n IHn] using (well_founded_induction Wf_nat.lt_wf).
  intros separators text -> Hin.
  rewrite _split_text_eq. apply split_from_ok; [exact Hin|].
  intros rest s Hlt Hin'. eapply IHn; eauto.
Qed.

End SplitterFacts.

(* ================================================================= *)
(** ** Merging one-character pieces *)

Lemma concat_chars (w : str) : concat (chars w) = w.
Proof. induction w as [|c w IH]; simpl; [reflexivity|now rewrite IH]. Qed.

Lemma len_chars (w : str) : len (chars w) = len w.
Proof. unfold len, chars. now rewrite length_map. Qed.

Lemma chars_app (w1 w2 : str) : chars (w1 ++ w2) = chars w1 ++ chars w2.
Proof. apply map_app. Qed.

Lemma filter_truthy_chars (w : str) : filter truthy (chars w) = chars w.
Proof. induction w as [|c w IH]; simpl; [reflexivity|now rewrite IH]. Qed.

Section CharacterPieces.

Variable self : TextSplitter.t.
Hypothesis overlap_nonneg : 0 <= TextSplitter._chunk_overlap self.
Hypothesis overlap_room : TextSplitter._chunk_overlap self < TextSplitter._chunk_size self.

Local Abbreviation chunk_size := (TextSplitter._chunk_size self).
Local Abbreviation chunk_overlap := (TextSplitter._chunk_overlap self).

Lemma len_carried (w : str) :
  chunk_overlap <= len w -> len ((carried self) w) = chunk_overlap.
Proof. unfold carried, len. rewrite length_skipn. lia. Qed.

Lemma join_docs_chars (w : str) :
  w <> [] -> Forall (fun c => isspace c = false) w ->
  TextSplitter._join_docs self (chars w) [] = Some w.
Proof.
  intros Hne Hns. unfold TextSplitter._join_docs.
  rewrite join_nil, concat_chars.
  destruct (TextSplitter._strip_whitespace self); rewrite ?(strip_id w Hns);
    destruct w; [contradiction|reflexivity|contradiction|reflexivity].
Qed.

(** Characters are appended while the chunk has room. *)
Lemma merge_fill (docs : list str) (l w : str) :
  len w + len l <= chunk_size ->
  foldM (TextSplitter.merge_step self []) (chars l) (docs, chars w, len w) =
  Ok (docs, chars (w ++ l), len (w ++ l)).
Proof.
  revert w. induction l as [|c l IH]; intros w Hroom.
  - now rewrite app_nil_r.
  - rewrite len_cons in Hroom. pose proof (len_nonneg l).
    change (chars (c :: l)) with ([c] :: chars l). cbn [foldM].
    unfold TextSplitter.merge_step at 1. cbv zeta.
    change (len (@nil char)) with 0. rewrite !sep_if_0.
    replace (len w + len [c] + 0 >? chunk_size) with false
      by (symmetry; apply gtb_false_iff; rewrite len_cons, len_nil; lia).
    cbn [rbind]. rewrite ?sep_if_0.
    change [[c]] with (chars [c]). rewrite <- (chars_app w [c]).
    replace (len w + (len [c] + 0)) with (len (w ++ [c]))
      by (rewrite len_app; lia).
    rewrite IH.
    + now rewrite <- app_assoc.
    + rewrite len_app, len_cons, len_nil. lia.
Qed.

(** Emitting a chunk of characters keeps its last [chunk_overlap]
    characters. *)
Lemma pop_front_chars (w : str) :
  TextSplitter.pop_front self 0 1 (chars w) (len w) =
  Ok (chars ((carried self) w), len ((carried self) w)).
Proof.
  unfold carried. induction w as [|c w IH].
  - rewrite pop_front_eq. cbn [chars map length Nat.sub skipn]. rewrite len_nil.
    replace (0 >? chunk_overlap) with false by (symmetry; apply gtb_false_iff; lia).
    now rewrite andb_false_r.
  - rewrite pop_front_eq. rewrite !sep_if_0. rewrite len_cons.
    pose proof (len_nonneg w) as Hnn.
    destruct (1 + len w >? chunk_overlap) eqn:Hover.
    + apply gtb_true_iff in Hover. cbn [orb chars map].
      replace (1 + len w - (len [c] + 0)) with (len w)
        by (rewrite len_cons, len_nil; lia).
      fold (chars w). rewrite IH.
      replace (length (c :: w) - Z.to_nat chunk_overlap)%nat
        with (S (length w - Z.to_nat chunk_overlap))
        by (unfold len in Hover; cbn [length]; lia).
      reflexivity.
    + apply gtb_false_iff in Hover.
      replace (1 + len w + 1 + 0 >? chunk_size) with false
        by (symmetry; apply gtb_false_iff; lia).
      cbn [orb andb].
      replace (length (c :: w) - Z.to_nat chunk_overlap)%nat with 0%nat
        by (unfold len in Hover; cbn [length]; lia).
      cbn [skipn]. now rewrite len_cons.
Qed.

(** A character that does not fit closes the chunk [w] and starts the
    next one with the characters carried over. *)
Lemma merge_cut (docs : list str) (w : str) (c : char) :
  len w = chunk_size -> Forall (fun c => isspace c = false) w ->
  TextSplitter.merge_step self [] (docs, chars w, len w) [c] =
  Ok (docs ++ [w], chars ((carried self) w ++ [c]), len ((carried self) w ++ [c])).
Proof.
  intros Hfull Hns.
  assert (Hne : w <> []) by (intros ->; rewrite len_nil in Hfull; lia).
  unfold TextSplitter.merge_step. cbv zeta.
  change (len (@nil char)) with 0. rewrite !sep_if_0.
  replace (len w + len [c] + 0 >? chunk_size) with true
    by (symmetry; apply gtb_true_iff; rewrite len_cons, len_nil; lia).
  replace (0 <? len (chars w)) with true
    by (symmetry; apply Z.ltb_lt; rewrite len_chars; lia).
  rewrite (join_docs_chars w Hne Hns).
  change (len [c]) with 1. rewrite pop_front_chars. cbn [rbind].
  rewrite ?sep_if_0, chars_app, len_app. reflexivity.
Qed.

(** After a full chunk [w], up to [chunk_size - chunk_overlap] further
    characters make the next chunk together with the carried ones. *)
Lemma merge_cut_fill (docs : list str) (w l : str) :
  len w = chunk_size -> Forall (fun c => isspace c = false) w ->
  1 <= len l <= chunk_size - chunk_overlap ->
  foldM (TextSplitter.merge_step self []) (chars l) (docs, chars w, len w) =
  Ok (docs ++ [w], chars ((carried self) w ++ l), len ((carried self) w ++ l)).
Proof.
  intros Hfull Hns [Hl1 Hl2].
  destruct l as [|c l]; [rewrite len_nil in Hl1; lia|].
  rewrite len_cons in Hl2.
  change (chars (c :: l)) with ([c] :: chars l). cbn [foldM].
  rewrite (merge_cut docs w c Hfull Hns). cbn [rbind].
  rewrite merge_fill.
  - now rewrite <- app_assoc.
  - rewrite len_app, len_carried, len_cons, len_nil; lia.
Qed.

(** After a full chunk [w], the characters [r] that follow are cut into
    chunks that each begin with the characters carried over from the one
    before; [cur] is the chunk still being filled at the end. *)
Lemma merge_from_full (n : nat) :
  forall (r w : str) (docs : list str),
    (length r <= n)%nat ->
    len w = chunk_size ->
    Forall (fun c => isspace c = false) w ->
    Forall (fun c => isspace c = false) r ->
    r <> [] ->
    exists done cur,
      foldM (TextSplitter.merge_step self []) (chars r) (docs, chars w, len w) =
        Ok (docs ++ w :: done, chars cur, len cur) /\
      cur <> [] /\
      Forall (fun c => isspace c = false) cur /\
      linked self (w :: done ++ [cur]).
Proof.
  induction n as [|n IH]; intros r w docs Hn Hfull Hw Hr Hne.
  - destruct r; [contradiction|cbn [length] in Hn; lia].
  - set (k := Z.to_nat (chunk_size - chunk_overlap)).
    assert (Hk : (1 <= k)%nat) by (subst k; lia).
    assert (Hcw : len (carried self w) = chunk_overlap)
      by (apply len_carried; lia).
    assert (Hnsc : Forall (fun c => isspace c = false) (carried self w))
      by (unfold carried; now apply Forall_skipn).
    destruct (Nat.le_gt_cases (length r) k) as [Hshort|Hlong].
    + exists [], (carried self w ++ r).
      rewrite (merge_cut_fill docs w r Hfull Hw).
      * repeat split.
        -- intros Hnil. apply app_eq_nil in Hnil as [_ Hnil]. contradiction.
        -- now apply Forall_app.
        -- cbn [app]. apply linked_cons; [exact Hfull| |apply linked_one].
           now exists r.
      * destruct r; [contradiction|]. unfold len in *. cbn [length] in *. lia.
    + set (r1 := firstn k r). set (r2 := skipn k r).
      assert (Hr12 : r = r1 ++ r2) by (symmetry; apply firstn_skipn).
      assert (Hl1 : length r1 = k) by (subst r1; rewrite length_firstn; lia).
      assert (Hl2 : (length r2 <= n)%nat) by (subst r2; rewrite length_skipn; lia).
      assert (Hne2 : r2 <> []).
      { intros Hnil. apply (f_equal (@length char)) in Hnil.
        subst r2. rewrite length_skipn in Hnil. cbn [length] in Hnil. lia. }
      assert (Hns1 : Forall (fun c => isspace c = false) r1)
        by (rewrite Hr12 in Hr; now apply Forall_app in Hr).
      assert (Hns2 : Forall (fun c => isspace c = false) r2)
        by (rewrite Hr12 in Hr; now apply Forall_app in Hr).
      assert (Hne1 : r1 <> []).
      { intros Hnil. rewrite Hnil in Hl1. cbn [length] in Hl1. lia. }
      set (w' := carried self w ++ r1).
      assert (Hfull' : len w' = chunk_size).
      { subst w'. rewrite len_app, Hcw. unfold len. rewrite Hl1. subst k. lia. }
      assert (Hw' : Forall (fun c => isspace c = false) w')
        by (subst w'; now apply Forall_app).
      destruct (IH r2 w' (docs ++ [w]) Hl2 Hfull' Hw' Hns2 Hne2)
        as (done & cur & Hrun & Hcur & Hnscur & Hlinked).
      exists (w' :: done), cur.
      rewrite Hr12, chars_app, foldM_app.
      rewrite (merge_cut_fill docs w r1 Hfull Hw)
        by (unfold len; rewrite Hl1; subst k; lia).
      cbn [rbind]. fold w'. rewrite Hrun. rewrite <- app_assoc. cbn [app].
      repeat split; auto.
      apply linked_cons; [exact Hfull| |exact Hlinked].
      now exists r1.
Qed.

(** The chunks of a text without white space: each one after the first
    begins with the characters carried over from the one before. *)
Lemma merge_chars_linked (text : str) :
  Forall (fun c => isspace c = false) text ->
  exists chunks,
    TextSplitter._merge_splits self (chars text) [] = Ok chunks /\
    linked self chunks.
Proof.
  intros Hns. unfold TextSplitter._merge_splits.
  change (@nil str, @nil str, 0) with (@nil str, chars [], len (@nil char)).
  set (k := Z.to_nat chunk_size).
  destruct (Nat.le_gt_cases (length text) k) as [Hshort|Hlong].
  - rewrite merge_fill by (unfold len; cbn [length]; lia).
    cbn [rbind app]. destruct text as [|c text].
    + exists []. split; [|constructor].
      unfold TextSplitter._join_docs. cbn.
      now destruct (TextSplitter._strip_whitespace self).
    + rewrite join_docs_chars by (auto; discriminate).
      eexists. split; [reflexivity|]. apply linked_one.
  - set (t1 := firstn k text). set (r := skipn k text).
    assert (Htext : text = t1 ++ r) by (symmetry; apply firstn_skipn).
    assert (Hl1 : length t1 = k) by (subst t1; rewrite length_firstn; lia).
    assert (Hne : r <> []).
    { intros Hnil. apply (f_equal (@length char)) in Hnil.
      subst r. rewrite length_skipn in Hnil. cbn [length] in Hnil. lia. }
    assert (Hns1 : Forall (fun c => isspace c = false) t1)
      by (rewrite Htext in Hns; now apply Forall_app in Hns).
    assert (Hnsr : Forall (fun c => isspace c = false) r)
      by (rewrite Htext in Hns; now apply Forall_app in Hns).
    assert (Hfull : len t1 = chunk_size) by (unfold len; rewrite Hl1; subst k; lia).
    destruct (merge_from_full (length r) r t1 [] (le_n _) Hfull Hns1 Hnsr Hne)
      as (done & cur & Hrun & Hcur & Hnscur & Hlinked).
    rewrite Htext, chars_app, foldM_app.
    rewrite merge_fill by (unfold len in *; cbn [length]; lia).
    cbn [rbind app]. rewrite Hrun. cbn [rbind app].
    rewrite (join_docs_chars cur Hcur Hnscur).
    eexists. split; [reflexivity|exact Hlinked].
Qed.

Lemma linked_nth (chunks : list str) :
  linked self chunks ->
  forall i c1 c2,
    nth_error chunks i = Some c1 -> nth_error chunks (S i) = Some c2 ->
    len c1 = chunk_size /\ exists q, q <> [] /\ c2 = carried self c1 ++ q.
Proof.
  induction 1 as [|c|c1' c2' rest Hfull Hq Hlinked IH]; intros i c1 c2 H1 H2.
  - destruct i; discriminate.
  - destruct i as [|[|i]]; discriminate.
  - destruct i as [|i].
    + cbn in H1, H2. inversion H1; inversion H2; subst. now split.
    + cbn [nth_error] in H1, H2. now apply (IH i).
Qed.

End CharacterPieces.

(* ================================================================= *)
(** ** The loop over the pieces *)

Lemma foldM_ext {S A} (f g : S -> A -> result S) (l : list A) (s : S) :
  (forall s a, f s a = g s a) -> foldM f l s = foldM g l s.
Proof.
  intros Hfg. revert s. induction l as [|a l IH]; intros s; simpl; [reflexivity|].
  rewrite Hfg. destruct (g s a); simpl; auto.
Qed.

Section Pieces.

Variable self : TextSplitter.t.
Variable recurse : str -> result (list str).
Variables (new_separators : list str) (_separator : str).

Local Abbreviation chunk_size := (TextSplitter._chunk_size self).
Local Abbreviation split_step :=
  (TextSplitter.split_step self recurse new_separators _separator).
Local Abbreviation split_pieces :=
  (TextSplitter.split_pieces self recurse new_separators _separator).
Local Abbreviation merge_splits :=
  (fun splits => TextSplitter._merge_splits self splits _separator).

Lemma merge_splits_nil : merge_splits [] = Ok [].
Proof.
  unfold TextSplitter._merge_splits, TextSplitter._join_docs. cbn.
  now destruct (TextSplitter._strip_whitespace self).
Qed.

(** Pieces below the chunk size are collected in [_good_splits]. *)
Lemma split_loop_small (splits final good : list str) :
  Forall (fun p => len p < chunk_size) splits ->
  foldM split_step splits (final, good) = Ok (final, good ++ splits).
Proof.
  revert good. induction splits as [|p splits IH]; intros good Hall.
  - now rewrite app_nil_r.
  - inversion Hall as [|? ? Hp Hrest]; subst.
    cbn [foldM]. unfold TextSplitter.split_step at 1.
    replace (len p <? chunk_size) with true by (symmetry; now apply Z.ltb_lt).
    cbn [rbind]. rewrite IH by assumption. now rewrite <- app_assoc.
Qed.

(** When every piece is below the chunk size the pieces are merged and
    nothing else happens. *)
Lemma split_pieces_small (splits : list str) :
  Forall (fun p => len p < chunk_size) splits ->
  split_pieces splits = merge_splits splits.
Proof.
  intros Hall. unfold TextSplitter.split_pieces.
  rewrite split_loop_small by assumption. cbn [rbind app].
  destruct splits as [|p splits]; cbn [truthy]; [now rewrite merge_splits_nil|].
  destruct (TextSplitter._merge_splits self (p :: splits) _separator); reflexivity.
Qed.

(** The chunks already made are only ever added to. *)
Lemma split_loop_prefix (splits final good : list str) :
  foldM split_step splits (final, good) =
  rbind (foldM split_step splits ([], good))
        (fun st => Ok (final ++ fst st, snd st)).
Proof.
  revert final good. induction splits as [|p splits IH]; intros final good.
  - cbn. now rewrite app_nil_r.
  - cbn [foldM]. unfold TextSplitter.split_step at 1 3.
    destruct (len p <? chunk_size).
    + cbn [rbind]. apply IH.
    + destruct (truthy good).
      * destruct (TextSplitter._merge_splits self good _separator) as [merged|e];
          cbn [rbind]; [|reflexivity].
        destruct (negb (truthy new_separators)); cbn [rbind app].
        -- rewrite (IH ((final ++ merged) ++ [p])), (IH (merged ++ [p])).
           destruct (foldM _ splits ([], [])) as [[f g]|e]; cbn [rbind fst snd];
             [|reflexivity].
           now rewrite !app_assoc.
        -- destruct (recurse p) as [other|e]; cbn [rbind]; [|reflexivity].
           rewrite (IH ((final ++ merged) ++ other)), (IH (merged ++ other)).
           destruct (foldM _ splits ([], [])) as [[f g]|e]; cbn [rbind fst snd];
             [|reflexivity].
           now rewrite !app_assoc.
      * cbn [rbind].
        destruct (negb (truthy new_separators)); cbn [rbind app].
        -- rewrite (IH (final ++ [p])), (IH [p]).
           destruct (foldM _ splits ([], good)) as [[f g]|e]; cbn [rbind fst snd];
             [|reflexivity].
           now rewrite !app_assoc.
        -- destruct (recurse p) as [other|e]; cbn [rbind]; [|reflexivity].
           rewrite (IH (final ++ other)), (IH other).
           destruct (foldM _ splits ([], good)) as [[f g]|e]; cbn [rbind fst snd];
             [|reflexivity].
           now rewrite !app_assoc.
Qed.

(** A piece that is not below the chunk size closes the run of small
    pieces before it: these are merged, the piece is handed on, and the
    pieces after it are treated on their own. *)
Lemma split_pieces_oversize (small rest : list str) (big : str) :
  Forall (fun p => len p < chunk_size) small ->
  chunk_size <= len big ->
  split_pieces (small ++ big :: rest) =
  rbind (merge_splits small) (fun merged =>
  rbind ((oversize recurse new_separators) big) (fun other =>
  rbind (split_pieces rest) (fun later =>
  Ok (merged ++ other ++ later)))).
Proof.
  intros Hsmall Hbig. unfold TextSplitter.split_pieces at 1.
  rewrite foldM_app, split_loop_small by assumption. cbn [rbind app foldM].
  unfold TextSplitter.split_step at 1.
  replace (len big <? chunk_size) with false by (symmetry; now apply Z.ltb_ge).
  assert (Hflush :
    (if truthy small then
       rbind (TextSplitter._merge_splits self small _separator)
             (fun merged_text => Ok ([] ++ merged_text, @nil str))
     else Ok ([], small)) =
    rbind (merge_splits small) (fun merged => Ok (merged, []))).
  { destruct small; cbn [truthy]; [now rewrite merge_splits_nil|reflexivity]. }
  rewrite Hflush. clear Hflush.
  destruct (TextSplitter._merge_splits self small _separator) as [merged|e];
    cbn [rbind]; [|reflexivity].
  unfold oversize.
  assert (Hhand :
    (if negb (truthy new_separators) then Ok (merged ++ [big], @nil str)
     else rbind (recurse big) (fun other_info => Ok (merged ++ other_info, []))) =
    rbind (if truthy new_separators then recurse big else Ok [big])
          (fun other => Ok (merged ++ other, []))).
  { now destruct (truthy new_separators). }
  rewrite Hhand. clear Hhand.
  destruct (if truthy new_separators then recurse big else Ok [big]) as [other|e];
    cbn [rbind]; [|reflexivity].
  rewrite split_loop_prefix. unfold TextSplitter.split_pieces.
  destruct (foldM _ rest ([], [])) as [[f g]|e]; cbn [rbind fst snd]; [|reflexivity].
  destruct (truthy g).
  - destruct (TextSplitter._merge_splits self g _separator); cbn [rbind];
      [|reflexivity].
    now rewrite <- !app_assoc.
  - cbn [rbind]. now rewrite <- !app_assoc.
Qed.

End Pieces.

Section Separators.

Variable self : TextSplitter.t.

(** Without further separators [recurse] is never called. *)
Lemma split_with_leaf (r1 r2 : str -> result (list str)) (separator text : str) :
  TextSplitter.split_with self r1 separator [] text =
  TextSplitter.split_with self r2 separator [] text.
Proof.
  unfold TextSplitter.split_with, TextSplitter.split_pieces.
  erewrite foldM_ext; [reflexivity|].
  intros [final good] p. unfold TextSplitter.split_step. reflexivity.
Qed.

(** [_split_text] is the separator search followed by the body. *)
Lemma split_from_find (recurse : list str -> str -> result (list str))
    (separators l : list str) (text : str) :
  TextSplitter.split_from self recurse separators l text =
  match TextSplitter.find_separator separators l text with
  | Ok (separator, new_separators) =>
      TextSplitter.split_with self (recurse new_separators) separator
                              new_separators text
  | Raise e => Raise e
  end.
Proof.
  induction l as [|_s rest IH]; cbn [TextSplitter.split_from TextSplitter.find_separator].
  - destruct (rev separators); [reflexivity|apply split_with_leaf].
  - destruct (negb (truthy _s)); [apply split_with_leaf|].
    destruct (TextSplitter.re_search _s text); [reflexivity|apply IH].
Qed.

End Separators.

(* ================================================================= *)
(** ** Chunking *)

Lemma rbind_Ok {A} (r : result A) : rbind r Ok = r.
Proof. now destruct r. Qed.

Lemma get_text_chunks_eq (text : str) :
  get_text_chunks text =
  TextSplitter._split_text text_splitter [[NL; NL]; [NL]; [SP]; []] text.
Proof.
  unfold get_text_chunks. cbn [TextSplitter.RecursiveCharacterTextSplitter Z.gtb Z.leb Z.ltb Z.compare
    Pos.compare Pos.compare_cont truthy rbind].
  unfold TextSplitter.split_text. cbn [TextSplitter._separators].
  fold text_splitter. apply rbind_Ok.
Qed.

(** *** Texts without separators *)

Lemma startswith_absent (x : char) (p text : str) :
  Forall (fun c => c <> x) text -> startswith (x :: p) text = false.
Proof.
  intros [|c text' Hc _]; [reflexivity|]. cbn [startswith].
  replace (N.eqb x c) with false; [reflexivity|].
  symmetry. apply N.eqb_neq. congruence.
Qed.

Lemma re_search_absent (x : char) (p text : str) :
  Forall (fun c => c <> x) text -> TextSplitter.re_search (x :: p) text = false.
Proof.
  induction 1 as [|c text Hc Hall IH]; [reflexivity|].
  cbn [TextSplitter.re_search]. rewrite IH, orb_false_r.
  apply startswith_absent. now constructor.
Qed.

Lemma nospace_not (x : char) (text : str) :
  isspace x = true -> Forall (fun c => isspace c = false) text ->
  Forall (fun c => c <> x) text.
Proof.
  intros Hx Hall. eapply Forall_impl; [|exact Hall].
  intros c Hc ->. congruence.
Qed.

Lemma _split_text_find (self : TextSplitter.t) (separators : list str) (text : str) :
  TextSplitter._split_text self separators text =
  match TextSplitter.find_separator separators separators text with
  | Ok (separator, new_separators) =>
      TextSplitter.split_with self (TextSplitter._split_text self new_separators)
                              separator new_separators text
  | Raise e => Raise e
  end.
Proof. rewrite _split_text_eq. apply split_from_find. Qed.

(** A text without white space is cut between characters only. *)
Lemma no_separator_chunks (text : str) :
  Forall (fun c => isspace c = false) text ->
  get_text_chunks text = TextSplitter._merge_splits text_splitter (chars text) [].
Proof.
  intros Hns. rewrite get_text_chunks_eq, _split_text_find.
  cbn [TextSplitter.find_separator truthy negb].
  rewrite !re_search_absent by (apply nospace_not; [reflexivity|exact Hns]).
  unfold TextSplitter.split_with. cbn [TextSplitter._keep_separator text_splitter].
  unfold TextSplitter._split_text_with_regex. cbn [truthy].
  rewrite filter_truthy_chars. apply split_pieces_small.
  apply Forall_forall. intros p Hp. unfold chars in Hp.
  apply in_map_iff in Hp as (c & <- & _). reflexivity.
Qed.

(** ** C1 *)

(** C1, amended. For every text, [get_text_chunks] returns, and every
    chunk of the result, the last one included, is non-empty and at most
    1000 characters long.  When the text has no white space, every chunk
    that has a successor is 1000 characters long and the successor begins
    with its last 200 characters. *)
Theorem get_text_chunks_size_and_overlap (text : str) :
  exists chunks,
    get_text_chunks text = Ok chunks /\
    Forall (fun c => 1 <= len c <= 1000) chunks /\
    (Forall (fun c => isspace c = false) text ->
     forall i c1 c2,
       nth_error chunks i = Some c1 -> nth_error chunks (S i) = Some c2 ->
       len c1 = 1000 /\
       len (skipn 800 c1) = 200 /\
       exists q, q <> [] /\ c2 = skipn 800 c1 ++ q).
Proof.
  destruct (_split_text_ok text_splitter) with
    (separators := [[NL; NL]; [NL]; [SP]; @nil char]) (text := text)
    as (chunks & Hchunks & Hbound); [cbn; lia|reflexivity|cbn; lia|cbn; auto|].
  exists chunks. rewrite get_text_chunks_eq. split; [exact Hchunks|].
  split; [exact Hbound|].
  intros Hns i c1 c2 H1 H2.
  destruct (merge_chars_linked text_splitter) with (text := text)
    as (chunks' & Hmerge & Hlinked); [cbn; lia|cbn; lia|exact Hns|].
  rewrite <- get_text_chunks_eq, (no_separator_chunks text Hns), Hmerge in Hchunks.
  inversion Hchunks; subst chunks'.
  destruct (linked_nth text_splitter chunks Hlinked i c1 c2 H1 H2)
    as (Hfull & q & Hq & Hc2).
  cbn [TextSplitter._chunk_size text_splitter] in Hfull.
  assert (Hcarried : carried text_splitter c1 = skipn 800 c1).
  { unfold carried. replace (length c1) with 1000%nat by (unfold len in Hfull; lia).
    reflexivity. }
  rewrite Hcarried in Hc2.
  split; [exact Hfull|]. split; [|now exists q].
  unfold len in *. rewrite length_skipn. lia.
Qed.

(** C1 as stated fails: a word of 600 characters, a space and another
    word of 600 characters give two chunks, the two words, and no end of
    the first is a beginning of the second. *)
Lemma chunks_without_overlap :
  get_text_chunks (repeat 97%N 600 ++ [SP] ++ repeat 98%N 600) =
    Ok [repeat 97%N 600; repeat 98%N 600] /\
  ~ overlapping (repeat 97%N 600) (repeat 98%N 600).
Proof.
  split; [vm_compute; reflexivity|].
  intros (w & Hw & (p & Hp) & (q & Hq)).
  destruct w as [|x w]; [now apply Hw|].
  assert (Hx98 : x = 98%N).
  { change (repeat 98%N 600) with (98%N :: repeat 98%N 599) in Hq.
    now inversion Hq. }
  assert (Hx97 : x = 97%N).
  { apply (repeat_spec 600 97%N x). rewrite Hp. apply in_or_app. right. now left. }
  congruence.
Qed.

(** *** The order of the separators *)

(** The body of [_split_text] for the splitter of [get_text_chunks],
    once the separator is chosen: small pieces are merged, and only
    pieces of 1000 characters or more reach the later separators. *)
Lemma split_with_pieces (separator : str) (new_separators : list str) (text : str) :
  (truthy new_separators = false -> separator = []) ->
  let recurse := TextSplitter._split_text text_splitter new_separators in
  let pieces := TextSplitter._split_text_with_regex text separator true in
  let chunks := TextSplitter.split_with text_splitter recurse separator new_separators text in
  chunks = TextSplitter.split_pieces text_splitter recurse new_separators [] pieces /\
  (Forall (fun p => len p < 1000) pieces ->
   chunks = TextSplitter._merge_splits text_splitter pieces []) /\
  (forall small big rest,
      pieces = small ++ big :: rest ->
      Forall (fun p => len p < 1000) small -> 1000 <= len big ->
      chunks =
        (merged <- TextSplitter._merge_splits text_splitter small [] ;;
         other <- recurse big ;;
         later <- TextSplitter.split_pieces text_splitter recurse new_separators [] rest ;;
         Ok (merged ++ other ++ later))%result).
Proof.
  intros Hleaf recurse pieces chunks.
  assert (Hchunks : chunks =
            TextSplitter.split_pieces text_splitter recurse new_separators [] pieces)
    by reflexivity.
  split; [exact Hchunks|]. split.
  - intros Hsmall. rewrite Hchunks. now apply split_pieces_small.
  - intros small big rest Hpieces Hsmall Hbig.
    rewrite Hchunks, Hpieces.
    rewrite (split_pieces_oversize text_splitter recurse new_separators [] small rest big
               Hsmall Hbig).
    unfold oversize. destruct (truthy new_separators) eqn:Hns; [reflexivity|].
    exfalso. specialize (Hleaf eq_refl). subst separator pieces.
    unfold TextSplitter._split_text_with_regex in Hpieces. cbn [truthy] in Hpieces.
    rewrite filter_truthy_chars in Hpieces.
    assert (Hin : In big (chars text)) by (rewrite Hpieces; apply in_elt).
    unfold chars in Hin. apply in_map_iff in Hin as (c & <- & _).
    rewrite len_cons, len_nil in Hbig. lia.
Qed.

(** ** C6 *)

(** C6, amended. A text of exactly 2500 characters without white space
    is split into exactly three chunks: its characters 0 to 1000, 800 to
    1800 and 1600 to 2500. *)
Theorem chunks_of_2500_characters (text : str) :
  length text = 2500%nat ->
  Forall (fun c => isspace c = false) text ->
  get_text_chunks text =
    Ok [slice text 0 1000; slice text 800 1800; slice text 1600 2500].
Proof.
  intros Hlen Hns. rewrite (no_separator_chunks text Hns).
  pose (t1 := firstn 1000 text).
  pose (t2 := firstn 800 (skipn 1000 text)).
  pose (t3 := skipn 1800 text).
  assert (Htext : text = t1 ++ t2 ++ t3).
  { subst t1 t2 t3. rewrite <- (firstn_skipn 1000 text) at 1. f_equal.
    rewrite <- (firstn_skipn 800 (skipn 1000 text)) at 1. f_equal.
    now rewrite skipn_skipn. }
  assert (H1 : length t1 = 1000%nat) by (subst t1; rewrite length_firstn; lia).
  assert (H2 : length t2 = 800%nat)
    by (subst t2; rewrite length_firstn, length_skipn; lia).
  assert (H3 : length t3 = 700%nat) by (subst t3; rewrite length_skipn; lia).
  assert (Hns1 : Forall (fun c => isspace c = false) t1)
    by (rewrite Htext in Hns; now apply Forall_app in Hns).
  assert (Hns2 : Forall (fun c => isspace c = false) t2).
  { rewrite Htext in Hns. apply Forall_app in Hns as [_ Hns].
    now apply Forall_app in Hns. }
  assert (Hns3 : Forall (fun c => isspace c = false) t3).
  { rewrite Htext in Hns. apply Forall_app in Hns as [_ Hns].
    now apply Forall_app in Hns. }
  set (o1 := skipn 800 t1).
  assert (Ho1 : length o1 = 200%nat) by (subst o1; rewrite length_skipn; lia).
  assert (Hc1 : carried text_splitter t1 = o1).
  { unfold carried. rewrite H1. reflexivity. }
  set (c2 := o1 ++ t2).
  assert (Hlen2 : length c2 = 1000%nat) by (subst c2; rewrite length_app; lia).
  set (o2 := skipn 600 t2).
  assert (Ho2 : length o2 = 200%nat) by (subst o2; rewrite length_skipn; lia).
  assert (Hc2 : carried text_splitter c2 = o2).
  { unfold carried. rewrite Hlen2.
    change (1000 - Z.to_nat (TextSplitter._chunk_overlap text_splitter))%nat
      with (800)%nat.
    subst c2 o2. rewrite skipn_app, Ho1.
    change (800 - 200)%nat with 600%nat.
    rewrite (skipn_all2 (n := 800) o1) by lia. reflexivity. }
  set (c3 := o2 ++ t3).
  assert (S1 : slice text 0 1000 = t1) by reflexivity.
  assert (S2 : slice text 800 1800 = c2).
  { unfold slice. change (1800 - 800)%nat with 1000%nat.
    rewrite Htext at 1. rewrite skipn_app, H1.
    change (800 - 1000)%nat with 0%nat. rewrite skipn_O.
    fold o1. rewrite app_assoc. fold c2.
    rewrite firstn_app, Hlen2. change (1000 - 1000)%nat with 0%nat.
    rewrite firstn_all2 by lia. rewrite firstn_O. now rewrite app_nil_r. }
  assert (S3 : slice text 1600 2500 = c3).
  { unfold slice. change (2500 - 1600)%nat with 900%nat.
    rewrite Htext at 1. rewrite skipn_app, H1.
    rewrite (skipn_all2 (n := 1600) t1) by lia.
    change (1600 - 1000)%nat with 600%nat. cbn [app].
    rewrite skipn_app, H2. change (600 - 800)%nat with 0%nat. rewrite skipn_O.
    fold o2. fold c3. apply firstn_all2. subst c3. rewrite length_app. lia. }
  rewrite S1, S2, S3. clear S1 S2 S3.
  unfold TextSplitter._merge_splits.
  rewrite Htext, !chars_app, foldM_app.
  change (@nil str, @nil str, 0) with (@nil str, chars [], len (@nil char)).
  rewrite (merge_fill text_splitter [] t1 [])
    by (unfold len; rewrite H1; cbn; lia).
  cbn [rbind app]. rewrite foldM_app.
  assert (Hov : 0 <= TextSplitter._chunk_overlap text_splitter) by (cbn; lia).
  assert (Hroom : TextSplitter._chunk_overlap text_splitter <
                  TextSplitter._chunk_size text_splitter) by (cbn; lia).
  rewrite (merge_cut_fill text_splitter Hov Hroom [] t1 t2);
    [|unfold len; rewrite H1; reflexivity|exact Hns1
     |unfold len; rewrite H2; cbn; lia].
  cbn [rbind app]. rewrite Hc1. fold c2.
  assert (Hnsc2 : Forall (fun c => isspace c = false) c2).
  { subst c2. apply Forall_app. split; [|exact Hns2].
    subst o1. now apply Forall_skipn. }
  rewrite (merge_cut_fill text_splitter Hov Hroom _ c2 t3);
    [|unfold len; rewrite Hlen2; reflexivity|exact Hnsc2
     |unfold len; rewrite H3; cbn; lia].
  cbn [rbind app]. rewrite Hc2. fold c3.
  rewrite join_docs_chars.
  - reflexivity.
  - intros Hnil. apply (f_equal (@length char)) in Hnil. subst c3.
    rewrite length_app in Hnil. cbn [length] in Hnil. lia.
  - subst c3. apply Forall_app. split; [|exact Hns3].
    subst o2. now apply Forall_skipn.
Qed.

(** C6 as stated fails: 2500 letters give three chunks, not four.  The
    three ranges are those of a text without white space only: 1249
    letters, a space and 1250 letters, 2500 characters as well, give four
    chunks of 1000, 449, 999 and 451 characters. *)
Lemma chunks_of_2500_letters :
  (exists chunks,
      get_text_chunks (repeat 97%N 2500) = Ok chunks /\
      length chunks = 3%nat /\
      map (@length char) chunks = [1000; 1000; 900]%nat /\
      length chunks <> 4%nat) /\
  (exists chunks,
      length (repeat 97%N 1249 ++ [SP] ++ repeat 98%N 1250) = 2500%nat /\
      get_text_chunks (repeat 97%N 1249 ++ [SP] ++ repeat 98%N 1250) = Ok chunks /\
      map (@length char) chunks = [1000; 449; 999; 451]%nat).
Proof.
  split.
  - eexists. split; [vm_compute; reflexivity|].
    repeat split. discriminate.
  - eexists. split; [vm_compute; reflexivity|].
    split; vm_compute; reflexivity.
Qed.


Section AppFacts.

Variables pdf page_t : Type.
Variable PdfReader : pdf -> result (list page_t).
Variable extract_text : page_t -> result str.
Variable fault : call -> State -> option exn.
Variable run_chain : State -> Chain -> str -> response.

Local Abbreviation external := (App.external fault).
Local Abbreviation ensure_index := (App.ensure_index fault).
Local Abbreviation get_vectorstore := (App.get_vectorstore fault).
Local Abbreviation get_conversation_chain := (App.get_conversation_chain fault).
Local Abbreviation handle_userinput := (App.handle_userinput fault run_chain).
Local Abbreviation get_pdf_text := (App.get_pdf_text pdf page_t PdfReader extract_text).
Local Abbreviation process_documents :=
  (App.process_documents pdf page_t PdfReader extract_text fault).

Lemma external_session (c : call) (s : State) :
  session_state (snd (external c s)) = session_state s /\
  page (snd (external c s)) = page s /\
  pinecone (snd (external c s)) = pinecone s /\
  calls (snd (external c s)) = calls s ++ [c].
Proof. unfold App.external. destruct (fault c s); simpl; auto. Qed.

(** What [ensure_index] does when the control plane answers. *)
Lemma ensure_index_run (index_name : str) (s : State) :
  pinecone_up fault ->
  ensure_index index_name s =
    (Ok tt,
     if str_in index_name (map name (pinecone s)) then log list_indexes s
     else
       let ix := mkIndex index_name 1536 (py "cosine") (py "aws") (py "us-east-1") in
       mkState (session_state s) (pinecone s ++ [ix])
               (calls s ++ [list_indexes; create_index ix; time_sleep 1])
               (page s)).
Proof.
  intros Hup.
  unfold App.ensure_index, App.pc_list_indexes, App.pc_create_index, bind, App.external,
    get_pinecone, set_pinecone, ret.
  destruct (Hup s) as (-> & _ & _). simpl.
  destruct (str_in index_name (map name (pinecone s))) eqn:Hin; simpl;
    [reflexivity|].
  destruct (Hup (log list_indexes s)) as (_ & -> & _). simpl. rewrite Hin.
  match goal with |- context [fault (time_sleep 1) ?s'] =>
    destruct (Hup s') as (_ & _ & ->) end.
  unfold log. simpl. rewrite <- !app_assoc. reflexivity.
Qed.

(** ** C2 *)

(** C2. [ensure_index], the existence check and creation of
    [get_vectorstore], is idempotent.  With the control plane
    answering, two consecutive calls with the same name both return,
    and together they request exactly one creation when no index of
    that name existed and none when one did; the second call never
    creates, and a call that finds the name creates nothing and leaves
    the set of indexes as it was. *)
Theorem ensure_index_idempotent (index_name : str) (s : State) :
  pinecone_up fault ->
  let s1 := snd (ensure_index index_name s) in
  let s2 := snd (ensure_index index_name s1) in
  fst (ensure_index index_name s) = Ok tt /\
  fst (ensure_index index_name s1) = Ok tt /\
  creations (calls s2) = creations (calls s1) /\
  pinecone s2 = pinecone s1 /\
  (str_in index_name (map name (pinecone s)) = false ->
     creations (calls s2) =
       creations (calls s) ++
       [mkIndex index_name 1536 (py "cosine") (py "aws") (py "us-east-1")]) /\
  (str_in index_name (map name (pinecone s)) = true ->
     creations (calls s1) = creations (calls s) /\ pinecone s1 = pinecone s).
Proof.
  intros Hup s1 s2. subst s2 s1.
  rewrite (ensure_index_run index_name s Hup).
  cbn [fst snd].
  set (s1 := if str_in index_name (map name (pinecone s)) then _ else _).
  assert (Hin1 : str_in index_name (map name (pinecone s1)) = true).
  { subst s1. destruct (str_in index_name (map name (pinecone s))) eqn:Hin.
    - exact Hin.
    - cbn. rewrite map_app, str_in_app. simpl. rewrite str_eqb_refl.
      now rewrite orb_true_r. }
  rewrite (ensure_index_run index_name s1 Hup). rewrite Hin1.
  cbn [fst snd].
  repeat split.
  - unfold log; simpl. rewrite creations_app; simpl. now rewrite app_nil_r.
  - intros Hin. subst s1. rewrite Hin. unfold log; cbn.
    rewrite !creations_app. simpl. now rewrite app_nil_r.
  - subst s1. rewrite H. unfold log; simpl. rewrite creations_app; simpl.
    now rewrite app_nil_r.
  - subst s1. now rewrite H.
Qed.

(** *** Questions *)

Lemma forM_display (l : list turn) (s : State) :
  forM l (fun message =>
    (st (st_chat_message (py "user") (question message)) ;;;
     st (st_chat_message (py "assistant") (answer message)))%monad) s =
  (Ok tt,
   mkState (session_state s) (pinecone s) (calls s)
     (page s ++
      flat_map (fun message =>
                  [st_chat_message (py "user") (question message);
                   st_chat_message (py "assistant") (answer message)]) l)).
Proof.
  revert s. induction l as [|m l IH]; intros s.
  - simpl. unfold ret. destruct s; simpl. now rewrite app_nil_r.
  - simpl. unfold bind at 1. unfold bind at 1. unfold st at 1. unfold st at 1.
    rewrite IH. simpl. now rewrite <- !app_assoc.
Qed.

(** The guard of [handle_userinput]. *)
Lemma handle_userinput_not_ready (user_question : str) (s : State) :
  conversation (session_state s) = None ->
  handle_userinput user_question s =
    (Ok tt,
     mkState (session_state s) (pinecone s) (calls s)
             (page s ++ [st_warning (py "Please upload and process PDFs first!")])).
Proof.
  intros Hnone. unfold App.handle_userinput, bind, get_session.
  now rewrite Hnone.
Qed.

(** A failing run of the chain leaves [handle_userinput] at once. *)
Lemma handle_userinput_raise (user_question : str) (s : State) (chain : Chain) (e : exn) :
  conversation (session_state s) = Some chain ->
  fault (chain_call user_question) s = Some e ->
  handle_userinput user_question s = (Raise e, log (chain_call user_question) s).
Proof.
  intros Hsome Hfault.
  unfold App.handle_userinput, bind, get_session, App.conversation_call, App.external.
  now rewrite Hsome, Hfault.
Qed.

Lemma handle_userinput_answer (user_question : str) (s : State) (chain : Chain) :
  conversation (session_state s) = Some chain ->
  fault (chain_call user_question) s = None ->
  let a := r_answer (run_chain s chain user_question) in
  let history := chat_history (session_state s) ++ [mkTurn user_question a] in
  handle_userinput user_question s =
    (Ok tt,
     mkState
       (mkSession
          (Some (set_memory chain (memory chain ++ [mkTurn user_question a])))
          history (processed (session_state s)))
       (pinecone s) (calls s ++ [chain_call user_question])
       (page s ++
        flat_map (fun message =>
                    [st_chat_message (py "user") (question message);
                     st_chat_message (py "assistant") (answer message)]) history)).
Proof.
  intros Hsome Hfault a history.
  unfold App.handle_userinput, bind, get_session, App.conversation_call, App.external.
  rewrite Hsome, Hfault. cbn.
  unfold put_session. cbn. rewrite forM_display. reflexivity.
Qed.

(** *** Script runs before any document processing *)

Lemma idle_bind {A B} (m : M A) (k : A -> M B) :
  idle_when_not_ready m -> (forall a, idle_when_not_ready (k a)) ->
  idle_when_not_ready (bind m k).
Proof.
  intros Hm Hk s Hnone. unfold bind.
  destruct (Hm s Hnone) as ((a & Ha) & Hs & Hc).
  destruct (m s) as [r s1]. cbn [fst snd] in *. subst r.
  destruct (Hk a s1) as (Hr & Hs' & Hc'); [now rewrite Hs|].
  repeat split; [exact Hr|congruence|congruence].
Qed.

Lemma idle_st (e : element) : idle_when_not_ready (st e).
Proof. intros s _. cbn. repeat split. now exists tt. Qed.

Lemma idle_ret {A} (a : A) : idle_when_not_ready (ret a).
Proof. intros s _. cbn. repeat split. now exists a. Qed.

Lemma idle_get_session : idle_when_not_ready get_session.
Proof. intros s _. cbn. repeat split. now eexists. Qed.

Lemma idle_handle_userinput (user_question : str) :
  idle_when_not_ready (handle_userinput user_question).
Proof.
  intros s Hnone. rewrite (handle_userinput_not_ready user_question s Hnone).
  cbn. repeat split. now exists tt.
Qed.

(** A run of the script in which the button is not pressed, in a session
    without a chain, returns with the session state and the call log
    unchanged, whatever is asked: the session stays not ready. *)
Lemma main_stays_not_ready (openai_api_key pinecone_api_key : str)
    (pdf_docs : list pdf) (user_question : option str) :
  idle_when_not_ready
    (App.main pdf page_t PdfReader extract_text fault run_chain
       openai_api_key pinecone_api_key pdf_docs false user_question).
Proof.
  unfold App.main. cbv iota.
  repeat (first [ apply idle_handle_userinput
                | apply idle_st | apply idle_ret | apply idle_get_session
                | apply idle_bind; [|intros ?]
                | match goal with
                  | |- idle_when_not_ready (if ?b then _ else _) => destruct b
                  | |- idle_when_not_ready (match ?q with Some _ => _ | None => _ end) =>
                      destruct q
                  end ]).
Qed.

(** ** C3 *)

(** C3. A question asked while [st.session_state.conversation] is still
    [None], that is before any document processing has succeeded, is
    turned away at once: no call at all is made, the only thing put on
    the page is the warning that asks for documents first (the
    program's not-ready signal), and nothing is rendered as an answer. *)
Theorem ask_before_ingest_not_ready (user_question : str) (s : State) :
  conversation (session_state s) = None ->
  let s' := snd (handle_userinput user_question s) in
  fst (handle_userinput user_question s) = Ok tt /\
  calls s' = calls s /\
  page s' = page s ++ [st_warning (py "Please upload and process PDFs first!")] /\
  (forall body, ~ In (st_chat_message (py "assistant") body)
                     (skipn (length (page s)) (page s'))).
Proof.
  intros Hnone s'. subst s'.
  rewrite (handle_userinput_not_ready user_question s Hnone). cbn [fst snd page calls].
  repeat split.
  intros body Hin.
  rewrite skipn_app, skipn_all, Nat.sub_diag in Hin. simpl in Hin.
  destruct Hin as [Hin|[]]. discriminate Hin.
Qed.

(** ** C10 *)

(** C10. While the session is not ready ([conversation] is [None]),
    [handle_userinput] returns without touching the session state:
    [chat_history], [conversation] and [processed] are as before, no
    call is logged and the indexes are untouched. *)
Theorem handle_userinput_not_ready_frame (user_question : str) (s : State) :
  conversation (session_state s) = None ->
  let s' := snd (handle_userinput user_question s) in
  session_state s' = session_state s /\
  chat_history (session_state s') = chat_history (session_state s) /\
  calls s' = calls s /\
  pinecone s' = pinecone s.
Proof.
  intros Hnone s'. subst s'.
  rewrite (handle_userinput_not_ready user_question s Hnone). cbn.
  repeat split.
Qed.

(** ** C4 *)

(** C4. With a chain in place, a question whose chain run fails with
    [e] leaves [handle_userinput] with that very exception, and neither
    the chain's memory nor [chat_history] gains a turn; a run that
    returns appends exactly one turn, the question with its answer, to
    both. *)
Theorem handle_userinput_turns (user_question : str) (s : State) (chain : Chain) :
  conversation (session_state s) = Some chain ->
  let r := fst (handle_userinput user_question s) in
  let ss' := session_state (snd (handle_userinput user_question s)) in
  match fault (chain_call user_question) s with
  | Some e =>
      r = Raise e /\
      conversation ss' = Some chain /\
      (exists chain',
          conversation ss' = Some chain' /\
          len (memory chain') = len (memory chain)) /\
      chat_history ss' = chat_history (session_state s)
  | None =>
      let t := mkTurn user_question (r_answer (run_chain s chain user_question)) in
      r = Ok tt /\
      (exists chain',
          conversation ss' = Some chain' /\
          memory chain' = memory chain ++ [t] /\
          len (memory chain') = len (memory chain) + 1) /\
      chat_history ss' = chat_history (session_state s) ++ [t] /\
      len (chat_history ss') = len (chat_history (session_state s)) + 1
  end.
Proof.
  intros Hsome r ss'. subst r ss'.
  destruct (fault (chain_call user_question) s) as [e|] eqn:Hfault.
  - rewrite (handle_userinput_raise _ _ _ _ Hsome Hfault). cbn.
    repeat split; auto. now exists chain.
  - rewrite (handle_userinput_answer _ _ _ Hsome Hfault). cbn.
    unfold len. rewrite !length_app. cbn. repeat split; try lia.
    eexists. repeat split. cbn. unfold len. rewrite length_app. cbn. lia.
Qed.

(** *** Document processing *)

(** Building the vector store and the chain reads and writes the
    services only: the session state is out of their reach. *)
Lemma keeps_session_ret {A} (a : A) : keeps_session (ret a).
Proof. intros s. reflexivity. Qed.

Lemma keeps_session_raise {A} (e : exn) : keeps_session (@raise A e).
Proof. intros s. reflexivity. Qed.

Lemma keeps_session_bind {A B} (m : M A) (k : A -> M B) :
  keeps_session m -> (forall a, keeps_session (k a)) -> keeps_session (bind m k).
Proof.
  intros Hm Hk s. unfold bind. specialize (Hm s).
  destruct (m s) as [[a|e] s1]; cbn in *; [|exact Hm].
  now rewrite Hk.
Qed.

Lemma keeps_session_external (c : call) : keeps_session (external c).
Proof. intros s. apply external_session. Qed.

Lemma keeps_session_get_pinecone : keeps_session get_pinecone.
Proof. intros s. reflexivity. Qed.

Lemma keeps_session_set_pinecone (p : list IndexModel) : keeps_session (set_pinecone p).
Proof. intros s. reflexivity. Qed.

Lemma keeps_session_if {A} (b : bool) (m1 m2 : M A) :
  keeps_session m1 -> keeps_session m2 -> keeps_session (if b then m1 else m2).
Proof. now destruct b. Qed.

Create HintDb session.

Hint Resolve keeps_session_ret keeps_session_raise keeps_session_external
  keeps_session_get_pinecone keeps_session_set_pinecone : session.

Ltac keeps :=
  repeat (first [ apply keeps_session_bind; [|intros ?]
                | apply keeps_session_if
                | solve [auto with session] ]).

Lemma get_vectorstore_session (text_chunks : list str) (api_key pinecone_api_key : str)
    (s : State) :
  session_state (snd (get_vectorstore text_chunks api_key pinecone_api_key s)) =
  session_state s.
Proof.
  revert s. change (keeps_session (get_vectorstore text_chunks api_key pinecone_api_key)).
  unfold App.get_vectorstore, App.ensure_index, App.pc_list_indexes,
    App.pc_create_index.
  keeps.
Qed.

Lemma get_conversation_chain_session (vectorstore : VectorStore) (api_key : str)
    (s : State) :
  session_state (snd (get_conversation_chain vectorstore api_key s)) = session_state s.
Proof.
  revert s. change (keeps_session (get_conversation_chain vectorstore api_key)).
  unfold App.get_conversation_chain.
  keeps.
Qed.

Lemma get_conversation_chain_memory (vectorstore : VectorStore) (api_key : str)
    (s s' : State) (chain : Chain) :
  get_conversation_chain vectorstore api_key s = (Ok chain, s') ->
  memory chain = [] /\ retriever_store chain = vectorstore /\ retriever_k chain = 3.
Proof.
  unfold App.get_conversation_chain, bind, App.external, ret.
  repeat (match goal with
          | |- context [match fault ?c ?s0 with _ => _ end] => destruct (fault c s0)
          end; cbn);
    intros H; inversion H; subst; cbn; auto.
Qed.

Ltac enter_try Ho Hp Hd :=
  unfold App.process_documents; rewrite Ho, Hp, Hd; cbn [negb orb];
  unfold try_except, bind, lift.

Ltac report_chunks chunks s :=
  match goal with
  | |- context [st (st_info ?m) s] =>
      change (st (st_info m) s) with (@Ok unit tt, App.chunks_reported chunks s)
  end; cbv beta iota.

(** A run in which every stage returned. *)
Lemma process_documents_return (openai_api_key pinecone_api_key : str)
    (pdf_docs : list pdf) (s : State) (chain : Chain) :
  truthy openai_api_key = true -> truthy pinecone_api_key = true ->
  truthy pdf_docs = true ->
  App.stages_return pdf page_t PdfReader extract_text fault
    openai_api_key pinecone_api_key pdf_docs s chain ->
  exists s3,
    process_documents openai_api_key pinecone_api_key pdf_docs s =
      (Ok tt,
       mkState (mkSession (Some chain) (chat_history (session_state s)) true)
               (pinecone s3) (calls s3)
               (page s3 ++
                [st_success
                   (py "Documents processed successfully! You can now ask questions.")])).
Proof.
  intros Ho Hp Hd [raw chunks vs s2 s3 Hraw Hchunks Hvs Hchain].
  pose proof (get_vectorstore_session chunks openai_api_key pinecone_api_key
                (App.chunks_reported chunks s)) as Fvs.
  pose proof (get_conversation_chain_session vs openai_api_key s2) as Fch.
  rewrite Hvs in Fvs. rewrite Hchain in Fch. cbn [snd] in Fvs, Fch.
  exists s3. enter_try Ho Hp Hd. rewrite Hraw, Hchunks.
  report_chunks chunks s. rewrite Hvs. cbv beta iota. rewrite Hchain.
  unfold get_session, put_session, st.
  cbn [session_state conversation chat_history processed pinecone calls page].
  rewrite Fch, Fvs. reflexivity.
Qed.

(** A run in which a stage raised: the handler catches what derives
    from [Exception] and lets the rest through. *)
Lemma process_documents_raise (openai_api_key pinecone_api_key : str)
    (pdf_docs : list pdf) (s : State) (e : exn) :
  truthy openai_api_key = true -> truthy pinecone_api_key = true ->
  truthy pdf_docs = true ->
  App.stage_raises pdf page_t PdfReader extract_text fault
    openai_api_key pinecone_api_key pdf_docs s e ->
  exists s1,
    session_state s1 = session_state s /\
    process_documents openai_api_key pinecone_api_key pdf_docs s =
      if isinstance e "Exception"
      then (Ok tt,
            mkState (session_state s1) (pinecone s1) (calls s1)
                    (page s1 ++
                     [st_error (py "Error processing documents: " ++ str_of_exn e)]))
      else (Raise e, s1).
Proof.
  intros Ho Hp Hd
    [Hraw | raw Hraw Hchunks | raw chunks Hraw Hchunks Hvs
    | raw chunks vs s2 Hraw Hchunks Hvs Hchain].
  - exists s. split; [reflexivity|]. enter_try Ho Hp Hd. rewrite Hraw.
    now destruct (isinstance e "Exception").
  - exists s. split; [reflexivity|]. enter_try Ho Hp Hd. rewrite Hraw, Hchunks.
    now destruct (isinstance e "Exception").
  - pose proof (get_vectorstore_session chunks openai_api_key pinecone_api_key
                  (App.chunks_reported chunks s)) as Fvs.
    destruct (get_vectorstore _ _ _ _) as [[vs|e'] s2] eqn:Evs; cbn [fst snd] in *;
      [discriminate|].
    inversion Hvs; subst e'.
    exists s2. split; [exact Fvs|]. enter_try Ho Hp Hd. rewrite Hraw, Hchunks.
    report_chunks chunks s. rewrite Evs.
    now destruct (isinstance e "Exception").
  - pose proof (get_vectorstore_session chunks openai_api_key pinecone_api_key
                  (App.chunks_reported chunks s)) as Fvs.
    pose proof (get_conversation_chain_session vs openai_api_key s2) as Fch.
    rewrite Hvs in Fvs. cbn [snd] in Fvs.
    destruct (get_conversation_chain _ _ _) as [[ch|e'] s3] eqn:Ech;
      cbn [fst snd] in *; [discriminate|].
    inversion Hchain; subst e'.
    exists s3. split; [rewrite Fch; exact Fvs|]. enter_try Ho Hp Hd. rewrite Hraw, Hchunks.
    report_chunks chunks s. rewrite Hvs. cbv beta iota. rewrite Ech.
    now destruct (isinstance e "Exception").
Qed.

(** The two refusals of the button handler leave the session alone. *)
Lemma process_documents_refusal (openai_api_key pinecone_api_key : str)
    (pdf_docs : list pdf) (s : State) :
  truthy openai_api_key && truthy pinecone_api_key && truthy pdf_docs = false ->
  fst (process_documents openai_api_key pinecone_api_key pdf_docs s) = Ok tt /\
  session_state (snd (process_documents openai_api_key pinecone_api_key pdf_docs s)) =
    session_state s.
Proof.
  unfold App.process_documents.
  destruct (truthy openai_api_key), (truthy pinecone_api_key), (truthy pdf_docs);
    cbn; intros H; try discriminate; auto.
Qed.

(** ** C8 *)

(** C8. When a stage of document processing raises (text extraction,
    chunking, building the vector store or building the chain), the
    session state is what it was: [conversation] keeps its value and
    [processed] is not set. The handler reports the error and returns
    when the exception derives from [Exception], which is what line 176
    catches; any other exception leaves the handler, the session state
    being the same. *)
Theorem process_documents_error_keeps_session
    (openai_api_key pinecone_api_key : str) (pdf_docs : list pdf) (s : State) (e : exn) :
  App.stage_raises pdf page_t PdfReader extract_text fault
    openai_api_key pinecone_api_key pdf_docs s e ->
  let s' := snd (process_documents openai_api_key pinecone_api_key pdf_docs s) in
  session_state s' = session_state s /\
  conversation (session_state s') = conversation (session_state s) /\
  processed (session_state s') = processed (session_state s) /\
  (isinstance e "Exception" = true ->
   fst (process_documents openai_api_key pinecone_api_key pdf_docs s) = Ok tt /\
   (truthy openai_api_key = true -> truthy pinecone_api_key = true ->
    truthy pdf_docs = true ->
    exists shown,
      page s' =
        shown ++ [st_error (py "Error processing documents: " ++ str_of_exn e)])) /\
  (isinstance e "Exception" = false ->
   truthy openai_api_key = true -> truthy pinecone_api_key = true ->
   truthy pdf_docs = true ->
   fst (process_documents openai_api_key pinecone_api_key pdf_docs s) = Raise e).
Proof.
  intros Hstage s'. subst s'.
  destruct (truthy openai_api_key && truthy pinecone_api_key && truthy pdf_docs)
    eqn:Hguard.
  - apply andb_true_iff in Hguard as [Hguard Hd].
    apply andb_true_iff in Hguard as [Ho Hp].
    destruct (process_documents_raise _ _ _ _ _ Ho Hp Hd Hstage) as (s1 & Hs1 & ->).
    destruct (isinstance e "Exception");
      cbn [fst snd session_state page]; rewrite ?Hs1;
      (repeat split; try discriminate).
    intros _ _ _. now eexists.
  - destruct (process_documents_refusal _ _ _ s Hguard) as [-> ->].
    repeat split; intros; try discriminate.
    all: match goal with
         | Ho : truthy _ = true, Hp : truthy _ = true, Hd : truthy _ = true |- _ =>
             rewrite Ho, Hp, Hd in Hguard; discriminate
         end.
Qed.

(** ** C9 *)

(** C9. A run of document processing in which every stage returns, in
    a session of any past (in particular one that already holds a chain
    with remembered turns and a non-empty [chat_history]), installs the
    newly built chain, whose memory is empty, sets [processed], and
    leaves [chat_history] as it was.  The next question answered is then
    appended to the turns shown before, while the memory of the chain
    holds that turn alone. *)
Theorem reprocess_resets_memory_keeps_history
    (openai_api_key pinecone_api_key : str) (pdf_docs : list pdf) (s : State)
    (chain : Chain) :
  truthy openai_api_key = true -> truthy pinecone_api_key = true ->
  truthy pdf_docs = true ->
  App.stages_return pdf page_t PdfReader extract_text fault
    openai_api_key pinecone_api_key pdf_docs s chain ->
  let s' := snd (process_documents openai_api_key pinecone_api_key pdf_docs s) in
  let ss' := session_state s' in
  conversation ss' = Some chain /\
  memory chain = [] /\
  chat_history ss' = chat_history (session_state s) /\
  processed ss' = true /\
  (forall user_question,
      fault (chain_call user_question) s' = None ->
      let t := mkTurn user_question (r_answer (run_chain s' chain user_question)) in
      let ss'' := session_state (snd (handle_userinput user_question s')) in
      (exists chain', conversation ss'' = Some chain' /\ memory chain' = [t]) /\
      chat_history ss'' = chat_history (session_state s) ++ [t]).
Proof.
  intros Ho Hp Hd Hret s' ss'.
  assert (Hmem : memory chain = []).
  { destruct Hret as [raw chunks vs s2 s3 _ _ _ Hchain].
    now destruct (get_conversation_chain_memory _ _ _ _ _ Hchain). }
  assert (Hss' : ss' = mkSession (Some chain) (chat_history (session_state s)) true).
  { subst ss' s'.
    now destruct (process_documents_return _ _ _ _ _ Ho Hp Hd Hret) as [s3 ->]. }
  rewrite Hss'. cbn [conversation chat_history processed].
  split; [reflexivity|]. split; [exact Hmem|].
  split; [reflexivity|]. split; [reflexivity|].
  intros user_question Hfault. cbv zeta.
  assert (Hsome : conversation (session_state s') = Some chain)
    by (fold ss'; now rewrite Hss').
  rewrite (handle_userinput_answer user_question s' chain Hsome Hfault).
  cbn [snd session_state conversation chat_history].
  fold ss'. rewrite Hss'. cbn [chat_history]. split; [|reflexivity].
  eexists. split; [reflexivity|]. cbn [set_memory memory]. now rewrite Hmem.
Qed.

End AppFacts.

(* ================================================================= *)
(** ** The theorems at sample sessions *)

Lemma no_fault_pinecone_up : pinecone_up Sample.no_fault.
Proof. intros s. repeat split. Defined.

Lemma ensure_index_idempotent_witness :
  pinecone_up Sample.no_fault /\
  creations
    (calls (snd (App.ensure_index Sample.no_fault index_name_const
                   (snd (App.ensure_index Sample.no_fault index_name_const
                           Sample.fresh))))) =
  [mkIndex index_name_const 1536 (py "cosine") (py "aws") (py "us-east-1")].
Proof.
  split; [exact no_fault_pinecone_up|].
  destruct (ensure_index_idempotent Sample.no_fault index_name_const Sample.fresh
              no_fault_pinecone_up) as (_ & _ & _ & _ & Hcreated & _).
  apply Hcreated. reflexivity.
Defined.

Lemma ask_before_ingest_not_ready_witness :
  conversation (session_state Sample.fresh) = None /\
  page (snd (App.handle_userinput Sample.no_fault Sample.run_chain
               (py "What is X?") Sample.fresh)) =
  [st_warning (py "Please upload and process PDFs first!")].
Proof.
  split; [reflexivity|].
  destruct (ask_before_ingest_not_ready Sample.no_fault Sample.run_chain
              (py "What is X?") Sample.fresh eq_refl) as (_ & _ & Hpage & _).
  exact Hpage.
Defined.

Lemma handle_userinput_not_ready_frame_witness :
  conversation (session_state Sample.fresh) = None /\
  session_state (snd (App.handle_userinput Sample.no_fault Sample.run_chain
                        (py "What is X?") Sample.fresh)) =
  initial_session.
Proof.
  split; [reflexivity|].
  destruct (handle_userinput_not_ready_frame Sample.no_fault Sample.run_chain
              (py "What is X?") Sample.fresh eq_refl) as (Hsession & _).
  exact Hsession.
Defined.

Lemma handle_userinput_turns_witness :
  conversation (session_state Sample.ready) = Some (Sample.a_chain [Sample.a_turn]) /\
  len (chat_history
         (session_state
            (snd (App.handle_userinput Sample.no_fault Sample.run_chain
                    (py "What is X?") Sample.ready)))) = 2.
Proof.
  split; [reflexivity|].
  pose proof (handle_userinput_turns Sample.no_fault Sample.run_chain
                (py "What is X?") Sample.ready (Sample.a_chain [Sample.a_turn])
                eq_refl) as H.
  cbv zeta in H.
  change (Sample.no_fault (chain_call (py "What is X?")) Sample.ready)
    with (@None exn) in H.
  destruct H as (_ & _ & _ & Hlen).
  exact Hlen.
Defined.

Lemma upload_raises :
  App.stage_raises str str Sample.PdfReader Sample.extract_text Sample.upload_fails
    (py "sk-test") (py "pc-test") Sample.docs Sample.ready
    (mkExn "PineconeException" (py "Service unavailable")).
Proof.
  eapply App.vectorstore_raises; [reflexivity|vm_compute; reflexivity|reflexivity].
Defined.

Lemma process_documents_error_keeps_session_witness :
  App.stage_raises str str Sample.PdfReader Sample.extract_text Sample.upload_fails
    (py "sk-test") (py "pc-test") Sample.docs Sample.ready
    (mkExn "PineconeException" (py "Service unavailable")) /\
  session_state
    (snd (App.process_documents str str Sample.PdfReader Sample.extract_text
            Sample.upload_fails (py "sk-test") (py "pc-test") Sample.docs Sample.ready)) =
  session_state Sample.ready.
Proof.
  split; [exact upload_raises|].
  destruct (process_documents_error_keeps_session str str Sample.PdfReader
              Sample.extract_text Sample.upload_fails
              (py "sk-test") (py "pc-test") Sample.docs Sample.ready _ upload_raises)
    as (Hsession & _).
  exact Hsession.
Defined.

Lemma all_stages_return_again :
  App.stages_return str str Sample.PdfReader Sample.extract_text Sample.no_fault
    (py "sk-test") (py "pc-test") Sample.docs Sample.ready Sample.new_chain.
Proof.
  eapply App.all_stages_return;
    [reflexivity|vm_compute; reflexivity|vm_compute; reflexivity
    |vm_compute; reflexivity].
Defined.

Lemma reprocess_resets_memory_keeps_history_witness :
  App.stages_return str str Sample.PdfReader Sample.extract_text Sample.no_fault
    (py "sk-test") (py "pc-test") Sample.docs Sample.ready Sample.new_chain /\
  memory (Sample.a_chain [Sample.a_turn]) = [Sample.a_turn] /\
  memory Sample.new_chain = [] /\
  chat_history
    (session_state
       (snd (App.process_documents str str Sample.PdfReader Sample.extract_text
               Sample.no_fault (py "sk-test") (py "pc-test") Sample.docs Sample.ready))) =
  [Sample.a_turn].
Proof.
  split; [exact all_stages_return_again|]. split; [reflexivity|].
  destruct (reprocess_resets_memory_keeps_history str str Sample.PdfReader
              Sample.extract_text Sample.no_fault Sample.run_chain
              (py "sk-test") (py "pc-test") Sample.docs Sample.ready Sample.new_chain
              eq_refl eq_refl eq_refl all_stages_return_again)
    as (_ & Hmemory & Hhistory & _).
  split; [exact Hmemory|exact Hhistory].
Defined.

Lemma letters_not_space (n : nat) : Forall (fun c => isspace c = false) (repeat 97%N n).
Proof.
  induction n as [|n IH]; [constructor|].
  constructor; [reflexivity|exact IH].
Defined.

Lemma chunks_of_2500_characters_witness :
  length (repeat 97%N 2500) = 2500%nat /\
  get_text_chunks (repeat 97%N 2500) =
    Ok [slice (repeat 97%N 2500) 0 1000;
        slice (repeat 97%N 2500) 800 1800;
        slice (repeat 97%N 2500) 1600 2500].
Proof.
  split; [apply repeat_length|].
  apply (chunks_of_2500_characters (repeat 97%N 2500)
           (repeat_length 97%N 2500) (letters_not_space 2500)).
Defined.

Lemma get_text_chunks_size_and_overlap_witness :
  exists chunks,
    get_text_chunks (repeat 97%N 1200) = Ok chunks /\
    Forall (fun c => 1 <= len c <= 1000) chunks /\
    (forall i c1 c2,
        nth_error chunks i = Some c1 -> nth_error chunks (S i) = Some c2 ->
        len c1 = 1000 /\
        len (skipn 800 c1) = 200 /\
        exists q, q <> [] /\ c2 = skipn 800 c1 ++ q).
Proof.
  destruct (get_text_chunks_size_and_overlap (repeat 97%N 1200))
    as (chunks & Hchunks & Hbound & Hoverlap).
  exists chunks. split; [exact Hchunks|]. split; [exact Hbound|].
  apply Hoverlap. apply letters_not_space.
Defined.

(* ================================================================= *)
(** ** Text extraction *)

Section PdfText.

Variables pdf page_t : Type.
Variable PdfReader : pdf -> result (list page_t).
Variable extract_text : page_t -> result str.

Local Abbreviation get_pdf_text := (App.get_pdf_text pdf page_t PdfReader extract_text).
Local Abbreviation read_page :=
  (fun (text : str) (page : page_t) =>
     rbind (extract_text page) (fun t => Ok (text ++ t))).
Local Abbreviation read_pdf :=
  (fun (text : str) (pdf : pdf) =>
     rbind (PdfReader pdf) (fun pages => foldM read_page pages text)).

Lemma read_pages_ok (txt : page_t -> str) (pages : list page_t) (text : str) :
  (forall p, In p pages -> extract_text p = Ok (txt p)) ->
  foldM read_page pages text = Ok (text ++ concat (map txt pages)).
Proof.
  revert text. induction pages as [|p pages IH]; intros text Hok.
  - cbn. now rewrite app_nil_r.
  - cbn [foldM map concat]. rewrite (Hok p (or_introl eq_refl)). cbn [rbind].
    rewrite IH by (intros q Hq; apply Hok; now right).
    now rewrite <- app_assoc.
Qed.

Lemma read_pdfs_ok (pages : pdf -> list page_t) (txt : page_t -> str)
    (pdf_docs : list pdf) (text : str) :
  (forall d, In d pdf_docs -> PdfReader d = Ok (pages d)) ->
  (forall d p, In d pdf_docs -> In p (pages d) -> extract_text p = Ok (txt p)) ->
  foldM read_pdf pdf_docs text =
    Ok (text ++ concat (map txt (flat_map pages pdf_docs))).
Proof.
  revert text. induction pdf_docs as [|d pdf_docs IH]; intros text Hopen Hpage.
  - cbn. now rewrite app_nil_r.
  - cbn [foldM flat_map]. rewrite (Hopen d (or_introl eq_refl)). cbn [rbind].
    rewrite (read_pages_ok txt) by (intros p Hp; apply (Hpage d); [now left|exact Hp]).
    cbn [rbind]. rewrite IH.
    + now rewrite map_app, concat_app, <- app_assoc.
    + intros d' Hd'. apply Hopen. now right.
    + intros d' p Hd' Hp. apply (Hpage d'); [now right|exact Hp].
Qed.

(** X1. When every uploaded document opens and every page yields its
    text, [get_pdf_text] returns the page texts joined without any
    separator, documents in upload order and pages in page order. *)
Theorem get_pdf_text_concat (pages : pdf -> list page_t) (txt : page_t -> str)
    (pdf_docs : list pdf) :
  (forall d, In d pdf_docs -> PdfReader d = Ok (pages d)) ->
  (forall d p, In d pdf_docs -> In p (pages d) -> extract_text p = Ok (txt p)) ->
  get_pdf_text pdf_docs = Ok (concat (map txt (flat_map pages pdf_docs))).
Proof.
  intros Hopen Hpage.
  exact (read_pdfs_ok pages txt pdf_docs [] Hopen Hpage).
Qed.

(** X2. The first document that cannot be opened, or whose page cannot be
    read, ends [get_pdf_text] with that exception: the text gathered so
    far is lost and the documents after it are not looked at. *)
Theorem get_pdf_text_first_failure (pages : pdf -> list page_t) (txt : page_t -> str)
    (before after : list pdf) (bad : pdf) (e : exn) :
  (forall d, In d before -> PdfReader d = Ok (pages d)) ->
  (forall d p, In d before -> In p (pages d) -> extract_text p = Ok (txt p)) ->
  (PdfReader bad = Raise e \/
   exists read p unread,
     PdfReader bad = Ok (read ++ p :: unread) /\
     (forall q, In q read -> extract_text q = Ok (txt q)) /\
     extract_text p = Raise e) ->
  get_pdf_text (before ++ bad :: after) = Raise e.
Proof.
  intros Hopen Hpage Hbad.
  change (foldM read_pdf (before ++ bad :: after) [] = Raise e).
  rewrite foldM_app, (read_pdfs_ok pages txt before [] Hopen Hpage).
  cbn [rbind foldM].
  destruct Hbad as [-> | (read & p & unread & -> & Hread & Hp)]; [reflexivity|].
  cbn [rbind]. rewrite foldM_app, (read_pages_ok txt read _ Hread).
  cbn [rbind foldM]. now rewrite Hp.
Qed.

End PdfText.

(* ================================================================= *)
(** ** More on the vector store, the questions and the script *)

Lemma bind_Ok_inv {A B} (m : M A) (k : A -> M B) (s s' : State) (b : B) :
  bind m k s = (Ok b, s') ->
  exists a s1, m s = (Ok a, s1) /\ k a s1 = (Ok b, s').
Proof.
  unfold bind. destruct (m s) as [[a|e] s1]; [|discriminate].
  intros H. now exists a, s1.
Qed.

Lemma preserves_bind {A B} (I : SessionState -> Prop) (m : M A) (k : A -> M B) :
  preserves I m -> (forall a, preserves I (k a)) -> preserves I (bind m k).
Proof.
  intros Hm Hk s HI. unfold bind. specialize (Hm s HI).
  destruct (m s) as [[a|e] s1]; cbn [snd] in *; [now apply Hk|exact Hm].
Qed.

Lemma preserves_keeps {A} (I : SessionState -> Prop) (m : M A) :
  keeps_session m -> preserves I m.
Proof. intros Hm s HI. now rewrite Hm. Qed.

Lemma keeps_session_st (e : element) : keeps_session (st e).
Proof. intros s. reflexivity. Qed.

Lemma keeps_session_get : keeps_session get_session.
Proof. intros s. reflexivity. Qed.

Lemma keeps_session_ret_tt {A} (a : A) : keeps_session (ret a).
Proof. intros s. reflexivity. Qed.

Lemma raises_only_bind {A B} (P : exn -> Prop) (m : M A) (k : A -> M B) :
  raises_only P m -> (forall a, raises_only P (k a)) -> raises_only P (bind m k).
Proof.
  intros Hm Hk s e. unfold bind. specialize (Hm s).
  destruct (m s) as [[a|e'] s1]; cbn [fst] in *.
  - apply Hk.
  - intros [= <-]. now apply Hm.
Qed.

Lemma raises_only_st (P : exn -> Prop) (e : element) : raises_only P (st e).
Proof. intros s e'. discriminate. Qed.

Lemma raises_only_ret {A} (P : exn -> Prop) (a : A) : raises_only P (ret a).
Proof. intros s e'. discriminate. Qed.

Lemma raises_only_get_session (P : exn -> Prop) : raises_only P get_session.
Proof. intros s e'. discriminate. Qed.

Lemma len_rendered (history : list turn) : len (rendered history) = 2 * len history.
Proof.
  induction history as [|m history IH]; [reflexivity|].
  unfold len, rendered in *. cbn [flat_map app length]. lia.
Qed.

Section AppMore.

Variables pdf page_t : Type.
Variable PdfReader : pdf -> result (list page_t).
Variable extract_text : page_t -> result str.
Variable fault : call -> State -> option exn.
Variable run_chain : State -> Chain -> str -> response.

Local Abbreviation external := (App.external fault).
Local Abbreviation ensure_index := (App.ensure_index fault).
Local Abbreviation get_vectorstore := (App.get_vectorstore fault).
Local Abbreviation get_conversation_chain := (App.get_conversation_chain fault).
Local Abbreviation handle_userinput := (App.handle_userinput fault run_chain).
Local Abbreviation get_pdf_text := (App.get_pdf_text pdf page_t PdfReader extract_text).
Local Abbreviation process_documents :=
  (App.process_documents pdf page_t PdfReader extract_text fault).
Local Abbreviation main :=
  (App.main pdf page_t PdfReader extract_text fault run_chain).

Local Abbreviation the_index :=
  (mkIndex index_name_const 1536 (py "cosine") (py "aws") (py "us-east-1")).

Lemma external_Ok_inv (c : call) (s s' : State) (u : unit) :
  external c s = (Ok u, s') -> s' = log c s.
Proof.
  unfold App.external. destruct (fault c s); intros H; inversion H. reflexivity.
Qed.

Lemma external_state (c : call) (s : State) : snd (external c s) = log c s.
Proof. unfold App.external. now destruct (fault c s). Qed.

(** What [ensure_index] has done when it returns. *)
Lemma ensure_index_Ok_inv (index_name : str) (s s' : State) (u : unit) :
  ensure_index index_name s = (Ok u, s') ->
  let ix := mkIndex index_name 1536 (py "cosine") (py "aws") (py "us-east-1") in
  (str_in index_name (map name (pinecone s)) = true /\
   s' = log list_indexes s) \/
  (str_in index_name (map name (pinecone s)) = false /\
   s' = mkState (session_state s) (pinecone s ++ [ix])
                (calls s ++ [list_indexes; create_index ix; time_sleep 1]) (page s)).
Proof.
  intros H ix.
  unfold App.ensure_index, App.pc_list_indexes in H.
  apply bind_Ok_inv in H as (indexes & s1 & Hlist & H).
  apply bind_Ok_inv in Hlist as (u1 & s0 & Hext & Hget).
  apply external_Ok_inv in Hext. subst s0.
  unfold get_pinecone in Hget. inversion Hget; subst indexes s1. clear Hget.
  cbn [log pinecone] in H.
  destruct (str_in index_name (map name (pinecone s))) eqn:Hin; cbn [negb] in H.
  - left. split; [reflexivity|]. unfold ret in H. now inversion H.
  - right. split; [reflexivity|].
    apply bind_Ok_inv in H as (u2 & s2 & Hcreate & Hsleep).
    apply external_Ok_inv in Hsleep.
    unfold App.pc_create_index in Hcreate.
    apply bind_Ok_inv in Hcreate as (u3 & s3 & Hext & Hcreate).
    apply external_Ok_inv in Hext. subst s3.
    apply bind_Ok_inv in Hcreate as (existing & s4 & Hget & Hset).
    unfold get_pinecone in Hget. inversion Hget; subst existing s4. clear Hget.
    cbn [log pinecone name] in Hset. rewrite Hin in Hset.
    unfold set_pinecone in Hset. inversion Hset; subst s2. subst s'.
    unfold log. cbn. now rewrite <- !app_assoc.
Qed.

(** X3. Whenever [get_vectorstore] returns, an index named
    [pdf-chat-index] exists, the store returned points to it with the
    OpenAI key given, and the upload of exactly the chunks given was the
    last call made; the index was created, with dimension 1536 and the
    cosine metric, only if no index of that name existed. *)
Theorem get_vectorstore_returns (text_chunks : list str) (api_key pinecone_api_key : str)
    (s s' : State) (vectorstore : VectorStore) :
  get_vectorstore text_chunks api_key pinecone_api_key s = (Ok vectorstore, s') ->
  vectorstore = mkVectorStore index_name_const api_key /\
  str_in index_name_const (map name (pinecone s')) = true /\
  (exists earlier,
      calls s' = calls s ++ earlier ++ [from_texts text_chunks index_name_const]) /\
  creations (calls s') =
    creations (calls s) ++
    (if str_in index_name_const (map name (pinecone s)) then [] else [the_index]) /\
  pinecone s' =
    pinecone s ++
    (if str_in index_name_const (map name (pinecone s)) then [] else [the_index]).
Proof.
  intros H. unfold App.get_vectorstore in H.
  apply bind_Ok_inv in H as (u0 & s0 & Hinit & H).
  apply external_Ok_inv in Hinit. subst s0. cbv zeta in H.
  apply bind_Ok_inv in H as (u1 & s1 & Hensure & H).
  apply bind_Ok_inv in H as (u2 & s2 & Hemb & H).
  apply external_Ok_inv in Hemb. subst s2.
  apply bind_Ok_inv in H as (u3 & s3 & Hup & H).
  apply external_Ok_inv in Hup. subst s3.
  unfold ret in H. inversion H; subst vectorstore s'. clear H.
  apply ensure_index_Ok_inv in Hensure. cbv zeta in Hensure.
  cbn [log pinecone calls session_state page] in Hensure.
  split; [reflexivity|].
  destruct Hensure as [[Hin ->]|[Hin ->]]; rewrite Hin; unfold log;
    cbn [pinecone calls session_state page].
  - split; [exact Hin|]. split; [|split].
    + exists [Pinecone_init pinecone_api_key; list_indexes;
              OpenAIEmbeddings_init api_key].
      now rewrite <- !app_assoc.
    + rewrite !creations_app. cbn. now rewrite !app_nil_r.
    + now rewrite app_nil_r.
  - split.
    { rewrite map_app, str_in_app. cbn [map str_in name].
      rewrite str_eqb_refl. now rewrite orb_true_r. }
    split; [|split].
    + exists [Pinecone_init pinecone_api_key; list_indexes; create_index the_index;
              time_sleep 1; OpenAIEmbeddings_init api_key].
      now rewrite <- !app_assoc.
    + rewrite !creations_app. cbn. now rewrite !app_nil_r.
    + reflexivity.
Qed.

(** X4. Whatever fails on the way, [get_vectorstore] never requests the
    creation of an index when one named [pdf-chat-index] exists, and it
    leaves the set of indexes as it was. *)
Theorem get_vectorstore_never_recreates (text_chunks : list str)
    (api_key pinecone_api_key : str) (s : State) :
  str_in index_name_const (map name (pinecone s)) = true ->
  let s' := snd (get_vectorstore text_chunks api_key pinecone_api_key s) in
  creations (calls s') = creations (calls s) /\ pinecone s' = pinecone s.
Proof.
  intros Hin s'. subst s'.
  unfold App.get_vectorstore, App.ensure_index, App.pc_list_indexes, bind,
    App.external, get_pinecone, ret.
  destruct (fault (Pinecone_init pinecone_api_key) s);
    [cbn; rewrite creations_app; cbn; now rewrite app_nil_r|].
  set (s0 := log (Pinecone_init pinecone_api_key) s).
  destruct (fault list_indexes s0);
    [cbn; rewrite !creations_app; cbn; now rewrite !app_nil_r|].
  cbn [log pinecone]. subst s0. cbn [log pinecone]. rewrite Hin. cbn [negb].
  repeat match goal with
         | |- context [match fault ?c ?s1 with _ => _ end] => destruct (fault c s1)
         end;
    cbn; rewrite !creations_app; cbn; now rewrite !app_nil_r.
Qed.

(** X5. Without both keys, or without a document, the button handler
    refuses: it shows the one error message, the missing keys taking
    precedence over the missing documents, and does nothing else; no
    document is read, no call is made and the session is untouched. *)
Theorem process_documents_refuses (openai_api_key pinecone_api_key : str)
    (pdf_docs : list pdf) (s : State) :
  truthy openai_api_key && truthy pinecone_api_key && truthy pdf_docs = false ->
  process_documents openai_api_key pinecone_api_key pdf_docs s =
    (Ok tt,
     mkState (session_state s) (pinecone s) (calls s)
       (page s ++
        [st_error
           (if truthy openai_api_key && truthy pinecone_api_key
            then py "Please upload at least one PDF!"
            else py "Please provide both API keys!")])).
Proof.
  unfold App.process_documents.
  destruct (truthy openai_api_key), (truthy pinecone_api_key), (truthy pdf_docs);
    cbn [andb orb negb]; intros H; try discriminate; reflexivity.
Qed.

(** The outcome of the button handler: it returns, or lets through the
    exception of a stage that does not derive from [Exception]; the
    session is either as before or holds a newly built chain with an
    empty memory, the ready flag set and the chat history as before. *)
Lemma process_documents_cases (openai_api_key pinecone_api_key : str)
    (pdf_docs : list pdf) (s : State) :
  let r := process_documents openai_api_key pinecone_api_key pdf_docs s in
  (fst r = Ok tt \/
   exists e,
     fst r = Raise e /\ isinstance e "Exception" = false /\
     App.stage_raises pdf page_t PdfReader extract_text fault
       openai_api_key pinecone_api_key pdf_docs s e) /\
  (session_state (snd r) = session_state s \/
   exists chain,
     memory chain = [] /\
     session_state (snd r) =
       mkSession (Some chain) (chat_history (session_state s)) true).
Proof.
  intros r. subst r.
  destruct (truthy openai_api_key && truthy pinecone_api_key && truthy pdf_docs)
    eqn:Hguard.
  2:{ rewrite (process_documents_refuses _ _ _ s Hguard). cbn. auto. }
  apply andb_true_iff in Hguard as [Hguard Hd].
  apply andb_true_iff in Hguard as [Ho Hp].
  assert (Hraise : forall e,
             App.stage_raises pdf page_t PdfReader extract_text fault
               openai_api_key pinecone_api_key pdf_docs s e ->
             (fst (process_documents openai_api_key pinecone_api_key pdf_docs s) = Ok tt \/
              exists e',
                fst (process_documents openai_api_key pinecone_api_key pdf_docs s) =
                  Raise e' /\
                isinstance e' "Exception" = false /\
                App.stage_raises pdf page_t PdfReader extract_text fault
                  openai_api_key pinecone_api_key pdf_docs s e') /\
             session_state
               (snd (process_documents openai_api_key pinecone_api_key pdf_docs s)) =
             session_state s).
  { intros e Hst.
    destruct (process_documents_raise pdf page_t PdfReader extract_text fault
                _ _ _ _ _ Ho Hp Hd Hst) as (s1 & Hs1 & ->).
    destruct (isinstance e "Exception") eqn:Hcls; cbn [fst snd session_state].
    - auto.
    - split; [right; exists e; auto|exact Hs1]. }
  destruct (get_pdf_text pdf_docs) as [raw|e] eqn:Hraw.
  2:{ destruct (Hraise e) as [Hr Hs]; [now apply App.extraction_raises|]. auto. }
  destruct (get_text_chunks raw) as [chunks|e] eqn:Hchunks.
  2:{ destruct (Hraise e) as [Hr Hs]; [now eapply App.chunking_raises; eauto|]. auto. }
  destruct (get_vectorstore chunks openai_api_key pinecone_api_key
              (App.chunks_reported chunks s)) as [[vs|e] s2] eqn:Hvs.
  2:{ destruct (Hraise e) as [Hr Hs]; [|auto].
      eapply App.vectorstore_raises; eauto. now rewrite Hvs. }
  destruct (get_conversation_chain vs openai_api_key s2) as [[chain|e] s3] eqn:Hchain.
  2:{ destruct (Hraise e) as [Hr Hs]; [|auto].
      eapply App.chain_raises; eauto. now rewrite Hchain. }
  assert (Hret : App.stages_return pdf page_t PdfReader extract_text fault
                   openai_api_key pinecone_api_key pdf_docs s chain)
    by (econstructor; eauto).
  destruct (process_documents_return pdf page_t PdfReader extract_text fault
              _ _ _ _ _ Ho Hp Hd Hret) as (s4 & ->).
  cbn [fst snd session_state]. split; [now left|]. right. exists chain.
  split; [|reflexivity].
  now destruct (get_conversation_chain_memory fault _ _ _ _ _ Hchain).
Qed.

(** X6. The button handler lets out only what line 176 does not catch:
    it returns, whatever goes wrong in a stage ending up as an error
    message on the page, or it raises the exception of a stage whose
    class does not derive from [Exception]. *)
Theorem process_documents_raises_only_uncaught
    (openai_api_key pinecone_api_key : str) (pdf_docs : list pdf) (s : State) :
  fst (process_documents openai_api_key pinecone_api_key pdf_docs s) = Ok tt \/
  exists e,
    fst (process_documents openai_api_key pinecone_api_key pdf_docs s) = Raise e /\
    isinstance e "Exception" = false /\
    App.stage_raises pdf page_t PdfReader extract_text fault
      openai_api_key pinecone_api_key pdf_docs s e.
Proof. apply process_documents_cases. Qed.

(** X7. A run of document processing in which every stage returns has
    uploaded exactly the chunks of the extracted text to [pdf-chat-index]
    and has reported their number on the page. *)
Theorem process_documents_uploads_chunks (openai_api_key pinecone_api_key : str)
    (pdf_docs : list pdf) (s : State) (chain : Chain)
    (raw_text : str) (text_chunks : list str) :
  truthy openai_api_key = true -> truthy pinecone_api_key = true ->
  truthy pdf_docs = true ->
  get_pdf_text pdf_docs = Ok raw_text ->
  get_text_chunks raw_text = Ok text_chunks ->
  App.stages_return pdf page_t PdfReader extract_text fault
    openai_api_key pinecone_api_key pdf_docs s chain ->
  let s' := snd (process_documents openai_api_key pinecone_api_key pdf_docs s) in
  In (from_texts text_chunks index_name_const) (calls s') /\
  In (st_info (py "Created " ++ str_of_int (len text_chunks) ++ py " text chunks"))
     (page s') /\
  retriever_store chain = mkVectorStore index_name_const openai_api_key.
Proof.
  intros Ho Hp Hd Hraw Hchunks Hret s'. subst s'.
  pose proof Hret as [raw chunks vs s2 s3 Hraw' Hchunks' Hvs Hchain].
  rewrite Hraw in Hraw'. inversion Hraw'; subst raw.
  rewrite Hchunks in Hchunks'. inversion Hchunks'; subst chunks.
  clear Hraw' Hchunks'.
  pose proof (get_vectorstore_returns _ _ _ _ _ _ Hvs)
    as (Hvs_eq & _ & (earlier & Hcalls) & _ & _).
  destruct (get_conversation_chain_memory fault _ _ _ _ _ Hchain) as (_ & Hstore & _).
  assert (Hrun :
    process_documents openai_api_key pinecone_api_key pdf_docs s =
      (Ok tt,
       mkState (mkSession (Some chain) (chat_history (session_state s3))
                          true)
               (pinecone s3) (calls s3)
               (page s3 ++
                [st_success
                   (py "Documents processed successfully! You can now ask questions.")]))).
  { unfold App.process_documents. rewrite Ho, Hp, Hd. cbn [negb orb].
    unfold try_except, bind, lift. rewrite Hraw, Hchunks.
    match goal with
    | |- context [st (st_info ?m) s] =>
        change (st (st_info m) s) with (@Ok unit tt, App.chunks_reported text_chunks s)
    end. cbv beta iota. rewrite Hvs. cbv beta iota. rewrite Hchain.
    reflexivity. }
  rewrite Hrun. cbn [snd calls page].
  assert (Hgrow : (exists more, calls s3 = calls s2 ++ more) /\ page s3 = page s2).
  { clear - Hchain. unfold App.get_conversation_chain, bind, App.external, ret in Hchain.
    repeat match type of Hchain with
           | context [match fault ?c ?s1 with _ => _ end] =>
               destruct (fault c s1); try discriminate
           end.
    inversion Hchain; subst. unfold log; cbn. split; [|reflexivity].
    eexists. rewrite <- app_assoc. reflexivity. }
  destruct Hgrow as ((more & Hcalls3) & Hpage3).
  assert (Hpage2 : page s2 = page (App.chunks_reported text_chunks s)).
  { clear - Hvs. unfold App.get_vectorstore, App.ensure_index, App.pc_list_indexes,
      App.pc_create_index in Hvs.
    repeat match type of Hvs with
           | bind _ _ _ = (Ok _, _) =>
               let a := fresh "a" in let s1 := fresh "s" in
               let H1 := fresh "H" in
               apply bind_Ok_inv in Hvs as (a & s1 & H1 & Hvs)
           end.
    pose proof (ensure_index_Ok_inv index_name_const _ _ _ H0) as Hens.
    apply external_Ok_inv in H. apply external_Ok_inv in H1.
    apply external_Ok_inv in H2. unfold ret in Hvs. inversion Hvs; subst.
    cbv zeta in Hens. destruct Hens as [[_ ->]|[_ ->]]; reflexivity. }
  split; [|split].
  - rewrite Hcalls3, Hcalls. apply in_or_app. left.
    apply in_or_app. right. apply in_or_app. right. now left.
  - apply in_or_app. left. rewrite Hpage3, Hpage2.
    unfold App.chunks_reported, st. cbn [snd page]. apply in_or_app. right. now left.
  - now rewrite Hstore, Hvs_eq.
Qed.

(** *** Questions, one after the other *)

Lemma handle_userinput_cases (user_question : str) (s : State) :
  let r := handle_userinput user_question s in
  (conversation (session_state s) = None /\
   fst r = Ok tt /\ session_state (snd r) = session_state s) \/
  (exists chain e,
      conversation (session_state s) = Some chain /\
      fault (chain_call user_question) s = Some e /\
      fst r = Raise e /\ session_state (snd r) = session_state s) \/
  (exists chain,
      conversation (session_state s) = Some chain /\
      fault (chain_call user_question) s = None /\
      fst r = Ok tt /\
      let t := mkTurn user_question (r_answer (run_chain s chain user_question)) in
      session_state (snd r) =
        mkSession (Some (set_memory chain (memory chain ++ [t])))
                  (chat_history (session_state s) ++ [t])
                  (processed (session_state s))).
Proof.
  intros r. subst r.
  destruct (conversation (session_state s)) as [chain|] eqn:Hconv.
  - destruct (fault (chain_call user_question) s) as [e|] eqn:Hfault.
    + right. left. exists chain, e.
      rewrite (handle_userinput_raise fault run_chain _ _ _ _ Hconv Hfault).
      cbn. auto.
    + right. right. exists chain.
      rewrite (handle_userinput_answer fault run_chain _ _ _ Hconv Hfault).
      cbn. auto.
  - left. rewrite (handle_userinput_not_ready fault run_chain _ _ Hconv).
    cbn. auto.
Qed.

(** X8. An answered question puts the whole chat history on the page
    again: every recorded turn, oldest first, as a user message followed
    by an assistant message, ending with the new question and its
    answer. *)
Theorem handle_userinput_renders_history (user_question : str) (s : State)
    (chain : Chain) :
  conversation (session_state s) = Some chain ->
  fault (chain_call user_question) s = None ->
  let s' := snd (handle_userinput user_question s) in
  let a := r_answer (run_chain s chain user_question) in
  page s' =
    page s ++ rendered (chat_history (session_state s)) ++
    [st_chat_message (py "user") user_question;
     st_chat_message (py "assistant") a] /\
  len (skipn (length (page s)) (page s')) =
    2 * (len (chat_history (session_state s)) + 1).
Proof.
  intros Hconv Hfault s' a. subst s'.
  rewrite (handle_userinput_answer fault run_chain _ _ _ Hconv Hfault).
  cbn [snd page].
  change (flat_map _ ?h) with (rendered h).
  split.
  - unfold rendered. rewrite flat_map_app. reflexivity.
  - rewrite skipn_app, skipn_all, Nat.sub_diag, skipn_O. cbn [app].
    rewrite len_rendered, len_app. change (len [_]) with 1. lia.
Qed.

(** X9. Two questions answered one after the other are recorded in the
    order asked, in the chat history and in the memory of the chain
    alike: both gain the two turns, first question first. *)
Theorem two_questions_in_order (q1 q2 : str) (s : State) (chain : Chain) :
  conversation (session_state s) = Some chain ->
  fault (chain_call q1) s = None ->
  let s1 := snd (handle_userinput q1 s) in
  fault (chain_call q2) s1 = None ->
  let s2 := snd (handle_userinput q2 s1) in
  exists chain1 chain2 a1 a2,
    conversation (session_state s1) = Some chain1 /\
    conversation (session_state s2) = Some chain2 /\
    a1 = r_answer (run_chain s chain q1) /\
    a2 = r_answer (run_chain s1 chain1 q2) /\
    chat_history (session_state s2) =
      chat_history (session_state s) ++ [mkTurn q1 a1; mkTurn q2 a2] /\
    memory chain2 = memory chain ++ [mkTurn q1 a1; mkTurn q2 a2].
Proof.
  intros Hconv Hf1 s1 Hf2 s2.
  assert (Hs1 : session_state s1 =
                mkSession
                  (Some (set_memory chain
                           (memory chain ++
                            [mkTurn q1 (r_answer (run_chain s chain q1))])))
                  (chat_history (session_state s) ++
                   [mkTurn q1 (r_answer (run_chain s chain q1))])
                  (processed (session_state s))).
  { subst s1. now rewrite (handle_userinput_answer fault run_chain _ _ _ Hconv Hf1). }
  assert (Hconv1 : conversation (session_state s1) =
                   Some (set_memory chain
                           (memory chain ++
                            [mkTurn q1 (r_answer (run_chain s chain q1))])))
    by now rewrite Hs1.
  do 4 eexists. split; [exact Hconv1|].
  subst s2. rewrite (handle_userinput_answer fault run_chain _ _ _ Hconv1 Hf2).
  cbn [snd session_state conversation chat_history]. split; [reflexivity|].
  split; [reflexivity|]. split; [reflexivity|].
  rewrite Hs1. cbn [chat_history set_memory memory].
  now rewrite <- !app_assoc.
Qed.

(** *** What every run of the script keeps *)

Lemma process_documents_preserves (I : SessionState -> Prop)
    (openai_api_key pinecone_api_key : str) (pdf_docs : list pdf) :
  (forall ss chain, I ss -> memory chain = [] ->
                    I (mkSession (Some chain) (chat_history ss) true)) ->
  preserves I (process_documents openai_api_key pinecone_api_key pdf_docs).
Proof.
  intros Hnew s HI.
  destruct (process_documents_cases openai_api_key pinecone_api_key pdf_docs s)
    as (_ & [-> | (chain & Hmem & ->)]); [exact HI|now apply Hnew].
Qed.

Lemma handle_userinput_preserves (I : SessionState -> Prop) (user_question : str) :
  (forall ss chain t,
      I ss -> conversation ss = Some chain ->
      I (mkSession (Some (set_memory chain (memory chain ++ [t])))
                   (chat_history ss ++ [t]) (processed ss))) ->
  preserves I (handle_userinput user_question).
Proof.
  intros Hturn s HI.
  destruct (handle_userinput_cases user_question s)
    as [(_ & _ & ->) | [(chain & e & _ & _ & _ & ->) | (chain & Hconv & _ & _ & ->)]];
    [exact HI|exact HI|now apply Hturn].
Qed.

Lemma main_preserves (I : SessionState -> Prop)
    (openai_api_key pinecone_api_key : str) (pdf_docs : list pdf)
    (button : bool) (user_question : option str) :
  (forall ss chain, I ss -> memory chain = [] ->
                    I (mkSession (Some chain) (chat_history ss) true)) ->
  (forall ss chain t,
      I ss -> conversation ss = Some chain ->
      I (mkSession (Some (set_memory chain (memory chain ++ [t])))
                   (chat_history ss ++ [t]) (processed ss))) ->
  preserves I (main openai_api_key pinecone_api_key pdf_docs button user_question).
Proof.
  intros Hnew Hturn. unfold App.main.
  repeat (first [ apply process_documents_preserves; exact Hnew
                | apply handle_userinput_preserves; exact Hturn
                | apply preserves_keeps; first [ apply keeps_session_st
                                               | apply keeps_session_get
                                               | apply keeps_session_ret_tt ]
                | apply preserves_bind; [|intros ?]
                | match goal with
                  | |- preserves _ (if ?b then _ else _) => destruct b; cbv iota
                  | |- preserves _ (match ?q with Some _ => _ | None => _ end) =>
                      destruct q; cbv iota
                  end ]).
Qed.

(** One run of the script on the values of its widgets. *)
Local Abbreviation run :=
  (fun w : widgets pdf =>
     main (w_openai_api_key w) (w_pinecone_api_key w) (w_pdf_docs w)
          (w_button w) (w_chat_input w)).

Lemma script_runs_preserve (I : SessionState -> Prop) (inputs : list (widgets pdf))
    (s : State) :
  (forall ss chain, I ss -> memory chain = [] ->
                    I (mkSession (Some chain) (chat_history ss) true)) ->
  (forall ss chain t,
      I ss -> conversation ss = Some chain ->
      I (mkSession (Some (set_memory chain (memory chain ++ [t])))
                   (chat_history ss ++ [t]) (processed ss))) ->
  I (session_state s) ->
  I (session_state (script_runs run inputs s)).
Proof.
  intros Hnew Hturn. revert s.
  induction inputs as [|w inputs IH]; intros s HI; [exact HI|].
  cbn [script_runs]. apply IH. now apply main_preserves.
Qed.

(** X10. Through any sequence of script runs, whatever is uploaded,
    pressed, asked or fails, the ready flag of the session is set exactly
    when a conversation chain is installed: the page announces that the
    documents are ready if and only if a question will be passed on to a
    chain. *)
Theorem ready_flag_matches_chain (inputs : list (widgets pdf)) (s : State) :
  ready_flag_ok (session_state s) ->
  ready_flag_ok (session_state (script_runs run inputs s)).
Proof.
  apply script_runs_preserve.
  - intros ss chain _ _. reflexivity.
  - intros ss chain t HI Hconv. unfold ready_flag_ok in *.
    cbn [processed conversation]. now rewrite HI, Hconv.
Qed.

(** X11. Through any sequence of script runs the turns the chain
    remembers are the most recent turns of the chat history shown: the
    memory is always an end of [chat_history], the whole of it until
    documents are processed again. *)
Theorem memory_is_end_of_history (inputs : list (widgets pdf)) (s : State) :
  memory_is_recent (session_state s) ->
  memory_is_recent (session_state (script_runs run inputs s)).
Proof.
  apply script_runs_preserve.
  - intros ss chain _ Hmem chain' [= <-]. cbn [chat_history].
    exists (chat_history ss). now rewrite Hmem, app_nil_r.
  - intros ss chain t HI Hconv chain' [= <-]. cbn [chat_history set_memory memory].
    destruct (HI chain Hconv) as (older & ->).
    exists older. now rewrite app_assoc.
Qed.

(** X12. The only exceptions that can leave a run of the script are
    the one raised by the chain for the question asked in that run, and,
    when the button was pressed, the exception of a processing stage
    that does not derive from [Exception], which line 176 does not
    catch. *)
Theorem main_raises_only_chain_or_uncaught
    (openai_api_key pinecone_api_key : str) (pdf_docs : list pdf)
    (button : bool) (user_question : option str) :
  raises_only
    (fun e =>
       (exists q s1,
           user_question = Some q /\ truthy q = true /\
           fault (chain_call q) s1 = Some e) \/
       (button = true /\ isinstance e "Exception" = false /\
        exists s1,
          App.stage_raises pdf page_t PdfReader extract_text fault
            openai_api_key pinecone_api_key pdf_docs s1 e))
    (main openai_api_key pinecone_api_key pdf_docs button user_question).
Proof.
  unfold App.main.
  repeat (first [ apply raises_only_st | apply raises_only_ret
                | apply raises_only_get_session
                | match goal with
                  | |- raises_only _ (process_documents _ _ _) =>
                      let s1 := fresh "s" in
                      let e := fresh "e" in
                      let He := fresh "He" in
                      intros s1 e He;
                      destruct (process_documents_cases
                                  openai_api_key pinecone_api_key pdf_docs s1)
                        as [[Hr | (e' & Hr & Hcls & Hst)] _];
                      rewrite Hr in He; [discriminate|];
                      inversion He; subst e'; right;
                      split; [reflexivity|]; split; [exact Hcls|];
                      exists s1; exact Hst
                  | Hq : truthy ?q = true |- raises_only _ (handle_userinput ?q) =>
                      let s1 := fresh "s" in
                      let e := fresh "e" in
                      let He := fresh "He" in
                      intros s1 e He;
                      destruct (handle_userinput_cases q s1)
                        as [(_ & Hr & _)
                           | [(chain & e' & _ & Hfault & Hr & _)
                             | (chain & _ & _ & Hr & _)]];
                      rewrite Hr in He; try discriminate;
                      inversion He; subst e'; left; exists q, s1;
                      repeat split; assumption
                  end
                | apply raises_only_bind; [|intros ?]
                | match goal with
                  | |- raises_only _ (if ?b then _ else _) =>
                      destruct b eqn:?; cbv iota
                  | |- raises_only _ (match ?q with Some _ => _ | None => _ end) =>
                      destruct q; cbv iota
                  end ]).
Qed.

End AppMore.

(* ================================================================= *)
(** ** Where the chunks come from *)

Lemma infix_refl (t : str) : infix t t.
Proof. exists [], []. now rewrite app_nil_r. Qed.

Lemma infix_trans (a b c : str) : infix a b -> infix b c -> infix a c.
Proof.
  intros (p & q & ->) (p' & q' & ->). exists (p' ++ p), (q ++ q').
  now rewrite <- !app_assoc.
Qed.

Lemma infix_app_l (a p t : str) : infix a t -> infix a (p ++ t).
Proof. intros (x & y & ->). exists (p ++ x), y. now rewrite <- app_assoc. Qed.

Lemma infix_app_r (a t q : str) : infix a t -> infix a (t ++ q).
Proof. intros (x & y & ->). exists x, (y ++ q). now rewrite <- !app_assoc. Qed.

Lemma infix_In (x : char) (c text : str) : infix c text -> In x c -> In x text.
Proof.
  intros (p & q & ->) Hx. apply in_or_app. right. apply in_or_app. now left.
Qed.

Lemma lstrip_suffix (s : str) : exists p, s = p ++ lstrip s.
Proof.
  induction s as [|c s (p & IH)]; [now exists []|].
  cbn [lstrip]. destruct (isspace c).
  - exists (c :: p). cbn. now rewrite <- IH.
  - now exists [].
Qed.

Lemma lstrip_head (s : str) (x : char) (rest : str) :
  lstrip s = x :: rest -> isspace x = false.
Proof.
  induction s as [|c s IH]; [discriminate|].
  cbn [lstrip]. destruct (isspace c) eqn:Hc; [exact IH|].
  intros [= <- _]. exact Hc.
Qed.

Lemma rstrip_prefix (s : str) : exists q, s = rstrip s ++ q.
Proof.
  unfold rstrip. destruct (lstrip_suffix (rev s)) as (p & Hp).
  exists (rev p). rewrite <- rev_app_distr, <- Hp. now rewrite rev_involutive.
Qed.

Lemma rstrip_last (s front : str) (x : char) :
  rstrip s = front ++ [x] -> isspace x = false.
Proof.
  unfold rstrip. intros H. apply (f_equal (@rev char)) in H.
  rewrite rev_involutive, rev_app_distr in H. cbn in H.
  exact (lstrip_head _ _ _ H).
Qed.

Lemma strip_infix (s : str) : infix (strip s) s.
Proof.
  unfold strip. destruct (lstrip_suffix s) as (p & Hp).
  destruct (rstrip_prefix (lstrip s)) as (q & Hq).
  exists p, q. now rewrite <- Hq.
Qed.

Lemma strip_no_edge_space (s : str) : no_edge_space (strip s).
Proof.
  unfold strip. split.
  - intros x rest H. destruct (rstrip_prefix (lstrip s)) as (q & Hq).
    rewrite H in Hq. cbn in Hq. exact (lstrip_head _ _ _ Hq).
  - intros front x H. exact (rstrip_last _ _ _ H).
Qed.

Lemma concat_filter_truthy (l : list str) : concat (filter truthy l) = concat l.
Proof.
  induction l as [|p l IH]; [reflexivity|].
  cbn [filter]. destruct p as [|c p]; cbn [truthy concat]; [exact IH|].
  now rewrite IH.
Qed.

Lemma startswith_app (p text : str) :
  startswith p text = true -> exists r, text = p ++ r.
Proof.
  revert text. induction p as [|x p IH]; intros text H; [now exists text|].
  destruct text as [|y text]; [discriminate|]. cbn [startswith] in H.
  apply andb_true_iff in H as [Hxy H]. apply N.eqb_eq in Hxy. subst y.
  destruct (IH text H) as (r & ->). now exists r.
Qed.

(** The items [re.split] returns for a capturing pattern make up the
    text again. *)
Lemma concat_re_split (sep text : str) (skip : nat) :
  sep <> [] ->
  concat (TextSplitter.re_split true sep text skip) = skipn skip text.
Proof.
  intros Hsep. revert skip. induction text as [|c text IH]; intros skip.
  - cbn. now destruct skip.
  - cbn [TextSplitter.re_split]. destruct skip as [|k]; [|now rewrite IH].
    destruct (startswith sep (c :: text)) eqn:Hstart.
    + cbn [app concat]. rewrite IH.
      destruct (startswith_app _ _ Hstart) as (r & Hr).
      destruct sep as [|a sep']; [contradiction|].
      cbn [app] in Hr. inversion Hr; subst.
      cbn [length Nat.pred skipn].
      rewrite skipn_app, skipn_all, Nat.sub_diag. reflexivity.
    + specialize (IH 0%nat). cbn [skipn] in *.
      destruct (TextSplitter.re_split true sep text 0) as [|piece pieces].
      * cbn in IH. now subst text.
      * cbn [concat] in *. cbn [app]. now rewrite IH.
Qed.

Lemma concat_separator_first (n : nat) :
  forall l, (length l <= n)%nat -> Nat.even (length l) = true ->
            concat (TextSplitter.separator_first l) = concat l.
Proof.
  induction n as [|n IH]; intros l Hn Heven.
  - destruct l; [reflexivity|cbn in Hn; lia].
  - destruct l as [|s [|piece l]]; [reflexivity|discriminate|].
    cbn [TextSplitter.separator_first concat].
    rewrite IH; [now rewrite <- app_assoc|cbn [length] in Hn; lia|exact Heven].
Qed.

(** With the separators kept, the pieces of a text make up the text. *)
Lemma concat_split_text_with_regex (text separator : str) :
  concat (TextSplitter._split_text_with_regex text separator true) = text.
Proof.
  unfold TextSplitter._split_text_with_regex. rewrite concat_filter_truthy.
  destruct separator as [|a sep]; cbn [truthy]; [apply concat_chars|].
  pose proof (re_split_group_odd (a :: sep) text 0) as Hodd.
  pose proof (concat_re_split (a :: sep) text 0) as Hcat.
  destruct (TextSplitter.re_split true (a :: sep) text 0) as [|t0 rest].
  - discriminate Hodd.
  - cbn [firstn tl app concat]. cbn [length] in Hodd.
    rewrite Nat.odd_succ in Hodd.
    rewrite (concat_separator_first (length rest) rest (le_n _) Hodd).
    apply Hcat. discriminate.
Qed.

Lemma len_In_concat (p : str) (l : list str) : In p l -> len p <= len (concat l).
Proof.
  induction l as [|x l IH]; [contradiction|].
  cbn [concat]. rewrite len_app. pose proof (len_nonneg x).
  pose proof (len_nonneg (concat l)). intros [->|Hin]; [lia|].
  specialize (IH Hin). lia.
Qed.

Lemma chunk_of_infix (a b c : str) : chunk_of a c -> infix a b -> chunk_of b c.
Proof. intros [Hin Hedge] Hab. split; [eapply infix_trans; eauto|exact Hedge]. Qed.

Lemma concat_suffix_infix (p cur : list str) : infix (concat cur) (concat (p ++ cur)).
Proof. rewrite concat_app. apply infix_app_l, infix_refl. Qed.

Lemma concat_prefix_infix (done rest : list str) :
  infix (concat done) (concat (done ++ rest)).
Proof. rewrite concat_app. apply infix_app_r, infix_refl. Qed.

Lemma concat_middle_infix (done rest : list str) (s : str) :
  infix s (concat (done ++ s :: rest)).
Proof. rewrite concat_app. cbn [concat]. now exists (concat done), (concat rest). Qed.

Section Provenance.

Variable self : TextSplitter.t.
Hypothesis strips : TextSplitter._strip_whitespace self = true.

Local Abbreviation chunk_size := (TextSplitter._chunk_size self).

Lemma pop_front_suffix (separator_len _len : Z) (current_doc : list str) :
  forall total kept total',
    TextSplitter.pop_front self separator_len _len current_doc total = Ok (kept, total') ->
    exists dropped, current_doc = dropped ++ kept.
Proof.
  induction current_doc as [|d0 rest IH]; intros total kept total';
    rewrite pop_front_eq;
    match goal with |- (if ?c then _ else _) = _ -> _ => destruct c end;
    intros H; try discriminate.
  - inversion H. now exists [].
  - destruct (IH _ _ _ H) as (dropped & ->). now exists (d0 :: dropped).
  - inversion H. now exists [].
Qed.

Lemma join_docs_chunk_of (current_doc : list str) (c : str) :
  TextSplitter._join_docs self current_doc [] = Some c ->
  chunk_of (concat current_doc) c.
Proof.
  unfold TextSplitter._join_docs. rewrite join_nil, strips.
  destruct (truthy (strip (concat current_doc))); [|discriminate].
  intros [= <-]. split; [apply strip_infix|apply strip_no_edge_space].
Qed.

Lemma emit_prov (done p current_doc docs : list str) :
  done = p ++ current_doc ->
  Forall (chunk_of (concat done)) docs ->
  Forall (chunk_of (concat done))
    match TextSplitter._join_docs self current_doc [] with
    | Some doc => docs ++ [doc]
    | None => docs
    end.
Proof.
  intros Hdone Hdocs.
  destruct (TextSplitter._join_docs self current_doc []) as [doc|] eqn:Hj;
    [|exact Hdocs].
  apply Forall_app. split; [exact Hdocs|]. constructor; [|constructor].
  apply (chunk_of_infix (concat current_doc)); [now apply join_docs_chunk_of|].
  subst done. apply concat_suffix_infix.
Qed.

Lemma merge_prov_grow (done : list str) (d : str) (docs : list str) :
  Forall (chunk_of (concat done)) docs ->
  Forall (chunk_of (concat (done ++ [d]))) docs.
Proof.
  intros H. eapply Forall_impl; [|exact H].
  intros c Hc. eapply chunk_of_infix; [exact Hc|apply concat_prefix_infix].
Qed.

Lemma merge_step_prov (done : list str) (st st' : list str * list str * Z) (d : str) :
  merge_prov done st ->
  TextSplitter.merge_step self [] st d = Ok st' ->
  merge_prov (done ++ [d]) st'.
Proof.
  destruct st as [[docs cur] total]. intros ((p & Hdone) & Hdocs).
  unfold TextSplitter.merge_step. cbv zeta.
  destruct (total + len d + _ >? chunk_size).
  - destruct (0 <? len cur).
    + destruct (TextSplitter.pop_front self (len (@nil char)) (len d) cur total)
        as [[kept total']|e] eqn:Hpop; cbn [rbind]; intros H; inversion H; subst.
      destruct (pop_front_suffix _ _ _ _ _ _ Hpop) as (dropped & ->).
      split.
      * exists (p ++ dropped). now rewrite <- !app_assoc.
      * apply merge_prov_grow. now apply (emit_prov _ p).
    + cbn [rbind]. intros H; inversion H; subst. split.
      * exists p. now rewrite <- app_assoc.
      * now apply merge_prov_grow.
  - cbn [rbind]. intros H; inversion H; subst. split.
    + exists p. now rewrite <- app_assoc.
    + now apply merge_prov_grow.
Qed.

Lemma merge_loop_prov (splits : list str) :
  forall done st st',
    merge_prov done st ->
    foldM (TextSplitter.merge_step self []) splits st = Ok st' ->
    merge_prov (done ++ splits) st'.
Proof.
  induction splits as [|d splits IH]; intros done st st' Hinv Hrun.
  - cbn in Hrun. inversion Hrun; subst. now rewrite app_nil_r.
  - cbn [foldM] in Hrun.
    destruct (TextSplitter.merge_step self [] st d) as [st1|e] eqn:Hstep;
      [|discriminate].
    cbn [rbind] in Hrun.
    replace (done ++ d :: splits) with ((done ++ [d]) ++ splits)
      by now rewrite <- app_assoc.
    eapply IH; [|exact Hrun]. eapply merge_step_prov; eauto.
Qed.

(** Every chunk [_merge_splits] makes is a run of consecutive pieces,
    joined and stripped. *)
Lemma merge_splits_prov (splits docs : list str) :
  TextSplitter._merge_splits self splits [] = Ok docs ->
  Forall (chunk_of (concat splits)) docs.
Proof.
  unfold TextSplitter._merge_splits.
  destruct (foldM _ splits ([], [], 0)) as [[[docs0 cur] total]|e] eqn:Hrun;
    [|discriminate].
  cbn [rbind].
  assert (Hinv : merge_prov ([] ++ splits) (docs0, cur, total)).
  { eapply merge_loop_prov; [|exact Hrun]. split; [now exists []|constructor]. }
  cbn [app] in Hinv. destruct Hinv as ((p & Hdone) & Hdocs).
  pose proof (emit_prov splits p cur docs0 Hdone Hdocs) as Hemit.
  destruct (TextSplitter._join_docs self cur []); intros [= <-]; exact Hemit.
Qed.

Lemma split_prov_flush (text : str) (done p good final merged : list str) :
  infix (concat done) text ->
  done = p ++ good ->
  Forall (chunk_of text) final ->
  TextSplitter._merge_splits self good [] = Ok merged ->
  Forall (chunk_of text) (final ++ merged).
Proof.
  intros Htext Hdone Hfinal Hmerge. apply Forall_app. split; [exact Hfinal|].
  eapply Forall_impl; [|exact (merge_splits_prov _ _ Hmerge)].
  intros c Hc. eapply chunk_of_infix; [exact Hc|].
  eapply infix_trans; [|exact Htext]. subst done. apply concat_suffix_infix.
Qed.

Lemma split_loop_prov (text : str) (recurse : str -> result (list str))
    (new_separators remaining : list str) :
  (truthy new_separators = true ->
   forall s l, recurse s = Ok l -> Forall (chunk_of s) l) ->
  forall done st st',
    infix (concat (done ++ remaining)) text ->
    (truthy new_separators = false ->
     Forall (fun p => len p < chunk_size) remaining) ->
    split_prov text done st ->
    foldM (TextSplitter.split_step self recurse new_separators []) remaining st = Ok st' ->
    split_prov text (done ++ remaining) st'.
Proof.
  intros Hrec. induction remaining as [|s rest IH];
    intros done [final good] st' Htext Hleaf Hinv Hrun.
  - cbn in Hrun. inversion Hrun; subst. now rewrite app_nil_r.
  - assert (Hdone_in : infix (concat done) text).
    { eapply infix_trans; [apply concat_prefix_infix|exact Htext]. }
    assert (Hs_in : infix s text).
    { eapply infix_trans; [apply concat_middle_infix|exact Htext]. }
    assert (Hleaf' : truthy new_separators = false ->
                     Forall (fun p => len p < chunk_size) rest).
    { intros Hns. specialize (Hleaf Hns). now inversion Hleaf. }
    replace (done ++ s :: rest) with ((done ++ [s]) ++ rest) in *
      by now rewrite <- app_assoc.
    destruct Hinv as ((p & Hdone) & Hfinal). cbn [fst snd] in *.
    cbn [foldM] in Hrun. unfold TextSplitter.split_step at 1 in Hrun.
    destruct (len s <? chunk_size) eqn:Hsmall.
    + cbn [rbind] in Hrun. eapply IH; eauto. split; cbn [fst snd]; [|exact Hfinal].
      exists p. subst done. now rewrite <- app_assoc.
    + apply Z.ltb_ge in Hsmall.
      destruct (truthy good) eqn:Hgood.
      * destruct (TextSplitter._merge_splits self good []) as [merged|e] eqn:Hmerge;
          [|discriminate].
        cbn [rbind] in Hrun.
        pose proof (split_prov_flush text done p good final merged
                      Hdone_in Hdone Hfinal Hmerge) as Hflushed.
        destruct (truthy new_separators) eqn:Hns; cbn [negb] in Hrun.
        -- destruct (recurse s) as [other|e] eqn:Hother; [|discriminate].
           cbn [rbind] in Hrun. eapply IH; eauto.
           split; cbn [fst snd]; [now exists (done ++ [s]); rewrite app_nil_r|].
           apply Forall_app. split; [exact Hflushed|].
           eapply Forall_impl; [|exact (Hrec eq_refl s other Hother)].
           intros c Hc. eapply chunk_of_infix; eauto.
        -- specialize (Hleaf eq_refl). inversion Hleaf; subst. lia.
      * cbn [rbind] in Hrun.
        destruct (truthy new_separators) eqn:Hns; cbn [negb] in Hrun.
        -- destruct (recurse s) as [other|e] eqn:Hother; [|discriminate].
           cbn [rbind] in Hrun. eapply IH; eauto.
           apply truthy_false in Hgood. subst good.
           split; cbn [fst snd]; [now exists (done ++ [s]); rewrite app_nil_r|].
           apply Forall_app. split; [exact Hfinal|].
           eapply Forall_impl; [|exact (Hrec eq_refl s other Hother)].
           intros c Hc. eapply chunk_of_infix; eauto.
        -- specialize (Hleaf eq_refl). inversion Hleaf; subst. lia.
Qed.

Lemma split_pieces_prov (text : str) (recurse : str -> result (list str))
    (new_separators pieces chunks : list str) :
  (truthy new_separators = true ->
   forall s l, recurse s = Ok l -> Forall (chunk_of s) l) ->
  (truthy new_separators = false -> Forall (fun p => len p < chunk_size) pieces) ->
  infix (concat pieces) text ->
  TextSplitter.split_pieces self recurse new_separators [] pieces = Ok chunks ->
  Forall (chunk_of text) chunks.
Proof.
  intros Hrec Hleaf Htext. unfold TextSplitter.split_pieces.
  destruct (foldM _ pieces ([], [])) as [[final good]|e] eqn:Hrun; [|discriminate].
  cbn [rbind].
  assert (Hinv : split_prov text ([] ++ pieces) (final, good)).
  { eapply split_loop_prov; eauto. split; [now exists []|constructor]. }
  cbn [app] in Hinv. destruct Hinv as ((p & Hdone) & Hfinal). cbn [fst snd] in *.
  destruct (truthy good).
  - destruct (TextSplitter._merge_splits self good []) as [merged|e] eqn:Hmerge;
      [|discriminate].
    cbn [rbind]. intros [= <-].
    eapply split_prov_flush; eauto.
  - now intros [= <-].
Qed.

Hypothesis keeps_separator : TextSplitter._keep_separator self = true.
Hypothesis room_for_a_character : 1 < chunk_size.

Lemma split_with_prov (recurse : str -> result (list str))
    (separator : str) (new_separators : list str) (text : str) (chunks : list str) :
  (truthy new_separators = true ->
   forall s l, recurse s = Ok l -> Forall (chunk_of s) l) ->
  (truthy new_separators = false -> separator = []) ->
  TextSplitter.split_with self recurse separator new_separators text = Ok chunks ->
  Forall (chunk_of text) chunks.
Proof.
  intros Hrec Hleaf. unfold TextSplitter.split_with. rewrite keeps_separator.
  apply split_pieces_prov; [exact Hrec| |].
  - intros Hns. rewrite (Hleaf Hns).
    unfold TextSplitter._split_text_with_regex. cbn [truthy].
    rewrite filter_truthy_chars. apply Forall_forall. intros p Hp.
    unfold chars in Hp. apply in_map_iff in Hp as (c & <- & _).
    rewrite len_cons, len_nil. lia.
  - rewrite concat_split_text_with_regex. apply infix_refl.
Qed.

Lemma split_from_prov (recurse : list str -> str -> result (list str))
    (separators l : list str) (text : str) (chunks : list str) :
  In [] l ->
  (forall rest s found, (length rest < length l)%nat -> In [] rest ->
                        recurse rest s = Ok found -> Forall (chunk_of s) found) ->
  TextSplitter.split_from self recurse separators l text = Ok chunks ->
  Forall (chunk_of text) chunks.
Proof.
  induction l as [|_s rest IH]; intros Hin Hrec; [destruct Hin|].
  cbn [TextSplitter.split_from].
  destruct _s as [|c _s]; cbn [truthy negb].
  - apply split_with_prov; [discriminate|reflexivity].
  - destruct Hin as [Habs|Hin]; [discriminate|].
    destruct (TextSplitter.re_search (c :: _s) text).
    + apply split_with_prov.
      * intros _ s found. apply Hrec; [cbn [length]; apply Nat.lt_succ_diag_r|exact Hin].
      * destruct rest; [destruct Hin|discriminate].
    + apply IH; [exact Hin|].
      intros rest' s found Hlt. apply Hrec. cbn [length]. now apply Nat.lt_lt_succ_r.
Qed.

(** Every chunk [_split_text] returns is a run of consecutive characters
    of the text, without white space at either end. *)
Lemma _split_text_prov (separators : list str) :
  forall text chunks,
    In [] separators ->
    TextSplitter._split_text self separators text = Ok chunks ->
    Forall (chunk_of text) chunks.
Proof.
  remember (length separators) as n eqn:Hn. revert separators Hn.
  induction n as [n IHn] using (well_founded_induction Wf_nat.lt_wf).
  intros separators -> text chunks Hin. rewrite _split_text_eq.
  apply split_from_prov; [exact Hin|].
  intros rest s found Hlt Hin'. eapply IHn; eauto.
Qed.

End Provenance.

Section PiecesThatFit.

Variable self : TextSplitter.t.

Local Abbreviation chunk_size := (TextSplitter._chunk_size self).

(** Pieces that fit into one chunk together are never cut apart. *)
Lemma merge_no_cut (splits : list str) :
  forall docs current_doc,
    len (concat (current_doc ++ splits)) <= chunk_size ->
    foldM (TextSplitter.merge_step self []) splits
          (docs, current_doc, len (concat current_doc)) =
    Ok (docs, current_doc ++ splits, len (concat (current_doc ++ splits))).
Proof.
  induction splits as [|d splits IH]; intros docs cur Hfit.
  - now rewrite app_nil_r.
  - cbn [foldM]. unfold TextSplitter.merge_step at 1. cbv zeta.
    change (len (@nil char)) with 0. rewrite !sep_if_0.
    assert (Hd : len (concat (cur ++ [d])) = len (concat cur) + len d)
      by (rewrite concat_snoc, len_app; reflexivity).
    assert (Hle : len (concat (cur ++ [d])) <= len (concat (cur ++ d :: splits))).
    { replace (cur ++ d :: splits) with ((cur ++ [d]) ++ splits)
        by now rewrite <- app_assoc.
      rewrite (concat_app (cur ++ [d])), len_app.
      pose proof (len_nonneg (concat splits)). lia. }
    replace (len (concat cur) + len d + 0 >? chunk_size) with false
      by (symmetry; apply gtb_false_iff; lia).
    cbn [rbind]. rewrite ?sep_if_0.
    replace (len (concat cur) + (len d + 0)) with (len (concat (cur ++ [d]))) by lia.
    rewrite IH; rewrite <- app_assoc; [reflexivity|exact Hfit].
Qed.

(** A text that fits into one chunk becomes one chunk, stripped, or no
    chunk at all when nothing is left of it; the separator chosen makes
    no difference. *)
Lemma split_with_short (recurse : str -> result (list str))
    (separator : str) (new_separators : list str) (text : str) :
  TextSplitter._keep_separator self = true ->
  TextSplitter._strip_whitespace self = true ->
  len text < chunk_size ->
  TextSplitter.split_with self recurse separator new_separators text =
  Ok (if truthy (strip text) then [strip text] else []).
Proof.
  intros Hkeep Hstrip Hshort. unfold TextSplitter.split_with. rewrite Hkeep.
  set (pieces := TextSplitter._split_text_with_regex text separator true).
  assert (Hcat : concat pieces = text) by apply concat_split_text_with_regex.
  rewrite split_pieces_small.
  - unfold TextSplitter._merge_splits.
    change (@nil str, @nil str, 0) with (@nil str, @nil str, len (concat (@nil str))).
    rewrite merge_no_cut by (cbn [app]; rewrite Hcat; lia).
    cbn [rbind app]. unfold TextSplitter._join_docs.
    rewrite join_nil, Hcat, Hstrip.
    now destruct (truthy (strip text)).
  - apply Forall_forall. intros p Hp.
    pose proof (len_In_concat p pieces Hp). rewrite Hcat in *. lia.
Qed.

End PiecesThatFit.

Section CharacterTail.

Variable self : TextSplitter.t.
Hypothesis overlap_nonneg : 0 <= TextSplitter._chunk_overlap self.
Hypothesis overlap_room : TextSplitter._chunk_overlap self < TextSplitter._chunk_size self.

Local Abbreviation chunk_size := (TextSplitter._chunk_size self).
Local Abbreviation chunk_overlap := (TextSplitter._chunk_overlap self).
Local Abbreviation fresh_part := (skipn (Z.to_nat (TextSplitter._chunk_overlap self))).

Lemma fresh_part_carried (w r : str) :
  chunk_overlap <= len w -> fresh_part (carried self w ++ r) = r.
Proof.
  intros Hw. pose proof (len_carried self overlap_nonneg w Hw) as Hc.
  rewrite skipn_app.
  replace (Z.to_nat chunk_overlap) with (length (carried self w))
    by (unfold len in Hc; lia).
  now rewrite skipn_all, Nat.sub_diag.
Qed.

(** After a full chunk [w], the characters [r] that follow are spread
    over the chunks so that each character of [r] is new in exactly one
    of them: every chunk but the last is full, and what each adds to the
    characters carried over makes up [r]. *)
Lemma merge_from_full_tail (n : nat) :
  forall (r w : str) (docs : list str),
    (length r <= n)%nat ->
    len w = chunk_size ->
    Forall (fun c => isspace c = false) w ->
    Forall (fun c => isspace c = false) r ->
    r <> [] ->
    exists done cur,
      foldM (TextSplitter.merge_step self []) (chars r) (docs, chars w, len w) =
        Ok (docs ++ w :: done, chars cur, len cur) /\
      cur <> [] /\
      Forall (fun c => isspace c = false) cur /\
      concat (map fresh_part (done ++ [cur])) = r /\
      len r = (chunk_size - chunk_overlap) * len done + (len cur - chunk_overlap) /\
      chunk_overlap < len cur <= chunk_size.
Proof.
  induction n as [|n IH]; intros r w docs Hn Hfull Hw Hr Hne.
  - destruct r; [contradiction|cbn [length] in Hn; lia].
  - set (k := Z.to_nat (chunk_size - chunk_overlap)).
    assert (Hk : (1 <= k)%nat) by (subst k; lia).
    assert (Hcw : len (carried self w) = chunk_overlap)
      by (apply len_carried; lia).
    assert (Hnsc : Forall (fun c => isspace c = false) (carried self w))
      by (unfold carried; now apply Forall_skipn).
    assert (Hr1 : 1 <= len r).
    { destruct r; [contradiction|]. rewrite len_cons.
      pose proof (len_nonneg r). lia. }
    destruct (Nat.le_gt_cases (length r) k) as [Hshort|Hlong].
    + exists [], (carried self w ++ r).
      rewrite (merge_cut_fill self overlap_nonneg overlap_room docs w r Hfull Hw)
        by (unfold len in *; lia).
      split; [reflexivity|]. split.
      { intros Hnil. apply app_eq_nil in Hnil as [_ Hnil]. contradiction. }
      split; [now apply Forall_app|]. split.
      { cbn [app map concat]. rewrite fresh_part_carried by lia.
        apply app_nil_r. }
      rewrite len_app, Hcw, len_nil. unfold len in *. lia.
    + set (r1 := firstn k r). set (r2 := skipn k r).
      assert (Hr12 : r = r1 ++ r2) by (symmetry; apply firstn_skipn).
      assert (Hl1 : length r1 = k) by (subst r1; rewrite length_firstn; lia).
      assert (Hl2 : (length r2 <= n)%nat) by (subst r2; rewrite length_skipn; lia).
      assert (Hne2 : r2 <> []).
      { intros Hnil. apply (f_equal (@length char)) in Hnil.
        subst r2. rewrite length_skipn in Hnil. cbn [length] in Hnil. lia. }
      assert (Hns1 : Forall (fun c => isspace c = false) r1)
        by (rewrite Hr12 in Hr; now apply Forall_app in Hr).
      assert (Hns2 : Forall (fun c => isspace c = false) r2)
        by (rewrite Hr12 in Hr; now apply Forall_app in Hr).
      set (w' := carried self w ++ r1).
      assert (Hfull' : len w' = chunk_size).
      { subst w'. rewrite len_app, Hcw. unfold len. rewrite Hl1. subst k. lia. }
      assert (Hw' : Forall (fun c => isspace c = false) w')
        by (subst w'; now apply Forall_app).
      destruct (IH r2 w' (docs ++ [w]) Hl2 Hfull' Hw' Hns2 Hne2)
        as (done & cur & Hrun & Hcur & Hnscur & Htail & Hlen & Hlast).
      exists (w' :: done), cur.
      rewrite Hr12 at 1. rewrite chars_app, foldM_app.
      rewrite (merge_cut_fill self overlap_nonneg overlap_room docs w r1 Hfull Hw)
        by (unfold len; rewrite Hl1; subst k; lia).
      cbn [rbind]. fold w'. rewrite Hrun. rewrite <- app_assoc. cbn [app].
      split; [reflexivity|]. split; [exact Hcur|]. split; [exact Hnscur|].
      split.
      { cbn [map concat]. rewrite Htail. subst w'.
        rewrite fresh_part_carried by lia. symmetry. exact Hr12. }
      split; [|exact Hlast].
      rewrite Hr12, len_app, Hlen, len_cons.
      replace (len r1) with (chunk_size - chunk_overlap)
        by (unfold len; rewrite Hl1; subst k; lia).
      ring.
Qed.

(** The chunks of a non-empty text without white space: all but the
    last are full, and the first chunk followed by what every later chunk
    adds to its overlap is the text. *)
Lemma merge_chars_reassemble (text : str) :
  Forall (fun c => isspace c = false) text ->
  text <> [] ->
  exists full last,
    TextSplitter._merge_splits self (chars text) [] = Ok (full ++ [last]) /\
    reassemble (Z.to_nat chunk_overlap) (full ++ [last]) = text /\
    (full = [] -> last = text /\ len text <= chunk_size) /\
    (full <> [] ->
     len text = (chunk_size - chunk_overlap) * len full + len last /\
     chunk_overlap < len last <= chunk_size).
Proof.
  intros Hns Hne. unfold TextSplitter._merge_splits.
  change (@nil str, @nil str, 0) with (@nil str, chars [], len (@nil char)).
  set (k := Z.to_nat chunk_size).
  destruct (Nat.le_gt_cases (length text) k) as [Hshort|Hlong].
  - exists [], text.
    rewrite merge_fill by (unfold len; cbn [length]; lia).
    cbn [rbind app]. rewrite (join_docs_chars self text Hne Hns).
    split; [reflexivity|]. split; [cbn; apply app_nil_r|].
    split; [|intros Habs; now contradiction Habs].
    intros _. split; [reflexivity|unfold len; lia].
  - set (t1 := firstn k text). set (r := skipn k text).
    assert (Htext : text = t1 ++ r) by (symmetry; apply firstn_skipn).
    assert (Hl1 : length t1 = k) by (subst t1; rewrite length_firstn; lia).
    assert (Hner : r <> []).
    { intros Hnil. apply (f_equal (@length char)) in Hnil.
      subst r. rewrite length_skipn in Hnil. cbn [length] in Hnil. lia. }
    assert (Hns1 : Forall (fun c => isspace c = false) t1)
      by (rewrite Htext in Hns; now apply Forall_app in Hns).
    assert (Hnsr : Forall (fun c => isspace c = false) r)
      by (rewrite Htext in Hns; now apply Forall_app in Hns).
    assert (Hfull : len t1 = chunk_size) by (unfold len; rewrite Hl1; subst k; lia).
    destruct (merge_from_full_tail (length r) r t1 [] (le_n _) Hfull Hns1 Hnsr Hner)
      as (done & cur & Hrun & Hcur & Hnscur & Htail & Hlen & Hlast).
    exists (t1 :: done), cur.
    rewrite Htext at 1. rewrite chars_app, foldM_app.
    rewrite merge_fill by (unfold len in *; cbn [length]; lia).
    cbn [rbind app]. rewrite Hrun. cbn [rbind app].
    rewrite (join_docs_chars self cur Hcur Hnscur).
    split; [reflexivity|]. split.
    { cbn [reassemble app]. rewrite Htail. symmetry. exact Htext. }
    split; [discriminate|]. intros _. split; [|exact Hlast].
    rewrite Htext, len_app, Hlen, Hfull, len_cons. ring.
Qed.

End CharacterTail.

(** ** What [get_text_chunks] returns, for every text *)

Lemma text_splitter_last_resort : In (@nil char) [[NL; NL]; [NL]; [SP]; []].
Proof. right. right. right. now left. Qed.

(** [get_text_chunks] returns for every text, and each chunk is a part
    of the text of 1 to 1000 characters without white space at its
    ends. *)
Lemma get_text_chunks_chunk_of (text : str) :
  exists chunks,
    get_text_chunks text = Ok chunks /\
    Forall (chunk_of text) chunks /\
    Forall (chunk_ok text_splitter) chunks.
Proof.
  rewrite get_text_chunks_eq.
  destruct (_split_text_ok text_splitter ltac:(cbn; lia) eq_refl ltac:(cbn; lia)
              _ text text_splitter_last_resort) as (chunks & Hrun & Hok).
  exists chunks. split; [exact Hrun|]. split; [|exact Hok].
  apply (_split_text_prov text_splitter eq_refl eq_refl ltac:(cbn; lia)
           _ text chunks text_splitter_last_resort Hrun).
Qed.

(** X13. [get_text_chunks] invents no text: it returns for every text,
    and every chunk it returns is a run of consecutive characters of
    the text. *)
Theorem chunks_are_substrings (text : str) :
  exists chunks,
    get_text_chunks text = Ok chunks /\
    Forall (fun c => infix c text) chunks.
Proof.
  destruct (get_text_chunks_chunk_of text) as (chunks & Hrun & Hof & _).
  exists chunks. split; [exact Hrun|].
  eapply Forall_impl; [|exact Hof]. now intros c [Hin _].
Qed.

(** X14. No chunk that [get_text_chunks] returns begins or ends with a
    white-space character. *)
Theorem chunks_have_no_edge_space (text : str) :
  exists chunks,
    get_text_chunks text = Ok chunks /\
    Forall no_edge_space chunks.
Proof.
  destruct (get_text_chunks_chunk_of text) as (chunks & Hrun & Hof & _).
  exists chunks. split; [exact Hrun|].
  eapply Forall_impl; [|exact Hof]. now intros c [_ Hedge].
Qed.

(** X15. A text made of white space only, of any length, has no chunks:
    [get_text_chunks] returns the empty list. *)
Theorem blank_text_has_no_chunks (text : str) :
  Forall (fun c => isspace c = true) text ->
  get_text_chunks text = Ok [].
Proof.
  intros Hblank.
  destruct (get_text_chunks_chunk_of text) as (chunks & Hrun & Hof & Hok).
  rewrite Hrun. destruct chunks as [|c rest]; [reflexivity|exfalso].
  apply Forall_inv in Hof. apply Forall_inv in Hok.
  destruct Hof as [Hin [Hhead _]]. unfold chunk_ok in Hok.
  destruct c as [|x c]; [rewrite len_nil in Hok; lia|].
  specialize (Hhead x c eq_refl).
  assert (Hx : In x text) by (apply (infix_In x (x :: c) text Hin); now left).
  rewrite Forall_forall in Hblank. specialize (Hblank x Hx). congruence.
Qed.

(** X16. A text of fewer than 1000 characters is not cut: it is
    returned as one chunk, with the white space at its ends removed, or
    as no chunk when nothing else is in it. *)
Theorem short_text_is_one_chunk (text : str) :
  len text < 1000 ->
  get_text_chunks text = Ok (if truthy (strip text) then [strip text] else []).
Proof.
  intros Hshort. rewrite get_text_chunks_eq, _split_text_find.
  cbn [TextSplitter.find_separator truthy negb].
  repeat match goal with
         | |- context [TextSplitter.re_search ?s text] =>
             destruct (TextSplitter.re_search s text)
         end;
    apply split_with_short; solve [reflexivity | exact Hshort].
Qed.

(** X17. Nothing is lost of a text without white space: the first chunk
    followed by what each later chunk has after its first 200 characters
    is the text. *)
Theorem chunks_reassemble (text : str) :
  Forall (fun c => isspace c = false) text ->
  exists chunks,
    get_text_chunks text = Ok chunks /\
    reassemble 200 chunks = text.
Proof.
  intros Hns. rewrite (no_separator_chunks text Hns).
  destruct text as [|x text]; [now exists []|].
  destruct (merge_chars_reassemble text_splitter ltac:(cbn; lia) ltac:(cbn; lia)
              (x :: text) Hns ltac:(discriminate))
    as (full & last & Hrun & Hre & _).
  exists (full ++ [last]). split; [exact Hrun|exact Hre].
Qed.

(** X18. The number of chunks of a text of [n] characters without white
    space: none for the empty text, one up to 1000 characters, and
    [(n - 201) / 800 + 1] beyond, one more chunk for every 800 further
    characters. *)
Theorem chunk_count (text : str) :
  Forall (fun c => isspace c = false) text ->
  exists chunks,
    get_text_chunks text = Ok chunks /\
    len chunks =
      if len text =? 0 then 0
      else if len text <=? 1000 then 1
      else (len text - 201) / 800 + 1.
Proof.
  intros Hns. rewrite (no_separator_chunks text Hns).
  destruct text as [|x text]; [now exists []|].
  destruct (merge_chars_reassemble text_splitter ltac:(cbn; lia) ltac:(cbn; lia)
              (x :: text) Hns ltac:(discriminate))
    as (full & last & Hrun & _ & Hone & Hmore).
  exists (full ++ [last]). split; [exact Hrun|].
  cbn [TextSplitter._chunk_size TextSplitter._chunk_overlap text_splitter] in *.
  set (n := len (x :: text)) in *.
  assert (Hn : 1 <= n).
  { subst n. rewrite len_cons. pose proof (len_nonneg text). lia. }
  replace (n =? 0) with false by (symmetry; apply Z.eqb_neq; lia).
  rewrite len_app. change (len [last]) with 1.
  destruct full as [|c full].
  - destruct (Hone eq_refl) as [_ Hle].
    replace (n <=? 1000) with true by (symmetry; apply Z.leb_le; lia).
    reflexivity.
  - destruct (Hmore ltac:(discriminate)) as [Hlen Hlast].
    pose proof (len_nonneg full). rewrite len_cons in *.
    replace (n <=? 1000) with false by (symmetry; apply Z.leb_gt; lia).
    assert (Hdiv : (n - 201) / 800 = 1 + len full).
    { symmetry. apply (Z.div_unique (n - 201) 800 (1 + len full) (len last - 201)); lia. }
    lia.
Qed.

(* ================================================================= *)
(** ** The validation script *)

Section TestSetupFacts.

Variable version : TestSetup.version_info.
Variable __import__ : str -> option exn.
Variable import_name : str -> str -> option exn.
Variable getenv : str -> option str.

Import TestSetup.

Local Abbreviation check_python_version := (TestSetup.check_python_version version).
Local Abbreviation check_package := (TestSetup.check_package __import__).
Local Abbreviation for_packages := (TestSetup.for_packages __import__).
Local Abbreviation check_dependencies := (TestSetup.check_dependencies __import__).
Local Abbreviation check_environment :=
  (TestSetup.check_environment __import__ import_name getenv).
Local Abbreviation main := (TestSetup.main version __import__ import_name getenv).
Local Abbreviation installed := (TestSetup.installed __import__).
Local Abbreviation report := (TestSetup.report __import__).
Local Abbreviation imports_fail_cleanly := (TestSetup.imports_fail_cleanly __import__).
Local Abbreviation python_3_8 := (TestSetup.python_3_8 version).
Local Abbreviation all_installed := (TestSetup.all_installed __import__).

Lemma check_python_version_run (out : list str) :
  exists (python_ok : bool) (lines : list str),
    check_python_version out = (Ok python_ok, out ++ lines) /\
    Forall no_verdict lines /\
    (python_ok = true <-> python_3_8).
Proof.
  unfold TestSetup.check_python_version, pbind, print, pret.
  set (vline := [10003%N] ++ _).
  assert (Hv : no_verdict vline) by (split; subst vline; cbn [app]; discriminate).
  unfold TestSetup.python_3_8.
  destruct (_ || _) eqn:Hcond.
  - exists false, [vline; [10060%N] ++ py " Python 3.8 or higher required"].
    rewrite <- app_assoc. split; [reflexivity|]. split.
    + repeat constructor; try apply Hv; discriminate.
    + split; [discriminate|]. intros Hok. exfalso.
      apply orb_true_iff in Hcond as [H|H].
      * apply Z.ltb_lt in H. lia.
      * apply andb_true_iff in H as [H1 H2].
        apply Z.eqb_eq in H1. apply Z.ltb_lt in H2. lia.
  - exists true, [vline]. split; [reflexivity|]. split; [repeat constructor; apply Hv|].
    split; [|reflexivity]. intros _.
    apply orb_false_iff in Hcond as [H1 H2].
    apply Z.ltb_ge in H1. apply andb_false_iff in H2.
    destruct H2 as [H2|H2]; [apply Z.eqb_neq in H2|apply Z.ltb_ge in H2]; lia.
Qed.

Lemma package_lines_no_verdict (entry : str * str) :
  In entry required_packages ->
  no_verdict ([10003%N] ++ py " " ++ snd entry ++ py " installed") /\
  no_verdict ([10060%N] ++ py " " ++ snd entry ++ py " NOT installed").
Proof.
  intros Hin. unfold required_packages in Hin. cbn [In] in Hin.
  repeat (destruct Hin as [<-|Hin]; [repeat split; discriminate|]).
  contradiction.
Qed.

Lemma report_no_verdict (entry : str * str) :
  In entry required_packages -> no_verdict (report entry).
Proof.
  intros Hin. destruct (package_lines_no_verdict entry Hin) as [Hyes Hno].
  unfold TestSetup.report. now destruct (TestSetup.installed _ _).
Qed.

(** The loop of [check_dependencies] when every failure is an
    [ImportError]: one line for each package, and the conjunction of
    the outcomes. *)
Lemma for_packages_run (l : list (str * str)) :
  imports_fail_cleanly l ->
  forall acc out,
    for_packages l acc out =
    (Ok (acc && forallb (fun entry => installed (fst entry)) l),
     out ++ map report l).
Proof.
  induction l as [|[package name] l IH]; intros Hclean acc out.
  - cbn. now rewrite andb_true_r, app_nil_r.
  - assert (Hl : imports_fail_cleanly l)
      by (intros entry e Hin; apply Hclean; now right).
    cbn [TestSetup.for_packages map forallb fst].
    unfold pbind at 1. unfold TestSetup.check_package, TestSetup.report, TestSetup.installed.
    cbn [fst snd].
    destruct (__import__ package) as [e|] eqn:Himp.
    + rewrite (Hclean (package, name) e (or_introl eq_refl) Himp).
      unfold pbind, print, pret. rewrite (IH Hl). cbn [andb].
      rewrite andb_false_r, <- app_assoc. reflexivity.
    + unfold pbind, print, pret. rewrite (IH Hl). cbn [andb].
      rewrite <- app_assoc. reflexivity.
Qed.

(** The loop of [check_dependencies] whatever the imports do: it
    returns or raises, and prints no verdict. *)
Lemma for_packages_quiet (l : list (str * str)) :
  incl l required_packages ->
  forall acc out,
    exists r lines,
      for_packages l acc out = (r, out ++ lines) /\ Forall no_verdict lines.
Proof.
  induction l as [|[package name] l IH]; intros Hincl acc out.
  - exists (Ok acc), []. cbn. now rewrite app_nil_r.
  - assert (Hl : incl l required_packages)
      by (intros entry Hin; apply Hincl; now right).
    destruct (package_lines_no_verdict (package, name) (Hincl _ (or_introl eq_refl)))
      as [Hyes Hno]. cbn [snd] in Hyes, Hno.
    cbn [TestSetup.for_packages]. unfold pbind at 1. unfold TestSetup.check_package.
    destruct (__import__ package) as [e|] eqn:Himp.
    + destruct (is_ImportError e).
      * unfold pbind, print, pret.
        match goal with
        | |- context [TestSetup.for_packages _ l ?a ?o] =>
            destruct (IH Hl a o) as (r & lines & Hrun & Hq)
        end.
        exists r, (([10060%N] ++ py " " ++ name ++ py " NOT installed") :: lines).
        rewrite Hrun, <- app_assoc. split; [reflexivity|now constructor].
      * exists (Raise e), []. unfold praise. now rewrite app_nil_r.
    + unfold pbind, print, pret.
      match goal with
      | |- context [TestSetup.for_packages _ l ?a ?o] =>
          destruct (IH Hl a o) as (r & lines & Hrun & Hq)
      end.
      exists r, (([10003%N] ++ py " " ++ name ++ py " installed") :: lines).
      rewrite Hrun, <- app_assoc. split; [reflexivity|now constructor].
Qed.

(** The first import that raises something else than an [ImportError]
    ends the loop. *)
Lemma for_packages_escape (before after : list (str * str)) (entry : str * str) (e : exn) :
  imports_fail_cleanly before ->
  __import__ (fst entry) = Some e ->
  is_ImportError e = false ->
  forall acc out,
    for_packages (before ++ entry :: after) acc out =
    (Raise e, out ++ map report before).
Proof.
  intros Hclean Himp Hother.
  induction before as [|[package name] before IH]; intros acc out.
  - destruct entry as [package name]. cbn [app TestSetup.for_packages map fst] in *.
    unfold pbind, TestSetup.check_package. rewrite Himp, Hother.
    unfold praise. now rewrite app_nil_r.
  - assert (Hl : imports_fail_cleanly before)
      by (intros en e' Hin; apply Hclean; now right).
    cbn [app TestSetup.for_packages map].
    unfold pbind at 1. unfold TestSetup.check_package, TestSetup.report, TestSetup.installed.
    cbn [fst snd].
    destruct (__import__ package) as [e'|] eqn:Himp'.
    + rewrite (Hclean (package, name) e' (or_introl eq_refl) Himp').
      unfold pbind at 1. unfold print, pret. rewrite (IH Hl), <- app_assoc. reflexivity.
    + unfold pbind at 1. unfold print, pret. rewrite (IH Hl), <- app_assoc. reflexivity.
Qed.

Lemma forallb_installed :
  forallb (fun entry => installed (fst entry)) required_packages = true <->
  all_installed.
Proof.
  rewrite forallb_forall. unfold TestSetup.all_installed, TestSetup.installed.
  split; intros H entry Hin; specialize (H entry Hin);
    destruct (__import__ (fst entry)); congruence.
Qed.

Lemma no_verdict_In (lines : list str) :
  Forall no_verdict lines -> ~ In PASSED lines /\ ~ In FAILED lines.
Proof.
  rewrite Forall_forall. intros H.
  split; intros Hin; destruct (H _ Hin) as [H1 H2]; congruence.
Qed.

Lemma dotenv_required : In (py "dotenv", py "python-dotenv") required_packages.
Proof. unfold required_packages. cbn [In]. intuition. Qed.

(** The run of [main] up to the verdict. *)
Lemma main_run (out : list str) :
  imports_fail_cleanly required_packages ->
  __import__ (py "dotenv") = None ->
  import_name (py "dotenv") (py "load_dotenv") = None ->
  exists (ok : bool) (body : list str),
    main out =
      (Ok tt,
       out ++ body ++
       (if ok
        then [PASSED; py "You're ready to run: streamlit run pdf_chat_app.py"]
        else [FAILED; py "Please install missing dependencies:";
              py "pip install -r requirements.txt"]) ++
       [str_mul (py "=") 50]) /\
    Forall no_verdict body /\
    (ok = true <-> python_3_8 /\ all_installed).
Proof.
  intros Hclean Hdotenv Hname.
  unfold TestSetup.main.
  unfold pbind at 1 2 3 4 5 6. unfold print at 1 2 3 4 5.
  match goal with
  | |- context [TestSetup.check_python_version _ ?o] =>
      destruct (check_python_version_run o) as (python_ok & vlines & Hvrun & Hvq & Hvok)
  end.
  rewrite Hvrun.
  unfold pbind at 1 2 3. unfold print at 1 2.
  unfold TestSetup.check_dependencies. rewrite (for_packages_run _ Hclean).
  cbn [andb].
  set (deps_ok := forallb _ _).
  unfold pbind at 1 2 3. unfold print at 1 2.
  unfold TestSetup.check_environment, TestSetup.from_import.
  rewrite Hdotenv, Hname.
  exists (python_ok && deps_ok),
    ([str_mul (py "=") 50; py "PDF Chat RAG - Setup Validation"; str_mul (py "=") 50;
      []; py "Checking Python version..."] ++ vlines ++
     [[]; py "Checking dependencies..."] ++ map report required_packages ++
     [[]; py "Checking environment variables..."] ++
     [if key_found (getenv (py "OPENAI_API_KEY"))
      then [10003%N] ++ py " OpenAI API key found in environment"
      else [9888%N] ++ py " OpenAI API key not found (can be entered in UI)"] ++
     [if key_found (getenv (py "PINECONE_API_KEY"))
      then [10003%N] ++ py " Pinecone API key found in environment"
      else [9888%N] ++ py " Pinecone API key not found (can be entered in UI)"] ++
     [[]; str_mul (py "=") 50]).
  split; [|split].
  - destruct (key_found (getenv (py "OPENAI_API_KEY")));
      destruct (key_found (getenv (py "PINECONE_API_KEY")));
      destruct (python_ok && deps_ok); unfold pbind, print, pret;
      repeat rewrite <- app_assoc; reflexivity.
  - repeat (apply Forall_app; split); try assumption;
      try (repeat constructor; discriminate).
    + apply Forall_forall. intros line Hin.
      apply in_map_iff in Hin as (entry & <- & Hin).
      now apply report_no_verdict.
    + destruct (key_found _); repeat constructor; discriminate.
    + destruct (key_found _); repeat constructor; discriminate.
  - rewrite andb_true_iff, Hvok. subst deps_ok. now rewrite forallb_installed.
Qed.

(** X19. When every failing import fails with an [ImportError],
    [check_dependencies] returns after one line for each of the nine
    packages, in the order of the table, a missing package not stopping
    the check of the later ones; it returns [True] exactly when all
    nine are imported. *)
Theorem check_dependencies_reports_every_package (out : list str) :
  imports_fail_cleanly required_packages ->
  exists all_ok,
    check_dependencies out = (Ok all_ok, out ++ map report required_packages) /\
    (all_ok = true <-> all_installed).
Proof.
  intros Hclean. unfold TestSetup.check_dependencies.
  rewrite (for_packages_run _ Hclean). cbn [andb].
  eexists. split; [reflexivity|]. apply forallb_installed.
Qed.

(** X20. An import that raises something else than an [ImportError] is
    not caught: [check_dependencies] raises it after the lines of the
    packages before, and the packages after it are not checked. *)
Theorem check_dependencies_lets_other_errors_through
    (before after : list (str * str)) (entry : str * str) (e : exn) (out : list str) :
  required_packages = before ++ entry :: after ->
  imports_fail_cleanly before ->
  __import__ (fst entry) = Some e ->
  is_ImportError e = false ->
  check_dependencies out = (Raise e, out ++ map report before).
Proof.
  intros Hsplit Hclean Himp Hother. unfold TestSetup.check_dependencies.
  rewrite Hsplit. now apply for_packages_escape.
Qed.

(** X21. When [python-dotenv] cannot be imported the script never
    reaches its verdict: [main] ends with an exception, and neither the
    line that the validation passed nor the line that it failed is
    printed. *)
Theorem main_without_dotenv_has_no_verdict (e : exn) :
  __import__ (py "dotenv") = Some e ->
  exists e' lines,
    main [] = (Raise e', lines) /\
    ~ In PASSED lines /\ ~ In FAILED lines.
Proof.
  intros Hdotenv. unfold TestSetup.main.
  unfold pbind at 1 2 3 4 5 6. unfold print at 1 2 3 4 5.
  match goal with
  | |- context [TestSetup.check_python_version _ ?o] =>
      destruct (check_python_version_run o) as (python_ok & vlines & Hvrun & Hvq & _)
  end.
  rewrite Hvrun.
  unfold pbind at 1 2 3. unfold print at 1 2.
  unfold TestSetup.check_dependencies.
  match goal with
  | |- context [TestSetup.for_packages _ ?l ?acc ?o] =>
      destruct (for_packages_quiet l (incl_refl _) acc o) as (r & dlines & Hdrun & Hdq)
  end.
  rewrite Hdrun.
  destruct r as [deps_ok|e'].
  - unfold pbind at 1 2 3. unfold print at 1 2.
    unfold TestSetup.check_environment, TestSetup.from_import. rewrite Hdotenv.
    unfold pbind, praise.
    eexists e, _. split; [reflexivity|].
    apply no_verdict_In. cbn [app]. repeat rewrite <- app_assoc. cbn [app].
    repeat first [ assumption
                 | apply Forall_nil
                 | apply Forall_cons; [split; discriminate|]
                 | apply Forall_app; split ].
  - eexists e', _. split; [reflexivity|].
    apply no_verdict_In. cbn [app]. repeat rewrite <- app_assoc. cbn [app].
    repeat first [ assumption
                 | apply Forall_nil
                 | apply Forall_cons; [split; discriminate|]
                 | apply Forall_app; split ].
Qed.

(** X22. When [python-dotenv] is there and no import fails with
    anything but an [ImportError], [main] returns with exactly one
    verdict: it prints that the validation passed when the interpreter is
    Python 3.8 or later and all nine packages are imported, and that it
    failed otherwise. The keys in the environment play no role. *)
Theorem main_verdict :
  imports_fail_cleanly required_packages ->
  __import__ (py "dotenv") = None ->
  import_name (py "dotenv") (py "load_dotenv") = None ->
  exists lines,
    main [] = (Ok tt, lines) /\
    (In PASSED lines <-> python_3_8 /\ all_installed) /\
    (In FAILED lines <-> ~ (python_3_8 /\ all_installed)).
Proof.
  intros Hclean Hdotenv Hname.
  destruct (main_run [] Hclean Hdotenv Hname) as (ok & body & Hrun & Hq & Hok).
  eexists. split; [exact Hrun|].
  destruct (no_verdict_In body Hq) as [HnP HnF].
  cbn [app]. rewrite !in_app_iff.
  destruct ok; cbn [In].
  - split; split.
    + intros _. now apply Hok.
    + intros _. right. left. now left.
    + intros [H|[[H|[H|[]]]|[H|[]]]]; try contradiction; discriminate.
    + intros Hnot. exfalso. apply Hnot. now apply Hok.
  - split; split.
    + intros [H|[[H|[H|[H|[]]]]|[H|[]]]]; try contradiction; discriminate.
    + intros Hready. apply Hok in Hready. discriminate.
    + intros _ Hready. apply Hok in Hready. discriminate.
    + intros _. right. left. now left.
Qed.

End TestSetupFacts.

(* ================================================================= *)
(** ** The further theorems at sample inputs *)

Lemma get_pdf_text_concat_witness :
  App.get_pdf_text str str Sample.PdfReader Sample.extract_text
    [py "X is a letter. "; py "It is defined on page 1."] =
  Ok (py "X is a letter. It is defined on page 1.").
Proof.
  apply (get_pdf_text_concat str str Sample.PdfReader Sample.extract_text
           (fun d => [d]) (fun p => p)
           [py "X is a letter. "; py "It is defined on page 1."]);
    intros; reflexivity.
Defined.

Lemma get_pdf_text_first_failure_witness :
  App.get_pdf_text str str
    (fun d => if truthy d then Ok [d] else Raise Sample.timeout) Sample.extract_text
    ([py "X is a letter."] ++ [] :: [py "It is defined on page 1."]) =
  Raise Sample.timeout.
Proof.
  apply (get_pdf_text_first_failure str str
           (fun d => if truthy d then Ok [d] else Raise Sample.timeout)
           Sample.extract_text (fun d => [d]) (fun p => p)
           [py "X is a letter."] [py "It is defined on page 1."] []
           Sample.timeout).
  - intros d [<-|[]]. reflexivity.
  - intros d p _ _. reflexivity.
  - left. reflexivity.
Defined.

Lemma get_vectorstore_returns_witness :
  pinecone
    (snd (App.get_vectorstore Sample.no_fault [py "X is a letter."]
            (py "sk-test") (py "pc-test") Sample.fresh)) =
  [mkIndex index_name_const 1536 (py "cosine") (py "aws") (py "us-east-1")].
Proof.
  destruct (get_vectorstore_returns Sample.no_fault [py "X is a letter."]
              (py "sk-test") (py "pc-test") Sample.fresh
              (snd (App.get_vectorstore Sample.no_fault [py "X is a letter."]
                      (py "sk-test") (py "pc-test") Sample.fresh))
              (mkVectorStore index_name_const (py "sk-test")) eq_refl)
    as (_ & _ & _ & _ & Hpinecone).
  exact Hpinecone.
Defined.

Lemma get_vectorstore_never_recreates_witness :
  str_in index_name_const (map name (pinecone Sample.ready)) = true /\
  creations
    (calls (snd (App.get_vectorstore Sample.no_fault [py "X is a letter."]
                   (py "sk-test") (py "pc-test") Sample.ready))) = [] /\
  pinecone (snd (App.get_vectorstore Sample.no_fault [py "X is a letter."]
                   (py "sk-test") (py "pc-test") Sample.ready)) =
  pinecone Sample.ready.
Proof.
  split; [reflexivity|].
  exact (get_vectorstore_never_recreates Sample.no_fault [py "X is a letter."]
           (py "sk-test") (py "pc-test") Sample.ready eq_refl).
Defined.

Lemma process_documents_refuses_witness :
  page (snd (App.process_documents str str Sample.PdfReader Sample.extract_text
               Sample.no_fault (py "sk-test") [] Sample.docs Sample.fresh)) =
  [st_error (py "Please provide both API keys!")].
Proof.
  rewrite (process_documents_refuses str str Sample.PdfReader Sample.extract_text
             Sample.no_fault (py "sk-test") [] Sample.docs Sample.fresh eq_refl).
  reflexivity.
Defined.

Lemma process_documents_uploads_chunks_witness :
  In (from_texts [py "X is a letter. It is defined on page 1."] index_name_const)
     (calls (snd (App.process_documents str str Sample.PdfReader Sample.extract_text
                    Sample.no_fault (py "sk-test") (py "pc-test") Sample.docs
                    Sample.ready))) /\
  In (st_info (py "Created 1 text chunks"))
     (page (snd (App.process_documents str str Sample.PdfReader Sample.extract_text
                   Sample.no_fault (py "sk-test") (py "pc-test") Sample.docs
                   Sample.ready))).
Proof.
  destruct (process_documents_uploads_chunks str str Sample.PdfReader
              Sample.extract_text Sample.no_fault (py "sk-test") (py "pc-test")
              Sample.docs Sample.ready Sample.new_chain
              (py "X is a letter. It is defined on page 1.")
              [py "X is a letter. It is defined on page 1."]
              eq_refl eq_refl eq_refl eq_refl
              ltac:(vm_compute; reflexivity) all_stages_return_again)
    as (Hupload & Hinfo & _).
  split; [exact Hupload|exact Hinfo].
Defined.

Lemma handle_userinput_renders_history_witness :
  conversation (session_state Sample.ready) = Some (Sample.a_chain [Sample.a_turn]) /\
  page (snd (App.handle_userinput Sample.no_fault Sample.run_chain
               (py "Where is X defined?") Sample.ready)) =
  [st_chat_message (py "user") (py "What is X?");
   st_chat_message (py "assistant") (py "X is defined on page 1.");
   st_chat_message (py "user") (py "Where is X defined?");
   st_chat_message (py "assistant") (py "X is defined on page 1.")].
Proof.
  split; [reflexivity|].
  destruct (handle_userinput_renders_history Sample.no_fault Sample.run_chain
              (py "Where is X defined?") Sample.ready (Sample.a_chain [Sample.a_turn])
              eq_refl eq_refl) as (Hpage & _).
  exact Hpage.
Defined.

Lemma two_questions_in_order_witness :
  chat_history
    (session_state
       (snd (App.handle_userinput Sample.no_fault Sample.run_chain (py "Why?")
               (snd (App.handle_userinput Sample.no_fault Sample.run_chain
                       (py "Where is X defined?") Sample.ready))))) =
  [Sample.a_turn;
   mkTurn (py "Where is X defined?") (py "X is defined on page 1.");
   mkTurn (py "Why?") (py "X is defined on page 1.")].
Proof.
  destruct (two_questions_in_order Sample.no_fault Sample.run_chain
              (py "Where is X defined?") (py "Why?") Sample.ready
              (Sample.a_chain [Sample.a_turn]) eq_refl eq_refl eq_refl)
    as (chain1 & chain2 & a1 & a2 & _ & _ & -> & -> & Hhistory & _).
  exact Hhistory.
Defined.

Lemma ready_flag_matches_chain_witness :
  ready_flag_ok (session_state Sample.fresh) /\
  ready_flag_ok
    (session_state
       (script_runs
          (fun w : widgets str =>
             App.main str str Sample.PdfReader Sample.extract_text Sample.upload_fails
               Sample.run_chain (w_openai_api_key w) (w_pinecone_api_key w)
               (w_pdf_docs w) (w_button w) (w_chat_input w))
          [mkWidgets (py "sk-test") (py "pc-test") Sample.docs true None;
           mkWidgets (py "sk-test") (py "pc-test") Sample.docs false
                     (Some (py "What is X?"))]
          Sample.fresh)).
Proof.
  split; [reflexivity|].
  apply (ready_flag_matches_chain str str Sample.PdfReader Sample.extract_text
           Sample.upload_fails Sample.run_chain).
  reflexivity.
Defined.

Lemma ready_history_ends_with_memory : memory_is_recent (session_state Sample.ready).
Proof. intros chain [= <-]. now exists []. Defined.

Lemma memory_is_end_of_history_witness :
  memory_is_recent (session_state Sample.ready) /\
  memory_is_recent
    (session_state
       (script_runs
          (fun w : widgets str =>
             App.main str str Sample.PdfReader Sample.extract_text Sample.no_fault
               Sample.run_chain (w_openai_api_key w) (w_pinecone_api_key w)
               (w_pdf_docs w) (w_button w) (w_chat_input w))
          [mkWidgets (py "sk-test") (py "pc-test") Sample.docs false
                     (Some (py "Where is X defined?"));
           mkWidgets (py "sk-test") (py "pc-test") Sample.docs true
                     (Some (py "Why?"))]
          Sample.ready)).
Proof.
  split; [exact ready_history_ends_with_memory|].
  apply (memory_is_end_of_history str str Sample.PdfReader Sample.extract_text
           Sample.no_fault Sample.run_chain).
  exact ready_history_ends_with_memory.
Defined.

Lemma main_raises_only_chain_or_uncaught_witness :
  fst (App.main str str Sample.PdfReader Sample.extract_text Sample.interrupted
         Sample.run_chain (py "sk-test") (py "pc-test") Sample.docs true
         (Some (py "What is X?")) Sample.ready) = Raise Sample.interrupt /\
  ((exists q s1,
       Some (py "What is X?") = Some q /\ truthy q = true /\
       Sample.interrupted (chain_call q) s1 = Some Sample.interrupt) \/
   (true = true /\ isinstance Sample.interrupt "Exception" = false /\
    exists s1,
      App.stage_raises str str Sample.PdfReader Sample.extract_text Sample.interrupted
        (py "sk-test") (py "pc-test") Sample.docs s1 Sample.interrupt)).
Proof.
  split; [vm_compute; reflexivity|].
  apply (main_raises_only_chain_or_uncaught str str Sample.PdfReader
           Sample.extract_text Sample.interrupted Sample.run_chain
           (py "sk-test") (py "pc-test") Sample.docs true
           (Some (py "What is X?")) Sample.ready Sample.interrupt).
  vm_compute. reflexivity.
Defined.

Lemma blank_text_has_no_chunks_witness :
  Forall (fun c => isspace c = true) [SP; SP; NL; NL; 9%N; SP] /\
  get_text_chunks [SP; SP; NL; NL; 9%N; SP] = Ok [].
Proof.
  assert (H : Forall (fun c => isspace c = true) [SP; SP; NL; NL; 9%N; SP])
    by (repeat constructor).
  split; [exact H|]. exact (blank_text_has_no_chunks _ H).
Defined.

Lemma short_text_is_one_chunk_witness :
  len (py " X is a letter.  It is defined on page 1. ") < 1000 /\
  get_text_chunks (py " X is a letter.  It is defined on page 1. ") =
  Ok [py "X is a letter.  It is defined on page 1."].
Proof.
  split; [reflexivity|].
  exact (short_text_is_one_chunk (py " X is a letter.  It is defined on page 1. ")
           eq_refl).
Defined.

Lemma chunks_reassemble_witness :
  exists chunks,
    get_text_chunks (repeat 97%N 2500) = Ok chunks /\
    reassemble 200 chunks = repeat 97%N 2500.
Proof.
  exact (chunks_reassemble (repeat 97%N 2500) (letters_not_space 2500)).
Defined.

Lemma chunk_count_witness :
  exists chunks,
    get_text_chunks (repeat 97%N 2500) = Ok chunks /\ len chunks = 3.
Proof.
  destruct (chunk_count (repeat 97%N 2500) (letters_not_space 2500))
    as (chunks & Hrun & Hlen).
  exists chunks. split; [exact Hrun|exact Hlen].
Defined.

Lemma no_dotenv_fails_cleanly :
  TestSetup.imports_fail_cleanly TestSetup.no_dotenv TestSetup.required_packages.
Proof.
  intros entry e Hin. unfold TestSetup.required_packages in Hin. cbn [In] in Hin.
  repeat (destruct Hin as [<-|Hin];
          [intros Himp; vm_compute in Himp;
           first [discriminate Himp | injection Himp as <-; reflexivity]|]).
  contradiction.
Defined.

Lemma check_dependencies_reports_every_package_witness :
  TestSetup.imports_fail_cleanly TestSetup.no_dotenv TestSetup.required_packages /\
  exists all_ok,
    TestSetup.check_dependencies TestSetup.no_dotenv [] =
    (Ok all_ok, map (TestSetup.report TestSetup.no_dotenv) TestSetup.required_packages) /\
    (all_ok = true <-> TestSetup.all_installed TestSetup.no_dotenv).
Proof.
  split; [exact no_dotenv_fails_cleanly|].
  exact (check_dependencies_reports_every_package TestSetup.no_dotenv []
           no_dotenv_fails_cleanly).
Defined.

Lemma check_dependencies_lets_other_errors_through_witness :
  TestSetup.check_dependencies TestSetup.broken_import [] =
  (Raise (mkExn "SyntaxError" (py "invalid syntax")),
   [[10003%N] ++ py " Streamlit installed"; [10003%N] ++ py " PyPDF2 installed"]).
Proof.
  apply (check_dependencies_lets_other_errors_through TestSetup.broken_import
           [(py "streamlit", py "Streamlit"); (py "PyPDF2", py "PyPDF2")]
           [(py "langchain_openai", py "LangChain OpenAI");
            (py "langchain_pinecone", py "LangChain Pinecone");
            (py "pinecone", py "Pinecone");
            (py "openai", py "OpenAI");
            (py "tiktoken", py "TikToken");
            (py "dotenv", py "python-dotenv")]
           (py "langchain", py "LangChain")
           (mkExn "SyntaxError" (py "invalid syntax")) []).
  - reflexivity.
  - intros entry e [<-|[<-|[]]] Himp; vm_compute in Himp; discriminate Himp.
  - reflexivity.
  - reflexivity.
Defined.

Lemma main_without_dotenv_has_no_verdict_witness :
  TestSetup.no_dotenv (py "dotenv") =
    Some (Exn "ModuleNotFoundError" ["ImportError"; "Exception"]%string
              (py "No module named 'dotenv'")) /\
  exists e' lines,
    TestSetup.main TestSetup.a_version TestSetup.no_dotenv TestSetup.every_name
      TestSetup.no_keys [] = (Raise e', lines) /\
    ~ In TestSetup.PASSED lines /\ ~ In TestSetup.FAILED lines.
Proof.
  split; [reflexivity|].
  exact (main_without_dotenv_has_no_verdict TestSetup.a_version TestSetup.no_dotenv
           TestSetup.every_name TestSetup.no_keys _ eq_refl).
Defined.

Lemma all_imported_fails_cleanly :
  TestSetup.imports_fail_cleanly TestSetup.all_imported TestSetup.required_packages.
Proof. intros entry e _ Himp. discriminate Himp. Defined.

Lemma main_verdict_witness :
  exists lines,
    TestSetup.main TestSetup.a_version TestSetup.all_imported TestSetup.every_name
      TestSetup.no_keys [] = (Ok tt, lines) /\
    In TestSetup.PASSED lines /\ ~ In TestSetup.FAILED lines.
Proof.
  destruct (main_verdict TestSetup.a_version TestSetup.all_imported
              TestSetup.every_name TestSetup.no_keys
              all_imported_fails_cleanly eq_refl eq_refl)
    as (lines & Hrun & Hpassed & Hfailed).
  assert (Hready : TestSetup.python_3_8 TestSetup.a_version /\
                   TestSetup.all_installed TestSetup.all_imported).
  { split; [right; cbn; lia|intros entry _; reflexivity]. }
  exists lines. split; [exact Hrun|]. split.
  - apply Hpassed. exact Hready.
  - intros Hin. apply Hfailed in Hin. exact (Hin Hready).
Defined.

(* ================================================================= *)
(** ** Where the cuts fall *)






Section Runs.

Variable self : TextSplitter.t.
Hypothesis strips : TextSplitter._strip_whitespace self = true.

Local Abbreviation chunk_size := (TextSplitter._chunk_size self).
Local Abbreviation small := (fun p : str => len p < TextSplitter._chunk_size self).






End Runs.

Section Cuts.

Variable self : TextSplitter.t.
Hypothesis strips : TextSplitter._strip_whitespace self = true.

Local Abbreviation chunk_size := (TextSplitter._chunk_size self).
Local Abbreviation small := (fun p : str => len p < TextSplitter._chunk_size self).





End Cuts.




(** ** C7 *)




(* ================================================================= *)
(** ** The model request and its retries *)


(** ** C5 *)



